(** * RiyadhNow map application: the rule-driven filter, rank and heat engine

    A shallow embedding of the engine of [app.js] (the revision with the
    pattern-matching rule compiler and the API response validator):
    [validatePlaceData], [validateAPIResponse], the record construction of
    [loadRealPlacesAndBootstrapUI], [compilePredicate], [compileHeat],
    the weight computation of [updateHeatLayer], [normalizeSimilarResults],
    [num], [sortBySpec] and [filterData].

    Conventions of the embedding.
    - A JavaScript string is the list of its UTF-16 code units ([list N]).
    - A JavaScript number is [NaN], an infinity, or a finite value held as
      an exact rational: comparisons are those of the doubles, arithmetic
      is taken without rounding and the sign of zero is not kept.
    - A JSON value is a [jsval]; the host's conversions between text and
      numbers and its case mapping are the fields of the class [Host].
    - A place object built by the application is the record [Place]; a
      property that a builder leaves out reads [VUndef], as in JavaScript. *)

From Stdlib Require Import QArith Lqa Lia List NArith ZArith Bool.
From stdpp Require Import gmap list strings.
Import ListNotations.

Set Warnings "-register-all".

(** ** Strings as code units *)

Abbreviation jsstring := (list N).

Fixpoint u (s : string) : jsstring :=
  match s with
  | EmptyString => []
  | String c s' => Ascii.N_of_ascii c :: u s'
  end.

(** The single code unit of a one-character literal. *)
Definition ch (s : string) : N := hd 0%N (u s).

Definition str_eqb (s t : jsstring) : bool := bool_decide (s = t).

(** WhiteSpace and LineTerminator code units: the set of [\s] and of
    [String.prototype.trim]. *)
Definition is_space (c : N) : bool :=
  ((9 <=? c) && (c <=? 13) || (c =? 32) || (c =? 160) || (c =? 5760)
   || (8192 <=? c) && (c <=? 8202) || (c =? 8232) || (c =? 8233)
   || (c =? 8239) || (c =? 8287) || (c =? 12288) || (c =? 65279))%N.

Definition is_digit (c : N) : bool := ((48 <=? c) && (c <=? 57))%N.

Definition is_word (c : N) : bool :=
  (is_digit c || (65 <=? c) && (c <=? 90) || (97 <=? c) && (c <=? 122)
   || (c =? 95))%N.

Fixpoint trimStart (s : jsstring) : jsstring :=
  match s with
  | c :: s' => if is_space c then trimStart s' else s
  | [] => []
  end.

Definition trimEnd (s : jsstring) : jsstring := rev (trimStart (rev s)).

Definition trim (s : jsstring) : jsstring := trimEnd (trimStart s).

Fixpoint startsWith (s p : jsstring) : bool :=
  match p, s with
  | [], _ => true
  | a :: p', b :: s' => (a =? b)%N && startsWith s' p'
  | _ :: _, [] => false
  end.

(** [s.slice(n)] for a non-negative [n]. *)
Definition slice (n : nat) (s : jsstring) : jsstring := skipn n s.

(** [hay.includes(needle)]: [needle] occurs in [hay] at some position. *)
Fixpoint includes (hay needle : jsstring) : bool :=
  startsWith hay needle ||
  match hay with
  | [] => false
  | _ :: hay' => includes hay' needle
  end.

(** [parts.join(sep)] on parts already converted to text. *)
Fixpoint join (sep : jsstring) (parts : list jsstring) : jsstring :=
  match parts with
  | [] => []
  | [p] => p
  | p :: rest => p ++ sep ++ join sep rest
  end.

(** ** Numbers *)

Inductive jsnum :=
| NaN
| PInf
| NInf
| Fin (q : Q).

Definition Qltb (x y : Q) : bool := negb (Qle_bool y x).

Definition isFinite (n : jsnum) : bool :=
  match n with Fin _ => true | _ => false end.

(** [a < b]; false as soon as an operand is [NaN]. *)
Definition js_lt (a b : jsnum) : bool :=
  match a, b with
  | NaN, _ | _, NaN => false
  | Fin x, Fin y => Qltb x y
  | NInf, NInf => false
  | NInf, _ => true
  | _, NInf => false
  | PInf, _ => false
  | Fin _, PInf => true
  end.

(** [a <= b]; false as soon as an operand is [NaN]. *)
Definition js_le (a b : jsnum) : bool :=
  match a, b with
  | NaN, _ | _, NaN => false
  | _, _ => negb (js_lt b a)
  end.

Definition js_gt (a b : jsnum) : bool := js_lt b a.
Definition js_ge (a b : jsnum) : bool := js_le b a.

Definition js_neg (a : jsnum) : jsnum :=
  match a with
  | NaN => NaN
  | PInf => NInf
  | NInf => PInf
  | Fin x => Fin (- x)
  end.

Definition js_add (a b : jsnum) : jsnum :=
  match a, b with
  | NaN, _ | _, NaN => NaN
  | PInf, NInf | NInf, PInf => NaN
  | PInf, _ | _, PInf => PInf
  | NInf, _ | _, NInf => NInf
  | Fin x, Fin y => Fin (x + y)
  end.

Definition js_sub (a b : jsnum) : jsnum := js_add a (js_neg b).

(** The infinity carrying the sign of [x], or [NaN] when [x] is zero. *)
Definition signed_inf (positive : bool) (x : Q) : jsnum :=
  match (x ?= 0)%Q with
  | Eq => NaN
  | Gt => if positive then PInf else NInf
  | Lt => if positive then NInf else PInf
  end.

Definition js_mul (a b : jsnum) : jsnum :=
  match a, b with
  | NaN, _ | _, NaN => NaN
  | PInf, PInf | NInf, NInf => PInf
  | PInf, NInf | NInf, PInf => NInf
  | PInf, Fin y => signed_inf true y
  | NInf, Fin y => signed_inf false y
  | Fin x, PInf => signed_inf true x
  | Fin x, NInf => signed_inf false x
  | Fin x, Fin y => Fin (x * y)
  end.

Definition js_div (a b : jsnum) : jsnum :=
  match a, b with
  | NaN, _ | _, NaN => NaN
  | PInf, Fin y => if Qltb y 0 then NInf else PInf
  | NInf, Fin y => if Qltb y 0 then PInf else NInf
  | Fin _, PInf | Fin _, NInf => Fin 0
  | Fin x, Fin y => if Qeq_bool y 0 then signed_inf true x else Fin (x / y)
  | _, _ => NaN
  end.

(** [Math.min] and [Math.max] of two arguments. *)
Definition Math_min (a b : jsnum) : jsnum :=
  match a, b with
  | NaN, _ | _, NaN => NaN
  | _, _ => if js_lt b a then b else a
  end.

Definition Math_max (a b : jsnum) : jsnum :=
  match a, b with
  | NaN, _ | _, NaN => NaN
  | _, _ => if js_lt a b then b else a
  end.

(** Truthiness of a number: neither zero nor [NaN]. *)
Definition num_truthy (n : jsnum) : bool :=
  match n with
  | NaN => false
  | Fin q => negb (Qeq_bool q 0)
  | _ => true
  end.

(** ** JSON values *)

Inductive jsval :=
| VUndef
| VNull
| VBool (b : bool)
| VNum (n : jsnum)
| VStr (s : jsstring)
| VArr (items : list jsval)
| VObj (fields : list (jsstring * jsval)).

Definition truthy (v : jsval) : bool :=
  match v with
  | VUndef | VNull => false
  | VBool b => b
  | VNum n => num_truthy n
  | VStr s => match s with [] => false | _ => true end
  | VArr _ | VObj _ => true
  end.

(** [a || b] and [a ?? b]. *)
Definition js_or (a b : jsval) : jsval := if truthy a then a else b.

Definition nullish (v : jsval) : bool :=
  match v with VUndef | VNull => true | _ => false end.

Definition js_coalesce (a b : jsval) : jsval := if nullish a then b else a.

Infix "|||" := js_or (at level 50, left associativity).
Infix "???" := js_coalesce (at level 49, right associativity).

(** [typeof v === 'object']. *)
Definition typeof_object (v : jsval) : bool :=
  match v with VNull | VArr _ | VObj _ => true | _ => false end.

Definition isArray (v : jsval) : bool :=
  match v with VArr _ => true | _ => false end.

(** The value under key [k] among the own properties [fs] of a parsed
    object, in which a key occurs once; [undefined] when it is absent. *)
Fixpoint assoc (k : jsstring) (fs : list (jsstring * jsval)) : jsval :=
  match fs with
  | [] => VUndef
  | (k', v) :: fs' => if str_eqb k k' then v else assoc k fs'
  end.

(** [v.k] for a property name [k] of the upstream payloads. None of these
    names is defined on a prototype, so the read gives [undefined] on
    anything but an object that carries the key. *)
Definition get (v : jsval) (k : string) : jsval :=
  match v with
  | VObj fs => assoc (u k) fs
  | _ => VUndef
  end.

(** [v === s] and [v !== s] against a string [s]. *)
Definition strict_eq_str (v : jsval) (s : jsstring) : bool :=
  match v with
  | VStr t => str_eqb t s
  | _ => false
  end.

(** ** The host's conversions *)

Class Host := {
  StringToNumber : jsstring -> jsnum;
  NumberToString : jsnum -> jsstring;
  toLowerCase : jsstring -> jsstring
}.

Section Conversions.
Context `{Host}.

(** [String(v)]. *)
Fixpoint ToString (v : jsval) : jsstring :=
  match v with
  | VUndef => u "undefined"
  | VNull => u "null"
  | VBool true => u "true"
  | VBool false => u "false"
  | VNum n => NumberToString n
  | VStr s => s
  | VArr l =>
      join (u ",")
        (map (fun x => match x with
                       | VUndef | VNull => []
                       | _ => ToString x
                       end) l)
  | VObj _ => u "[object Object]"
  end.

(** [Number(v)]. *)
Definition Number (v : jsval) : jsnum :=
  match v with
  | VUndef => NaN
  | VNull => Fin 0
  | VBool true => Fin 1
  | VBool false => Fin 0
  | VNum n => n
  | VStr s => StringToNumber s
  | VArr _ | VObj _ => StringToNumber (ToString v)
  end.

(** [function num(v)]. *)
Definition num (v : jsval) : jsnum :=
  let n := Number (v ??? VNum (Fin 0)) in
  if isFinite n then n else Fin 0.

(** [arr.join(sep)] on an array of values. *)
Definition join_values (sep : jsstring) (l : list jsval) : jsstring :=
  join sep
    (map (fun x => match x with
                   | VUndef | VNull => []
                   | _ => ToString x
                   end) l).

End Conversions.

(** ** Place objects *)

(** The object built for one place by [loadRealPlacesAndBootstrapUI] or by
    [normalizeSimilarResults]. [tags] is an array in both builders. *)
Record Place := mkPlace {
  id : jsval;
  place_id : jsval;
  name : jsval;
  district : jsval;
  district_slug_ar : jsval;
  category : jsval;
  sentiment : jsval;
  price : jsval;
  rating : jsval;
  reviews : jsval;
  rating_count : jsval;
  trust : jsval;
  bayes2_score : jsval;
  sentiment_label_ar : jsval;
  price_level : jsval;
  price_bucket_ar : jsval;
  lat : jsval;
  lng : jsval;
  tags : list jsval;
  summary : jsval;
  link : jsval;
  pros_ar : jsval
}.

(** [a[f]] for a computed property name [f]. Names that no builder defines
    read [VUndef]. *)
Definition get_field (a : Place) (f : jsstring) : jsval :=
  if str_eqb f (u "id") then id a
  else if str_eqb f (u "place_id") then place_id a
  else if str_eqb f (u "name") then name a
  else if str_eqb f (u "district") then district a
  else if str_eqb f (u "district_slug_ar") then district_slug_ar a
  else if str_eqb f (u "category") then category a
  else if str_eqb f (u "sentiment") then sentiment a
  else if str_eqb f (u "price") then price a
  else if str_eqb f (u "rating") then rating a
  else if str_eqb f (u "reviews") then reviews a
  else if str_eqb f (u "rating_count") then rating_count a
  else if str_eqb f (u "trust") then trust a
  else if str_eqb f (u "bayes2_score") then bayes2_score a
  else if str_eqb f (u "sentiment_label_ar") then sentiment_label_ar a
  else if str_eqb f (u "price_level") then price_level a
  else if str_eqb f (u "price_bucket_ar") then price_bucket_ar a
  else if str_eqb f (u "lat") then lat a
  else if str_eqb f (u "lng") then lng a
  else if str_eqb f (u "tags") then VArr (tags a)
  else if str_eqb f (u "summary") then summary a
  else if str_eqb f (u "link") then link a
  else if str_eqb f (u "pros_ar") then pros_ar a
  else VUndef.

(** The literals for "all" (the sentiment and price option that filters
    nothing, and the default price) and for "neutral" (the default
    sentiment), with the code units that the file stores for them. *)
Definition ALL_AR : jsstring := [255; 223; 376; 209; 376; 201; 376; 209]%N.
Definition NEUTRAL_AR : jsstring :=
  [376; 214; 255; 8800; 255; 223; 376; 228; 255; 216]%N.

(** ** Input validation for API responses *)

Inductive place_check :=
| PlaceOk
| PlaceBad (reason : string).

Inductive api_check :=
| ApiBad (error : string)
| ApiOk (results : list jsval) (filtered : option nat).

Section Validation.
Context `{Host}.

Definition validatePlaceData (p : jsval) : place_check :=
  if negb (truthy p) || negb (typeof_object p) then PlaceBad "not_an_object"
  else if negb (truthy (get p "place_id")) && negb (truthy (get p "id"))
          && negb (truthy (get p "gid"))
  then PlaceBad "missing_id"
  else
    let lat := Number (get p "lat" ??? get p "latitude") in
    let lng := Number (get p "lng" ??? get p "longitude") in
    if negb (isFinite lat) || negb (isFinite lng)
    then PlaceBad "invalid_coordinates"
    else if js_lt lat (Fin (-90)) || js_gt lat (Fin 90)
            || js_lt lng (Fin (-180)) || js_gt lng (Fin 180)
    then PlaceBad "coordinates_out_of_range"
    else PlaceOk.

Definition place_valid (p : jsval) : bool :=
  match validatePlaceData p with PlaceOk => true | PlaceBad _ => false end.

Definition validateAPIResponse (payload : jsval) : api_check :=
  if negb (truthy payload) || negb (typeof_object payload)
  then ApiBad "Invalid response format"
  else
    match get payload "results" with
    | VArr [] => ApiOk [] None
    | VArr results =>
        let validResults := List.filter place_valid results in
        let invalid := List.filter (fun p => negb (place_valid p)) results in
        ApiOk validResults (Some (length invalid))
    | _ => ApiBad "Missing results array"
    end.

(** The object that the loader builds from one validated row; [rnd] is
    the text of [String(Math.random())] for this row. *)
Definition mapPlace (rnd : jsstring) (p : jsval) : Place :=
  let tags :=
    match get p "tags", get p "tags_ar", get p "top_tags" with
    | VArr l, _, _ => l
    | _, VArr l, _ => l
    | _, _, VArr l => l
    | _, _, _ => []
    end in
  let district := get p "district" ||| get p "district_ar" ||| VStr (u "all") in
  let district_slug_ar := get p "district_slug_ar" ||| VStr [] in
  let category :=
    get p "category" ||| get p "primary_type"
      ||| get p "primary_type_display_name" ||| VStr (u "other") in
  let sentiment :=
    get p "sentiment_label_ar" ||| get p "sentiment" ||| VStr NEUTRAL_AR in
  let price := get p "price_level" ||| get p "price" ||| VStr ALL_AR in
  let count :=
    Number (get p "rating_count" ??? get p "user_ratings_total"
              ??? get p "reviews" ??? VNum (Fin 0)) in
  let score :=
    Number (get p "bayes2_score" ??? get p "trust" ??? VNum (Fin 0)) in
  {| id := get p "place_id" ||| get p "id" ||| get p "gid" ||| VStr rnd;
     place_id := get p "place_id" ||| get p "id";
     name := get p "name" ||| VStr [];
     district := district;
     district_slug_ar := district_slug_ar;
     category := category;
     sentiment := sentiment;
     price := price;
     rating := VNum (Number (get p "rating" ??? VNum (Fin 0)));
     reviews := VNum count;
     rating_count := VNum count;
     trust := VNum score;
     bayes2_score := VNum score;
     sentiment_label_ar := sentiment;
     price_level := price;
     price_bucket_ar := get p "price_bucket_ar" ||| VStr [];
     lat := VNum (Number (get p "lat" ??? get p "latitude"));
     lng := VNum (Number (get p "lng" ??? get p "longitude"));
     tags := map (fun t => VStr (ToString t)) tags;
     summary := get p "summary" ||| VStr [];
     link := get p "link" ||| VStr [];
     pros_ar := if isArray (get p "pros_ar") then get p "pros_ar" else VArr [] |}.

(** The value that [loadRealPlacesAndBootstrapUI] assigns to [DATA] for a
    fetched [payload]; [rnd i] is the text of the random draw for row [i]. *)
Definition loadRealPlacesAndBootstrapUI
    (rnd : nat -> jsstring) (payload : jsval) : list Place :=
  match validateAPIResponse payload with
  | ApiBad _ => []
  | ApiOk results _ => imap (fun i p => mapPlace (rnd i) p) results
  end.

End Validation.

(** ** Regular expressions of the rule compiler

    The patterns of [compilePredicate] and [compileHeat] are sequences of
    single-character classes, each taken once or under [*], [+] or [?],
    some of them wrapped in a capturing group. *)

Inductive catom :=
| AChar (c : N)      (* a literal character *)
| ASpace             (* \s *)
| ADigit             (* \d *)
| AWord.             (* \w *)

Inductive cclass :=
| COne (a : catom)                     (* the atom itself *)
| CSet (negated : bool) (l : list catom).   (* [...] and [^...] *)

Inductive quant := Once | Star | Plus | Opt.

Record item := Item { icls : cclass; iquant : quant; icap : bool }.

Abbreviation regex := (list item).

Definition atom_matches (a : catom) (c : N) : bool :=
  match a with
  | AChar d => (c =? d)%N
  | ASpace => is_space c
  | ADigit => is_digit c
  | AWord => is_word c
  end.

Definition class_matches (k : cclass) (c : N) : bool :=
  match k with
  | COne a => atom_matches a c
  | CSet negated l => xorb negated (existsb (fun a => atom_matches a c) l)
  end.

(** Length of the longest prefix of [s] made of characters of the class. *)
Fixpoint span (f : N -> bool) (s : jsstring) : nat :=
  match s with
  | c :: s' => if f c then S (span f s') else 0
  | [] => 0
  end.

Definition qmin (q : quant) : nat :=
  match q with Once | Plus => 1 | Star | Opt => 0 end.

Definition qmax (q : quant) (available : nat) : nat :=
  match q with Once | Opt => Nat.min 1 available | Star | Plus => available end.

(** Greedy repetition with backtracking: give the item [n] characters and
    run the rest of the pattern [k]; on failure retry with one character
    less, down to [lo]. *)
Fixpoint backtrack (k : jsstring -> option (list jsstring)) (cap : bool)
    (s : jsstring) (lo n : nat) : option (list jsstring) :=
  if (n <? lo)%nat then None
  else
    match k (skipn n s) with
    | Some groups => Some (if cap then firstn n s :: groups else groups)
    | None =>
        match n with
        | O => None
        | S n' => backtrack k cap s lo n'
        end
    end.

(** Match of [re] at the start of [s]; the result lists the captured
    groups in order. *)
Fixpoint match_here (re : regex) (s : jsstring) : option (list jsstring) :=
  match re with
  | [] => Some []
  | it :: re' =>
      backtrack (match_here re') (icap it) s (qmin (iquant it))
        (qmax (iquant it) (span (class_matches (icls it)) s))
  end.

(** [s.match(re)] for a pattern without flags: the leftmost match. Group
    [i] of the JavaScript result is element [i - 1] of the list. *)
Fixpoint search (re : regex) (s : jsstring) : option (list jsstring) :=
  match match_here re s with
  | Some groups => Some groups
  | None =>
      match s with
      | [] => None
      | _ :: s' => search re s'
      end
  end.

Definition group (i : nat) (m : list jsstring) : jsstring := nth (i - 1) m [].

Definition lits (s : string) : regex :=
  map (fun c => Item (COne (AChar c)) Once false) (u s).

(** [\s*] *)
Definition ws : regex := [Item (COne ASpace) Star false].

(** [([\d.]+)], [(\d+)], [(\w+)] *)
Definition cap_number : regex :=
  [Item (CSet false [ADigit; AChar (ch ".")]) Plus true].
Definition cap_digits : regex := [Item (COne ADigit) Plus true].
Definition cap_word : regex := [Item (COne AWord) Plus true].

(** The class of the two quote characters (39 and 34), written [Q] in the
    patterns quoted below: [[Q]] and [([^Q]+)]. *)
Definition quote : regex := [Item (CSet false [AChar 39; AChar 34]) Once false].
Definition cap_unquoted : regex :=
  [Item (CSet true [AChar 39; AChar 34]) Plus true].

(** [/r\s*>=\s*([\d.]+)\s*&&\s*v\s*>=\s*(\d+)\s*&&\s*v\s*<=\s*(\d+)\s*&&\s*s\s*!==\s*[Q]([^Q]+)[Q]/] *)
Definition discover_re : regex :=
  concat [lits "r"; ws; lits ">="; ws; cap_number; ws; lits "&&"; ws;
          lits "v"; ws; lits ">="; ws; cap_digits; ws; lits "&&"; ws;
          lits "v"; ws; lits "<="; ws; cap_digits; ws; lits "&&"; ws;
          lits "s"; ws; lits "!=="; ws; quote; cap_unquoted; quote].

(** [/b2\s*>=\s*([\d.]+)\s*&&\s*v\s*>=\s*(\d+)\s*&&\s*s\s*!==\s*[Q]([^Q]+)[Q]/] *)
Definition mustGo_re : regex :=
  concat [lits "b2"; ws; lits ">="; ws; cap_number; ws; lits "&&"; ws;
          lits "v"; ws; lits ">="; ws; cap_digits; ws; lits "&&"; ws;
          lits "s"; ws; lits "!=="; ws; quote; cap_unquoted; quote].

(** [/r\s*>=\s*([\d.]+)\s*&&\s*v\s*>=\s*(\d+)/] *)
Definition topRated_re : regex :=
  concat [lits "r"; ws; lits ">="; ws; cap_number; ws; lits "&&"; ws;
          lits "v"; ws; lits ">="; ws; cap_digits].

(** [/const q\s*=\s*[Q]([^Q]+)[Q]/] *)
Definition raqi_re : regex :=
  concat [lits "const q"; ws; lits "="; ws; quote; cap_unquoted; quote].

(** [/return\s*\(\s*p\.(\w+)\s*\?\?\s*([\d.]+)\s*\)\s*;?/] *)
Definition field_re : regex :=
  concat [lits "return"; ws; lits "("; ws; lits "p."; cap_word; ws;
          lits "??"; ws; cap_number; ws; lits ")"; ws;
          [Item (COne (AChar (ch ";"))) Opt false]].

(** ** Numeric literals of the rules *)

Definition decimal (ds : jsstring) : Z :=
  fold_left (fun acc c => (10 * acc + Z.of_N (c - 48))%Z) ds 0%Z.

(** [parseFloat(s)] on the text of a group [[\d.]+]: the value of the
    longest prefix that is a decimal literal, [NaN] when there is none.
    Such a text carries no blank, sign or exponent. *)
Definition parseFloat (s : jsstring) : jsnum :=
  let n1 := span is_digit s in
  match skipn n1 s with
  | c :: r =>
      let n2 := span is_digit r in
      if (c =? ch ".")%N then
        if (n1 =? 0)%nat && (n2 =? 0)%nat then NaN
        else Fin (inject_Z (decimal (firstn n1 s))
                  + inject_Z (decimal (firstn n2 r)) / inject_Z (10 ^ Z.of_nat n2))
      else if (n1 =? 0)%nat then NaN
      else Fin (inject_Z (decimal (firstn n1 s)))
  | [] => if (n1 =? 0)%nat then NaN else Fin (inject_Z (decimal (firstn n1 s)))
  end.

(** [parseInt(s, 10)] on the text of a group [\d+]. *)
Definition parseInt (s : jsstring) : jsnum :=
  let n := span is_digit s in
  if (n =? 0)%nat then NaN else Fin (inject_Z (decimal (firstn n s))).

(** ** Insights and the UI state *)

Record Insight := mkInsight {
  key : jsstring;
  predicate : Place -> bool;
  sort : jsstring;
  heatFn : option (Place -> jsnum)
}.

(** The object [state]. *)
Module state.
Record t := mk {
  similarMode : bool;
  similarAnchor : option Place;
  similarResults : list Place;
  q : jsstring;
  district : jsstring;
  insight : jsstring;
  categories : gset jsstring;
  sentiment : jsstring;
  price : jsstring;
  tags : gset jsstring;
  heatmap : jsstring
}.
End state.

(** The first element of [INSIGHTS], present initially and after every
    [rebuildInsightsFromToggleConfig]. *)
Definition base_insight : Insight :=
  {| key := u "all";
     predicate := fun _ => true;
     sort := u "desc:bayes2_score";
     heatFn := None |}.

(** [INSIGHTS], given the entries [mapped] built from the configuration. *)
Definition INSIGHTS (mapped : list Insight) : list Insight :=
  base_insight :: mapped.

(** [INSIGHTS.find(x => x.key === state.insight) || INSIGHTS[0]] *)
Definition activeInsight (mapped : list Insight) (st : state.t) : Insight :=
  match List.find (fun x => str_eqb (key x) (state.insight st)) (INSIGHTS mapped) with
  | Some x => x
  | None => base_insight
  end.

(** [Array.prototype.sort] with a comparator. The sort is stable, so for a
    consistent comparator (which [sortBySpec] is, see [sortBySpec_asym],
    [sortBySpec_trans] and [sortBySpec_ties]) its result is the one of this
    insertion sort: [x] moves behind [y] exactly when [cmp x y > 0]. *)
Fixpoint sort_insert {A} (cmp : A -> A -> jsnum) (x : A) (l : list A) : list A :=
  match l with
  | [] => [x]
  | y :: l' =>
      if js_gt (cmp x y) (Fin 0) then y :: sort_insert cmp x l'
      else x :: y :: l'
  end.

Fixpoint array_sort {A} (cmp : A -> A -> jsnum) (l : list A) : list A :=
  match l with
  | [] => []
  | x :: l' => sort_insert cmp x (array_sort cmp l')
  end.

Section Engine.
Context `{Host}.

(** *** Insights config: the safe predicate evaluator *)

(** [`${p.name} ${(p.tags||[]).join(sep)} ${p.category} ${p.district}`] *)
Definition haystack (p : Place) : jsstring :=
  ToString (name p) ++ u " " ++ join_values (u " ") (tags p) ++ u " "
    ++ ToString (category p) ++ u " " ++ ToString (district p).

Definition discover_pred (minRating minReviews maxReviews : jsnum)
    (excludeSentiment : jsstring) (p : Place) : bool :=
  let r := rating p ??? VNum (Fin 0) in
  let v := rating_count p ??? VNum (Fin 0) in
  let s := sentiment_label_ar p ||| VStr [] in
  js_ge (Number r) minRating && js_ge (Number v) minReviews
    && js_le (Number v) maxReviews && negb (strict_eq_str s excludeSentiment).

Definition mustGo_pred (minBayes minReviews : jsnum)
    (excludeSentiment : jsstring) (p : Place) : bool :=
  let b2 := bayes2_score p ??? VNum (Fin 0.50) in
  let v := rating_count p ??? VNum (Fin 0) in
  let s := sentiment_label_ar p ||| VStr [] in
  js_ge (Number b2) minBayes && js_ge (Number v) minReviews
    && negb (strict_eq_str s excludeSentiment).

Definition topRated_pred (minRating minReviews : jsnum) (p : Place) : bool :=
  let r := rating p ??? VNum (Fin 0) in
  let v := rating_count p ??? VNum (Fin 0) in
  js_ge (Number r) minRating && js_ge (Number v) minReviews.

Definition raqi_pred (searchTerm : jsstring) (p : Place) : bool :=
  includes (toLowerCase (haystack p)) searchTerm.

(** [compilePredicate]. Every step of its [try] block is total on these
    values, so the [catch] branch, which also returns the always-true
    predicate, is never entered. *)
Definition compilePredicate (codeStr : jsval) : Place -> bool :=
  let code := trim (ToString (codeStr ||| VStr [])) in
  if negb (truthy (VStr code)) || str_eqb code (u "return true;")
  then fun _ => true
  else
    match search discover_re code with
    | Some m =>
        discover_pred (parseFloat (group 1 m)) (parseInt (group 2 m))
          (parseInt (group 3 m)) (group 4 m)
    | None =>
    match search mustGo_re code with
    | Some m =>
        mustGo_pred (parseFloat (group 1 m)) (parseInt (group 2 m)) (group 3 m)
    | None =>
    match search topRated_re code with
    | Some m => topRated_pred (parseFloat (group 1 m)) (parseInt (group 2 m))
    | None =>
    match search raqi_re code with
    | Some m => raqi_pred (toLowerCase (group 1 m))
    | None => fun _ => true
    end end end end.

Definition allowedFields : list jsstring :=
  [u "bayes2_score"; u "rating"; u "rating_count"; u "trust_score"].

Definition field_weight (fieldName : jsstring) (defaultValue : jsnum)
    (p : Place) : jsnum :=
  let v := get_field p fieldName ??? VNum defaultValue in
  let n := Number v in
  if isFinite n then n else Fin 0.

(** [compileHeat] *)
Definition compileHeat (codeStr : jsval) : Place -> jsnum :=
  let code := trim (ToString (codeStr ||| VStr [])) in
  if negb (truthy (VStr code)) then fun _ => Fin 0
  else
    match search field_re code with
    | Some m =>
        let fieldName := group 1 m in
        let parsed := parseFloat (group 2 m) in
        let defaultValue := if num_truthy parsed then parsed else Fin 0 in
        if negb (existsb (str_eqb fieldName) allowedFields)
        then fun _ => Fin 0
        else field_weight fieldName defaultValue
    | None => fun _ => Fin 0
    end.


(** *** Heat layer *)

(** The weight used by [updateHeatLayer] when the insight has no [heatFn]. *)
Definition default_weight (p : Place) : jsnum :=
  let b2 := Number (bayes2_score p ??? VNum (Fin 0)) in
  let v := Number (rating_count p ??? VNum (Fin 0)) in
  let nv := Math_max (Fin 0) (Math_min (Fin 1) (js_div v (Fin 500))) in
  Math_max (Fin 0)
    (Math_min (Fin 1) (js_add (js_mul (Fin 0.65) b2) (js_mul (Fin 0.35) nv))).

Definition weightFn (insightObj : Insight) : Place -> jsnum :=
  match heatFn insightObj with
  | Some f => f
  | None => default_weight
  end.

(** The third component of the point pushed for [p]. *)
Definition heat_weight (insightObj : Insight) (p : Place) : jsnum :=
  let w := weightFn insightObj p in
  if isFinite w then w else Fin 0.2.

(** The points [pts] that [updateHeatLayer] hands to the heat layer, or
    [None] when the heat map is off and the layer is removed. *)
Definition updateHeatLayer (mapped : list Insight) (st : state.t)
    (places : list Place) : option (list (jsnum * jsnum * jsnum)) :=
  if str_eqb (state.heatmap st) (u "Off") then None
  else
    let insightObj := activeInsight mapped st in
    Some (omap (fun p =>
                 let lat := Number (lat p) in
                 let lng := Number (lng p) in
                 if negb (isFinite lat) || negb (isFinite lng) then None
                 else Some (lat, lng, heat_weight insightObj p))
               places).

(** *** Similar mode *)

Definition normalizeSimilarResults (arr : list jsval) (anchorId : jsval)
    : list Place :=
  let kept :=
    List.filter
      (fun x =>
         truthy x && truthy (get x "place_id" ||| get x "id")
         && negb (str_eqb (ToString (get x "place_id" ||| get x "id"))
                    (ToString anchorId)))
      arr in
  let mapped :=
    map (fun x =>
           let opt_number v := if nullish v then VNull else VNum (Number v) in
           {| id := VStr (ToString (get x "place_id" ||| get x "id"));
              place_id := VStr (ToString (get x "place_id" ||| get x "id"));
              name := get x "name" ||| VStr [];
              district := VUndef;
              district_slug_ar := VUndef;
              category := VUndef;
              sentiment := VUndef;
              price := VUndef;
              rating := opt_number (get x "rating");
              reviews := VUndef;
              rating_count := opt_number (get x "rating_count");
              trust := VUndef;
              bayes2_score := opt_number (get x "bayes2_score");
              sentiment_label_ar := get x "sentiment_label_ar" ||| VStr [];
              price_level := VUndef;
              price_bucket_ar := get x "price_bucket_ar" ||| VStr [];
              lat := VNum (Number (get x "lat"));
              lng := VNum (Number (get x "lng"));
              tags := match get x "tags" with VArr l => l | _ => [] end;
              summary := get x "summary" ||| VStr [];
              link := get x "link" ||| VStr [];
              pros_ar := VUndef |})
        kept in
  List.filter (fun p => isFinite (Number (lat p)) && isFinite (Number (lng p)))
    mapped.

(** *** Filtering + sorting *)

Definition sortBySpec (a b : Place) (spec : jsstring) : jsnum :=
  let s := spec in
  if startsWith s (u "desc:") then
    let f := slice 5 s in
    js_sub (num (get_field b f)) (num (get_field a f))
  else if startsWith s (u "asc:") then
    let f := slice 4 s in
    js_sub (num (get_field a f)) (num (get_field b f))
  else if str_eqb s (u "special:mustgo") then
    let d1 := js_sub (num (bayes2_score b)) (num (bayes2_score a)) in
    if num_truthy d1 then d1
    else
      let d2 := js_sub (num (rating_count b)) (num (rating_count a)) in
      if num_truthy d2 then d2
      else js_sub (num (rating b)) (num (rating a))
  else
    let d := js_sub (num (trust b)) (num (trust a)) in
    if num_truthy d then d
    else js_sub (num (rating_count b)) (num (rating_count a)).

(** [set.has(v)] for a set of strings. *)
Definition set_has (s : gset jsstring) (v : jsval) : bool :=
  match v with
  | VStr t => bool_decide (t ∈ s)
  | _ => false
  end.

(** The seven filters of [filterData], in the order of the chain. *)
Definition stage_district (st : state.t) (p : Place) : bool :=
  if state.similarMode st then true
  else if str_eqb (state.district st) (u "all") then true
  else strict_eq_str (district p) (state.district st).

Definition stage_category (st : state.t) (p : Place) : bool :=
  if state.similarMode st then true
  else if set_has (state.categories st) (VStr (u "all")) then true
  else set_has (state.categories st) (category p).

Definition stage_insight (st : state.t) (pred : Place -> bool) (p : Place) : bool :=
  if state.similarMode st then true else pred p.

Definition stage_text (st : state.t) (p : Place) : bool :=
  let q := toLowerCase (state.q st) in
  if negb (truthy (VStr q)) then true
  else includes (toLowerCase (haystack p)) q.

Definition stage_sentiment (st : state.t) (p : Place) : bool :=
  if str_eqb (state.sentiment st) ALL_AR then true
  else strict_eq_str (sentiment p) (state.sentiment st).

Definition stage_price (st : state.t) (p : Place) : bool :=
  if str_eqb (state.price st) ALL_AR then true
  else strict_eq_str (price p) (state.price st).

Definition stage_tags (st : state.t) (p : Place) : bool :=
  if (size (state.tags st) =? 0)%nat then true
  else forallb (fun t => existsb (fun x => strict_eq_str x t) (tags p))
         (elements (state.tags st)).

Definition filterData (mapped : list Insight) (st : state.t)
    (rows : list Place) : list Place :=
  let insightObj := activeInsight mapped st in
  let pred := predicate insightObj in
  array_sort (fun a b => sortBySpec a b (sort insightObj))
    (List.filter (stage_tags st)
    (List.filter (stage_price st)
    (List.filter (stage_sentiment st)
    (List.filter (stage_text st)
    (List.filter (stage_insight st pred)
    (List.filter (stage_category st)
    (List.filter (stage_district st) rows))))))).

(** The list that [render] shows: the filter applied to the similar
    results in similar mode, to [DATA] otherwise. *)
Definition render_list (mapped : list Insight) (st : state.t)
    (DATA : list Place) : list Place :=
  filterData mapped st
    (if state.similarMode st then state.similarResults st else DATA).

End Engine.

(** ** A host for running the definitions

    [sample_host] reads plain decimal text, prints finite numbers in
    positional decimal notation and lowers the ASCII letters. It agrees
    with a JavaScript engine on text without exponents, radix prefixes or
    cased letters outside ASCII, which is all that the examples use. *)

Definition sample_StringToNumber (s : jsstring) : jsnum :=
  match trim s with
  | [] => Fin 0
  | c :: r =>
      let body := if (c =? ch "+")%N || (c =? ch "-")%N then r else c :: r in
      let n1 := span is_digit body in
      let rest := skipn n1 body in
      let whole :=
        match rest with
        | [] => true
        | d :: r' => (d =? ch ".")%N && (span is_digit r' =? length r')%nat
        end in
      if whole then
        (if (c =? ch "-")%N then js_neg (parseFloat body) else parseFloat body)
      else NaN
  end.

Fixpoint digits_of (fuel : nat) (n : Z) (acc : jsstring) : jsstring :=
  match fuel with
  | O => acc
  | S fuel' =>
      let acc' := (48 + Z.to_N (n mod 10))%N :: acc in
      if (n / 10 =? 0)%Z then acc' else digits_of fuel' (n / 10)%Z acc'
  end.

Fixpoint fraction_of (fuel : nat) (r d : Z) : jsstring :=
  match fuel with
  | O => []
  | S fuel' =>
      if (r =? 0)%Z then []
      else (48 + Z.to_N (10 * r / d))%N :: fraction_of fuel' ((10 * r) mod d)%Z d
  end.

Definition sample_NumberToString (n : jsnum) : jsstring :=
  match n with
  | NaN => u "NaN"
  | PInf => u "Infinity"
  | NInf => u "-Infinity"
  | Fin q =>
      let a := Z.abs (Qnum q) in
      let d := Zpos (Qden q) in
      let int := digits_of (S (Z.to_nat (Z.log2 a))) (a / d)%Z [] in
      let frac := fraction_of 20 (a mod d)%Z d in
      (if (Qnum q <? 0)%Z then u "-" else [])
        ++ int ++ (match frac with [] => [] | _ => u "." ++ frac end)
  end.

Definition sample_toLowerCase (s : jsstring) : jsstring :=
  map (fun c => if (65 <=? c)%N && (c <=? 90)%N then (c + 32)%N else c) s.

Definition sample_host : Host :=
  {| StringToNumber := sample_StringToNumber;
     NumberToString := sample_NumberToString;
     toLowerCase := sample_toLowerCase |}.

(** ** Properties used in the statements *)

(** The texts that a pattern denotes, and the texts that hold a match. *)
Definition count_ok (q : quant) (n : nat) : Prop :=
  match q with
  | Once => n = 1%nat
  | Star => True
  | Plus => (1 <= n)%nat
  | Opt => (n <= 1)%nat
  end.

Fixpoint in_lang (re : regex) (s : jsstring) : Prop :=
  match re with
  | [] => s = []
  | it :: re' =>
      exists w rest,
        s = w ++ rest
        /\ forallb (class_matches (icls it)) w = true
        /\ count_ok (iquant it) (length w)
        /\ in_lang re' rest
  end.

Definition contains (re : regex) (s : jsstring) : Prop :=
  exists pre w post, s = pre ++ w ++ post /\ in_lang re w.

(** The closed forms that [compilePredicate] can return. *)
Inductive closed_form `{Host} : (Place -> bool) -> Prop :=
| form_all : closed_form (fun _ => true)
| form_discover r v1 v2 s : closed_form (discover_pred r v1 v2 s)
| form_mustGo b v s : closed_form (mustGo_pred b v s)
| form_topRated r v : closed_form (topRated_pred r v)
| form_raqi t : closed_form (raqi_pred t).

(** The rule text that the compilers work on: [String(codeStr || "").trim()]. *)
Definition rule_text `{Host} (codeStr : jsval) : jsstring :=
  trim (ToString (codeStr ||| VStr [])).

(** A place object with the given rating, review count and sentiment
    label, every other property absent. *)
Definition place_of (r v : Q) (label : string) : Place :=
  {| id := VUndef; place_id := VUndef; name := VUndef; district := VUndef;
     district_slug_ar := VUndef; category := VUndef; sentiment := VUndef;
     price := VUndef; rating := VNum (Fin r); reviews := VUndef;
     rating_count := VNum (Fin v); trust := VUndef; bayes2_score := VUndef;
     sentiment_label_ar := VStr (u label); price_level := VUndef;
     price_bucket_ar := VUndef; lat := VUndef; lng := VUndef; tags := [];
     summary := VUndef; link := VUndef; pros_ar := VUndef |}.

(** A rule text states a lower, resp. an upper, bound on the review
    count [v]. *)
Definition lower_bound_re : regex := concat [lits "v"; ws; lits ">="; ws; cap_digits].
Definition upper_bound_re : regex := concat [lits "v"; ws; lits "<="; ws; cap_digits].

(** A raw row carries an identity when one of the three identity
    properties is truthy. *)
Definition has_identity (r : jsval) : Prop :=
  truthy (get r "place_id") = true \/ truthy (get r "id") = true
  \/ truthy (get r "gid") = true.

(** The coordinates of a raw row, as the places validator reads them, are
    finite and within the geographic range. *)
Definition coords_in_range `{Host} (r : jsval) : Prop :=
  exists la lo,
    Number (get r "lat" ??? get r "latitude") = Fin la
    /\ Number (get r "lng" ??? get r "longitude") = Fin lo
    /\ (-90 <= la <= 90)%Q /\ (-180 <= lo <= 180)%Q.

Definition place_in_range (p : Place) : Prop :=
  exists la lo,
    lat p = VNum (Fin la) /\ lng p = VNum (Fin lo)
    /\ (-90 <= la <= 90)%Q /\ (-180 <= lo <= 180)%Q.

(** The raw row [{ id, lat, lng }]. *)
Definition raw_row (ident : string) (la lo : Q) : jsval :=
  VObj [(u "id", VStr (u ident)); (u "lat", VNum (Fin la));
        (u "lng", VNum (Fin lo))].



(** A place object with the given trust score and review count. *)
Definition scored_place (score reviews : Q) : Place :=
  {| id := VStr (u "a"); place_id := VStr (u "a"); name := VStr [];
     district := VStr (u "all"); district_slug_ar := VStr [];
     category := VStr (u "other"); sentiment := VStr NEUTRAL_AR;
     price := VStr ALL_AR; rating := VNum (Fin 4.5); reviews := VNum (Fin reviews);
     rating_count := VNum (Fin reviews); trust := VNum (Fin score);
     bayes2_score := VNum (Fin score); sentiment_label_ar := VStr NEUTRAL_AR;
     price_level := VStr ALL_AR; price_bucket_ar := VStr [];
     lat := VNum (Fin 24.7); lng := VNum (Fin 46.6); tags := [];
     summary := VStr []; link := VStr []; pros_ar := VArr [] |}.






(** The rational that [num] returns. *)
Definition numQ `{Host} (v : jsval) : Q :=
  match num v with Fin q => q | _ => 0 end.

(** No element has to move behind its successor. *)
Fixpoint sorted {A} (cmp : A -> A -> jsnum) (l : list A) : Prop :=
  match l with
  | x :: (y :: _) as l' => js_gt (cmp x y) (Fin 0) = false /\ sorted cmp l'
  | _ => True
  end.

(** ** Arrays in a store

    [filterData] receives the array [rows] itself ([DATA] or
    [state.similarResults]), [Array.prototype.filter] allocates a new array
    and [Array.prototype.sort] sorts its receiver in place. Here an array
    is an address into the list of all arrays. *)

Abbreviation store := (list (list Place)).

Definition M (A : Type) : Type := store -> A * store.

#[global] Instance M_ret : MRet M := fun A a h => (a, h).

#[global] Instance M_bind : MBind M :=
  fun A B k m h => let (a, h') := m h in k a h'.

Definition content (h : store) (arr : nat) : list Place := default [] (h !! arr).

(** [arr.filter(f)]: a new array. *)
Definition array_filter (f : Place -> bool) (arr : nat) : M nat :=
  fun h => (length h, h ++ [List.filter f (content h arr)]).

(** [arr.sort(cmp)]: the same array, reordered. *)
Definition array_sort_in_place (cmp : Place -> Place -> jsnum) (arr : nat) : M nat :=
  fun h => (arr, <[arr := array_sort cmp (content h arr)]> h).

Section EngineInStore.
Context `{Host}.

Definition filterData_in_store (mapped : list Insight) (st : state.t)
    (rows : nat) : M nat :=
  let insightObj := activeInsight mapped st in
  let pred := predicate insightObj in
  a1 ← array_filter (stage_district st) rows;
  a2 ← array_filter (stage_category st) a1;
  a3 ← array_filter (stage_insight st pred) a2;
  a4 ← array_filter (stage_text st) a3;
  a5 ← array_filter (stage_sentiment st) a4;
  a6 ← array_filter (stage_price st) a5;
  a7 ← array_filter (stage_tags st) a6;
  array_sort_in_place (fun a b => sortBySpec a b (sort insightObj)) a7.

End EngineInStore.

(** A place of the similar results in the district [d], and the UI state
    of Scenario 3: district filter set, then similar mode entered. *)
Definition similar_place (ident d : string) : Place :=
  {| id := VStr (u ident); place_id := VStr (u ident); name := VStr (u ident);
     district := VStr (u d); district_slug_ar := VUndef; category := VUndef;
     sentiment := VStr NEUTRAL_AR; price := VStr ALL_AR; rating := VNull;
     reviews := VUndef; rating_count := VNull; trust := VUndef;
     bayes2_score := VNull; sentiment_label_ar := VStr []; price_level := VUndef;
     price_bucket_ar := VStr []; lat := VNum (Fin 24.7); lng := VNum (Fin 46.6);
     tags := []; summary := VStr []; link := VStr []; pros_ar := VUndef |}.

Definition scenario3_state : state.t :=
  {| state.similarMode := true;
     state.similarAnchor := None;
     state.similarResults := [similar_place "b" "uptown"; similar_place "c" "downtown"];
     state.q := [];
     state.district := u "downtown";
     state.insight := u "must_go";
     state.categories := {[ u "all" ]};
     state.sentiment := ALL_AR;
     state.price := ALL_AR;
     state.tags := ∅;
     state.heatmap := u "Off" |}.


(** [y] compares equal to [z] under the sort spec. *)
Definition ties `{Host} (spec : jsstring) (z y : Place) : bool :=
  negb (num_truthy (sortBySpec z y spec)).

(** The keys that [sortBySpec] compares under a spec, most significant
    first, each to be sorted in decreasing order; and the first of three
    differences that is not zero (the last one when the others are). *)
Definition sort_keys `{Host} (spec : jsstring) (a : Place) : Q * Q * Q :=
  if startsWith spec (u "desc:")
  then (numQ (get_field a (slice 5 spec)), 0%Q, 0%Q)
  else if startsWith spec (u "asc:")
  then ((- numQ (get_field a (slice 4 spec)))%Q, 0%Q, 0%Q)
  else if str_eqb spec (u "special:mustgo")
  then (numQ (bayes2_score a), numQ (rating_count a), numQ (rating a))
  else (numQ (trust a), numQ (rating_count a), 0%Q).

Definition first_nonzero (x y z : Q) : Q :=
  if Qeq_bool x 0 then (if Qeq_bool y 0 then z else y) else x.

Definition key_diff (ka kb : Q * Q * Q) : Q :=
  (first_nonzero (fst (fst kb) - fst (fst ka)) (snd (fst kb) - snd (fst ka))
     (snd kb - snd ka))%Q.

(** The rows that pass the seven filters, in input order. *)
Definition filter_stages `{Host} (mapped : list Insight) (st : state.t)
    (rows : list Place) : list Place :=
  List.filter (stage_tags st)
    (List.filter (stage_price st)
    (List.filter (stage_sentiment st)
    (List.filter (stage_text st)
    (List.filter (stage_insight st (predicate (activeInsight mapped st)))
    (List.filter (stage_category st)
    (List.filter (stage_district st) rows)))))).

(** * Further parts of the application *)

(** ** API retry logic with exponential backoff *)

(** [parseInt(s, 10)] on any text: leading blanks are skipped, a sign is
    read, and the decimal digits that follow give the value; [NaN] when
    there is no digit. *)
Definition parseInt10 (s : jsstring) : jsnum :=
  match trimStart s with
  | c :: r =>
      let body := if (c =? ch "+")%N || (c =? ch "-")%N then r else c :: r in
      let n := span is_digit body in
      if (n =? 0)%nat then NaN
      else if (c =? ch "-")%N then Fin (- inject_Z (decimal (firstn n body)))
      else Fin (inject_Z (decimal (firstn n body)))
  | [] => NaN
  end.

(** What the retry logic and its callers read of a [Response]: [ok],
    [status], [headers.get("Retry-After")] ([None] for [null]) and the
    value of [json()] ([None] when the body is not JSON and [json()]
    rejects). *)
Record Response := mkResponse {
  ok : bool;
  status : Z;
  retry_after : option jsstring;
  json : option jsval
}.

(** The outcome of one [fetch]. *)
Inductive fetched :=
| Fulfilled (response : Response)
| Rejected (error : jsval).

(** What [fetchWithRetry] throws: the last error caught, or the error
    "Failed to fetch after maximum retries". *)
Inductive thrown :=
| LastError (error : jsval)
| FailedAfterMaximumRetries.

Inductive completion (A : Type) :=
| Normal (a : A)
| Throw (e : thrown).
Arguments Normal {A} a.
Arguments Throw {A} e.

(** What a run does besides returning: the calls of [fetch] and the
    delays it sleeps, in order. *)
Inductive event :=
| Fetch (attempt : nat)
| Wait (waitTime : jsnum).

(** [Math.pow(2, attempt) * 1000] *)
Definition backoff (attempt : nat) : jsnum :=
  Fin (inject_Z (2 ^ Z.of_nat attempt * 1000)).

(** The end of [fetchWithRetry]: [if (lastError) throw lastError],
    otherwise the error "Failed to fetch after maximum retries";
    [lastError] is [None] while it is [null]. *)
Definition final_throw (lastError : option jsval) : thrown :=
  match lastError with
  | Some e => if truthy e then LastError e else FailedAfterMaximumRetries
  | None => FailedAfterMaximumRetries
  end.

(** The loop of [fetchWithRetry] with [remaining] iterations to go;
    [net k] is the outcome of the [k]-th call of [fetch]. *)
Fixpoint fetch_attempts (net : nat -> fetched) (maxRetries remaining : nat)
    (lastError : option jsval) : completion Response * list event :=
  match remaining with
  | O => (Throw (final_throw lastError), [])
  | S remaining' =>
      let attempt := (maxRetries - remaining)%nat in
      let continue (waits : list event) (lastError' : option jsval) :=
        let (r, trace) := fetch_attempts net maxRetries remaining' lastError' in
        (r, Fetch attempt :: waits ++ trace) in
      match net attempt with
      | Fulfilled response =>
          if ok response then (Normal response, [Fetch attempt])
          else if (status response =? 429)%Z then
            let waitTime :=
              match retry_after response with
              | Some (c :: s) => js_mul (parseInt10 (c :: s)) (Fin 1000)
              | _ => backoff attempt
              end in
            continue [Wait waitTime] lastError
          else if (500 <=? status response)%Z && (status response <? 600)%Z
                  && (attempt <? maxRetries - 1)%nat
          then continue [Wait (backoff attempt)] lastError
          else (Normal response, [Fetch attempt])
      | Rejected error =>
          if (attempt <? maxRetries - 1)%nat
          then continue [Wait (backoff attempt)] (Some error)
          else continue [] (Some error)
      end
  end.

Definition fetchWithRetry (net : nat -> fetched) (maxRetries : nat)
    : completion Response * list event :=
  fetch_attempts net maxRetries maxRetries None.

Definition fetches (trace : list event) : list nat :=
  omap (fun e => match e with Fetch k => Some k | Wait _ => None end) trace.

Definition waits (trace : list event) : list jsnum :=
  omap (fun e => match e with Wait w => Some w | Fetch _ => None end) trace.

Definition rate_limited (f : fetched) : Prop :=
  exists r, f = Fulfilled r /\ ok r = false /\ status r = 429%Z.

Definition no_retry_after (f : fetched) : Prop :=
  match f with
  | Fulfilled r => retry_after r = None \/ retry_after r = Some []
  | Rejected _ => True
  end.

(** Sample networks: every call answered with 429; every call failing
    with a network error; a first answer 404. *)
Definition answer (st : Z) (body : option jsval) : fetched :=
  Fulfilled {| ok := (200 <=? st)%Z && (st <=? 299)%Z; status := st;
               retry_after := None; json := body |}.

Definition net_429 : nat -> fetched := fun _ => answer 429 None.
Definition net_down : nat -> fetched := fun k => Rejected (VStr (u "offline")).
Definition net_404 : nat -> fetched := fun _ => answer 404 None.

(** ** The similar-places session *)

(** The globals that the session reads and writes: [state], [DATA] and
    [SELECTED_ID]. *)
Record App := mkApp {
  app_state : state.t;
  DATA : list Place;
  SELECTED_ID : option jsstring
}.

Definition set_similar (mode : bool) (anchor : option Place)
    (results : list Place) (st : state.t) : state.t :=
  {| state.similarMode := mode;
     state.similarAnchor := anchor;
     state.similarResults := results;
     state.q := state.q st;
     state.district := state.district st;
     state.insight := state.insight st;
     state.categories := state.categories st;
     state.sentiment := state.sentiment st;
     state.price := state.price st;
     state.tags := state.tags st;
     state.heatmap := state.heatmap st |}.

(** [enterSimilarMode(anchor, results)] with an array [results]. *)
Definition enterSimilarMode (anchor : option Place) (results : list Place)
    (a : App) : App :=
  {| app_state := set_similar true anchor results (app_state a);
     DATA := DATA a;
     SELECTED_ID := None |}.

(** [exitSimilarMode(reason)] *)
Definition exitSimilarMode (a : App) : App :=
  {| app_state := set_similar false None [] (app_state a);
     DATA := DATA a;
     SELECTED_ID := None |}.

Section Session.
Context `{Host}.

(** [DATA.find(p => String(p.id) === String(place_id))] *)
Definition find_place (place_id : jsval) (a : App) : option Place :=
  List.find (fun p => str_eqb (ToString (id p)) (ToString place_id)) (DATA a).

(** [selectPlaceById(id, source)], as far as the globals go. *)
Definition selectPlaceById (ident : jsval) (a : App) : App :=
  match find_place ident a with
  | None => a
  | Some _ =>
      {| app_state := app_state a; DATA := DATA a;
         SELECTED_ID := Some (ToString ident) |}
  end.

(** [Array.isArray(payload) ? payload
     : (payload?.results || payload?.items || [])] *)
Definition similar_items (payload : jsval) : jsval :=
  if isArray payload then payload
  else get payload "results" ||| get payload "items" ||| VArr [].

(** [window.findSimilar(place_id, source)] run to completion, as far as the
    globals go; [net k] is the outcome of the [k]-th call of [fetch].
    Whatever the [try] block throws (the error of [fetchWithRetry], the
    rejection of [resp.json()], the [TypeError] of calling [filter] on a
    value that is not an array) is caught and leads to
    [exitSimilarMode]. *)
Definition findSimilar (place_id : jsval) (net : nat -> fetched) (a : App) : App :=
  match find_place place_id a with
  | None => a
  | Some anchor =>
      match fst (fetchWithRetry net 3) with
      | Throw _ => exitSimilarMode a
      | Normal resp =>
          if negb (ok resp) then exitSimilarMode a
          else
            match json resp with
            | None => exitSimilarMode a
            | Some payload =>
                match similar_items payload with
                | VArr arr =>
                    enterSimilarMode (Some anchor)
                      (normalizeSimilarResults arr place_id) a
                | _ => exitSimilarMode a
                end
            end
      end
  end.

(** The list that [render] shows for the globals [a]. *)
Definition shown (mapped : list Insight) (a : App) : list Place :=
  render_list mapped (app_state a) (DATA a).

End Session.

(** The selection is empty or names a place of [DATA]. *)
Definition selection_in_data `{Host} (a : App) : Prop :=
  match SELECTED_ID a with
  | None => True
  | Some pid => exists p, In p (DATA a) /\ ToString (id p) = pid
  end.

(** The filters of the user: every field of [state] but the three of the
    similar-places session. *)
Definition same_filters (s t : state.t) : Prop :=
  state.q s = state.q t /\ state.district s = state.district t
  /\ state.insight s = state.insight t /\ state.categories s = state.categories t
  /\ state.sentiment s = state.sentiment t /\ state.price s = state.price t
  /\ state.tags s = state.tags t /\ state.heatmap s = state.heatmap t.

(** Sample globals: two places loaded and no selection, outside similar
    mode; and a network that answers with one similar place. *)
Definition sample_app : App :=
  {| app_state := set_similar false None [] scenario3_state;
     DATA := [similar_place "a" "downtown"; similar_place "b" "uptown"];
     SELECTED_ID := None |}.


Definition net_error_then_429 : nat -> fetched :=
  fun k => match k with
           | O => Rejected (VStr (u "offline"))
           | S _ => answer 429 None
           end.

(** ** Tables that the loader derives from [DATA] *)

(** The tags of a place that are strings. The loader builds [tags] with
    [tags.map(String)], so for a place of [DATA] these are all its tags. *)
Definition tag_strings (p : Place) : list jsstring :=
  omap (fun t => match t with VStr s => Some s | _ => None end) (tags p).

(** [freq.set(t, (freq.get(t) || 0) + 1)] on a [Map] kept as the list of
    its entries in insertion order. *)
Fixpoint bump (t : jsstring) (freq : list (jsstring * nat)) : list (jsstring * nat) :=
  match freq with
  | [] => [(t, 1%nat)]
  | (k, n) :: rest =>
      if str_eqb k t then (k, S n) :: rest else (k, n) :: bump t rest
  end.

(** The map [freq], and so [TAG_COUNTS], for the places of [DATA]. *)
Definition TAG_COUNTS (places : list Place) : list (jsstring * nat) :=
  fold_left
    (fun freq p =>
       fold_left
         (fun freq t => match t with [] => freq | _ => bump t freq end)
         (tag_strings p) freq)
    places [].

(** [TAG_COUNTS.get(t) || 0] *)
Fixpoint tag_count (freq : list (jsstring * nat)) (t : jsstring) : nat :=
  match freq with
  | [] => 0
  | (k, n) :: rest => if str_eqb k t then n else tag_count rest t
  end.

(** [(a, b) => b[1] - a[1]] *)
Definition by_count (a b : jsstring * nat) : jsnum :=
  js_sub (Fin (inject_Z (Z.of_nat (snd b)))) (Fin (inject_Z (Z.of_nat (snd a)))).

(** [TAGS]: the keys of the 200 most frequent entries. *)
Definition TAGS (places : list Place) : list jsstring :=
  map fst (firstn 200 (array_sort by_count (TAG_COUNTS places))).

(** The fallback labels of [districtLabelArFromSlug], with the code units
    that the file stores for them. *)
Definition fallback_label (s : jsstring) : jsstring :=
  if str_eqb s (u "Olaya")
  then [255; 223; 376; 209; 255; 960; 376; 209; 376; 228; 255; 223]%N
  else if str_eqb s (u "Malqa")
  then [255; 223; 376; 209; 376; 214; 376; 209; 376; 199; 255; 223]%N
  else if str_eqb s (u "Nakheel")
  then [255; 223; 376; 209; 376; 220; 255; 198; 376; 228; 376; 209]%N
  else if str_eqb s (u "Yasmin")
  then [255; 223; 376; 209; 376; 228; 255; 223; 255; 8805; 376; 214; 376; 228;
        376; 220]%N
  else if str_eqb s (u "Sulaymaniyah")
  then [255; 223; 376; 209; 255; 8805; 376; 209; 376; 228; 376; 214; 255; 223;
        376; 220; 376; 228; 255; 169]%N
  else if str_eqb s (u "Rabwah")
  then [255; 223; 376; 209; 255; 177; 255; 174; 376; 224; 255; 169]%N
  else if str_eqb s (u "Wurod")
  then [255; 223; 376; 209; 376; 224; 255; 177; 376; 224; 255; 216]%N
  else s.

Section Tables.
Context `{Host}.

(** The district key and the trimmed label that a place contributes. *)
Definition district_key (p : Place) : jsstring := ToString (district p ||| VStr []).

Definition district_label (p : Place) : jsstring :=
  trim (ToString (district_slug_ar p ||| VStr [])).

(** [DISTRICT_LABEL_AR_BY_SLUG] as the loader builds it from [DATA]. *)
Definition DISTRICT_LABEL_AR_BY_SLUG (places : list Place) : gmap jsstring jsstring :=
  fold_left
    (fun m p =>
       let sl := district_key p in
       let ar := district_label p in
       if truthy (VStr sl) && truthy (VStr ar) && negb (bool_decide (is_Some (m !! sl)))
       then <[sl := ar]> m
       else m)
    places ∅.

(** [districtLabelArFromSlug(slug)], given the label map. *)
Definition districtLabelArFromSlug (labels : gmap jsstring jsstring)
    (slug : jsval) : jsstring :=
  let s := ToString (slug ||| VStr []) in
  match labels !! s with
  | Some (c :: l) => c :: l
  | _ => fallback_label s
  end.

(** The label of the first place with district key [sl] that has one. *)
Definition first_label (places : list Place) (sl : jsstring) : option jsstring :=
  head (omap (fun p =>
                if str_eqb (district_key p) sl && truthy (VStr (district_label p))
                then Some (district_label p) else None)
          places).

End Tables.

(** All the tag strings of the places, in order. *)
Definition all_tags (places : list Place) : list jsstring :=
  concat (map tag_strings places).

Definition occurrences (t : jsstring) (l : list jsstring) : nat :=
  length (List.filter (fun s => str_eqb s t) l).

(** One step of the inner loop, and what the loops keep: distinct keys, no
    empty key and positive counts. *)
Definition count_step (freq : list (jsstring * nat)) (t : jsstring) :=
  match t with [] => freq | _ => bump t freq end.

Definition well_formed (freq : list (jsstring * nat)) : Prop :=
  List.NoDup (map fst freq)
  /\ Forall (fun e => fst e <> [] /\ 1 <= snd e) freq.

(** The entries of [freq] in the order of [TAGS]. *)
Definition ranked (places : list Place) : list (jsstring * nat) :=
  array_sort by_count (TAG_COUNTS places).

(** ** Escaping of text put into markup and selectors *)

(** The replacement of one code unit by [escHtml]: the five characters of
    the class [&<>Q'] (with [Q] the double quote) become entities, every
    other code unit stays. *)
Definition escape_char (c : N) : jsstring :=
  if (c =? 38)%N then u "&amp;"
  else if (c =? 60)%N then u "&lt;"
  else if (c =? 62)%N then u "&gt;"
  else if (c =? 34)%N then u "&quot;"
  else if (c =? 39)%N then u "&#39;"
  else [c].

Definition entities : list jsstring :=
  map u ["&amp;"; "&lt;"; "&gt;"; "&quot;"; "&#39;"].

Section Escaping.
Context `{Host}.

Definition escHtml (s : jsval) : jsstring :=
  flat_map escape_char (ToString (s ??? VStr [])).

Definition escapeHtml (s : jsval) : jsstring := escHtml s.

(** Every double quote gets a backslash in front; nothing else changes. *)
Definition cssEscape (v : jsval) : jsstring :=
  flat_map (fun c => if (c =? 34)%N then [92; 34]%N else [c]) (ToString v).

End Escaping.

(** The characters that [escHtml] replaces. *)
Definition special (c : N) : bool :=
  ((c =? 38) || (c =? 60) || (c =? 62) || (c =? 34) || (c =? 39))%N.

(** ** The shape of loaded places *)

Definition is_number (v : jsval) : Prop := exists n, v = VNum n.

Definition is_string (v : jsval) : Prop := exists s, v = VStr s.

(** ** The category menu *)

(** The click handler of the option [key] of [buildCatsTopMenu], as a
    function on the set [staging]; the result is also the new value of
    [state.categories]. *)
Definition click_category (key : jsstring) (staging : gset jsstring)
    : gset jsstring :=
  if str_eqb key (u "all") then {[ u "all" ]}
  else
    let without_all := staging ∖ {[ u "all" ]} in
    let toggled :=
      if bool_decide (key ∈ without_all) then without_all ∖ {[ key ]}
      else without_all ∪ {[ key ]} in
    if bool_decide (size toggled = 0) then toggled ∪ {[ u "all" ]} else toggled.

(** The handler of the clear button. *)
Definition clear_categories (staging : gset jsstring) : gset jsstring :=
  {[ u "all" ]}.

(** A selection is either [all] alone or a non-empty set of categories
    without [all]. *)
Definition selection_ok (s : gset jsstring) : Prop :=
  s <> ∅ /\ (u "all" ∈ s -> s = {[ u "all" ]}).

(** The state after a handler has stored the set. *)
Definition set_categories (s : gset jsstring) (st : state.t) : state.t :=
  {| state.similarMode := state.similarMode st;
     state.similarAnchor := state.similarAnchor st;
     state.similarResults := state.similarResults st;
     state.q := state.q st;
     state.district := state.district st;
     state.insight := state.insight st;
     state.categories := s;
     state.sentiment := state.sentiment st;
     state.price := state.price st;
     state.tags := state.tags st;
     state.heatmap := state.heatmap st |}.

(** ** The cached load of the places *)

(** [1000 * 60 * 60 * 24 * 7]: seven days. *)
Definition PLACES_CACHE_MAX_AGE_MS : Q := 1000 * 60 * 60 * 24 * 7.

(** [readPlacesCacheMeta()]. [parsed] is the stored item read as JSON:
    [None] when there is no item, when it is empty or when it is not
    JSON. *)
Definition readPlacesCacheMeta (parsed : option jsval) : jsval :=
  match parsed with
  | None => VNull
  | Some j => if negb (truthy j) || negb (typeof_object j) then VNull else j
  end.

(** Where the payload came from. *)
Inductive source := cache_fresh | cache_stale | network | network_nocache.

(** How a call of [fetchPlacesCached] ends: with a payload, with the
    error thrown by [fetchWithRetry], or with the rejection of [json()]. *)
Inductive places_result :=
| Loaded (payload : jsval) (src : source)
| Failed (e : thrown)
| BodyRejected.

(** The cache as the call finds it: no [caches] in [window];
    [caches.open] or [cache.match] rejects; no entry for the request; an
    entry, with the value of its [json()] ([None] when that rejects).
    [put_ok] tells whether a [cache.put] will succeed. *)
Inductive cache_lookup :=
| NoCacheAPI
| CacheFails
| CacheMiss (put_ok : bool)
| CacheHit (body : option jsval) (put_ok : bool).

(** What a call does. Of the call itself: its result, its calls of
    [fetch] and the sleeps it waited for, and the response it put into
    the cache (the meta data are written right after). Of the background
    refresh: whether the call started it, its calls of [fetch] and its
    sleeps (the first call is made before [fetchPlacesCached] reads the
    cached body, the later ones while or after it returns), and the
    response the refresh puts into the cache. *)
Record places_load := {
  load_result : places_result;
  load_trace : list event;
  load_stored : option Response;
  load_refresh : bool;
  refresh_trace : list event;
  refresh_stored : option Response
}.

(** The network as seen after the calls of [trace]. *)
Definition after (trace : list event) (net : nat -> fetched) : nat -> fetched :=
  fun k => net (length (fetches trace) + k)%nat.

(** The background refresh of an entry that is not fresh: its calls and
    sleeps, and what it puts into the cache. Whatever it throws is caught
    and logged. [bg k] is the outcome of its [k]-th call of [fetch]. *)
Definition background_refresh (bg : nat -> fetched) (put_ok : bool)
    : list event * option Response :=
  let (r, trace) := fetchWithRetry bg 3 in
  (trace,
   match r with
   | Normal resp => if ok resp && put_ok then Some resp else None
   | Throw _ => None
   end).

(** The refresh that a call starts when [start] holds. *)
Definition refresh_if (start : bool) (bg : nat -> fetched) (put_ok : bool)
    : list event * option Response :=
  if start then background_refresh bg put_ok else ([], None).

(** The last part of [fetchPlacesCached]: the direct fetch with retry;
    [before], [stored], [refresh] and [refreshed] are what the call did
    up to there. *)
Definition direct_fetch (net : nat -> fetched) (before : list event)
    (stored : option Response) (refresh : bool)
    (refreshed : list event * option Response) : places_load :=
  let (r, trace) := fetchWithRetry net 3 in
  {| load_result :=
       match r with
       | Throw e => Failed e
       | Normal resp =>
           match json resp with
           | Some payload => Loaded payload network_nocache
           | None => BodyRejected
           end
       end;
     load_trace := before ++ trace;
     load_stored := stored;
     load_refresh := refresh;
     refresh_trace := fst refreshed;
     refresh_stored := snd refreshed |}.

Section PlacesCache.
Context `{Host}.

(** [isFresh], for the clock value [now]. *)
Definition isFresh (meta : jsval) (requestUrl : jsstring) (now : Q) : bool :=
  truthy meta && strict_eq_str (get meta "url") requestUrl
    && truthy (get meta "ts")
    && js_lt (js_sub (Fin now) (Number (get meta "ts")))
         (Fin PLACES_CACHE_MAX_AGE_MS).

(** [fetchPlacesCached(requestUrl)]; [net k] is the outcome of the [k]-th
    call of [fetch] that the call itself makes, [bg k] the outcome of the
    [k]-th call of the background refresh. *)
Definition fetchPlacesCached (parsed : option jsval) (now : Q)
    (requestUrl : jsstring) (cache : cache_lookup)
    (net bg : nat -> fetched) : places_load :=
  let meta := readPlacesCacheMeta parsed in
  let fresh := isFresh meta requestUrl now in
  match cache with
  | CacheHit body put_ok =>
      let refreshed := refresh_if (negb fresh) bg put_ok in
      match body with
      | Some payload =>
          {| load_result :=
               Loaded payload (if fresh then cache_fresh else cache_stale);
             load_trace := [];
             load_stored := None;
             load_refresh := negb fresh;
             refresh_trace := fst refreshed;
             refresh_stored := snd refreshed |}
      | None => direct_fetch net [] None (negb fresh) refreshed
      end
  | CacheMiss put_ok =>
      let (r, trace) := fetchWithRetry net 3 in
      match r with
      | Throw _ => direct_fetch (after trace net) trace None false ([], None)
      | Normal resp =>
          if ok resp && negb put_ok
          then direct_fetch (after trace net) trace None false ([], None)
          else
            let stored := if ok resp then Some resp else None in
            match json resp with
            | Some payload =>
                {| load_result := Loaded payload network;
                   load_trace := trace;
                   load_stored := stored;
                   load_refresh := false;
                   refresh_trace := [];
                   refresh_stored := None |}
            | None =>
                direct_fetch (after trace net) trace stored false ([], None)
            end
      end
  | NoCacheAPI | CacheFails => direct_fetch net [] None false ([], None)
  end.

End PlacesCache.

(** The meta data that [writePlacesCacheMeta] stores with an entry. *)
Definition stored_meta (url : jsstring) (ts : Q) : jsval :=
  VObj [(u "url", VStr url); (u "ts", VNum (Fin ts))].

(** ** Markers *)

(** A marker that [setMarkers] puts on the map: the place whose popup
    and click handler it carries, its position, the rank shown in the
    pin, and the size and colour of the pin. *)
Record marker := mkMarker {
  m_place : Place;
  m_latlng : jsnum * jsnum;
  m_rank : nat;
  m_size : nat;
  m_color : string
}.

Section Markers.
Context `{Host}.

(** The loop of [setMarkers]; [bounds] is [bounds.length] on entry and
    [mobile] the value of [isMobile()]. *)
Fixpoint add_markers (mobile : bool) (bounds : nat) (places : list Place)
    : list marker :=
  match places with
  | [] => []
  | p :: rest =>
      let lat := Number (lat p) in
      let lng := Number (lng p) in
      if negb (isFinite lat) || negb (isFinite lng)
      then add_markers mobile bounds rest
      else
        let rank := bounds + 1 in
        {| m_place := p;
           m_latlng := (lat, lng);
           m_rank := rank;
           m_size := if mobile then 24 else 26;
           m_color := if rank <=? 3 then "#f59e0b" else "#3b82f6" |}
        :: add_markers mobile (bounds + 1) rest
  end.

(** [setMarkers(places)]: the markers added, and the new value of
    [DID_FIT_BOUNDS]. *)
Definition setMarkers (mobile DID_FIT_BOUNDS : bool) (places : list Place)
    : list marker * bool :=
  let markers := add_markers mobile 0 places in
  (markers, DID_FIT_BOUNDS || (2 <=? length markers)).

(** The place has coordinates that [setMarkers] and [updateHeatLayer]
    accept. *)
Definition has_coords (p : Place) : bool :=
  isFinite (Number (lat p)) && isFinite (Number (lng p)).

End Markers.

(** * Properties *)

(** ** Numbers *)

Lemma Qltb_lt (x y : Q) : Qltb x y = true <-> (x < y)%Q.
Proof.
  unfold Qltb. rewrite negb_true_iff. split; intros Hxy.
  - destruct (Qlt_le_dec x y) as [Hlt | Hle]; [exact Hlt |].
    apply Qle_bool_iff in Hle. congruence.
  - destruct (Qle_bool y x) eqn:E; [| reflexivity].
    apply Qle_bool_iff in E. lra.
Qed.

Lemma Qltb_ge (x y : Q) : Qltb x y = false <-> (y <= x)%Q.
Proof.
  unfold Qltb. rewrite negb_false_iff. apply Qle_bool_iff.
Qed.

Lemma js_lt_Fin (x y : Q) : js_lt (Fin x) (Fin y) = true <-> (x < y)%Q.
Proof. apply Qltb_lt. Qed.

Lemma js_gt_Fin (x y : Q) : js_gt (Fin x) (Fin y) = true <-> (y < x)%Q.
Proof. apply Qltb_lt. Qed.

Lemma js_le_Fin (x y : Q) : js_le (Fin x) (Fin y) = true <-> (x <= y)%Q.
Proof.
  unfold js_le. rewrite negb_true_iff. apply Qltb_ge.
Qed.

Lemma js_ge_Fin (x y : Q) : js_ge (Fin x) (Fin y) = true <-> (y <= x)%Q.
Proof. apply js_le_Fin. Qed.

Lemma num_truthy_Fin (x : Q) : num_truthy (Fin x) = false <-> (x == 0)%Q.
Proof.
  simpl. rewrite negb_false_iff. apply Qeq_bool_iff.
Qed.

Lemma isFinite_Fin (n : jsnum) : isFinite n = true -> exists q, n = Fin q.
Proof. destruct n; simpl; intros E; try discriminate. eauto. Qed.

(** ** The pattern matcher finds a match exactly when one exists *)

Lemma backtrack_is_Some k cap s lo n :
  is_Some (backtrack k cap s lo n)
  <-> exists j, (lo <= j <= n)%nat /\ is_Some (k (skipn j s)).
Proof.
  induction n as [| n IH]; simpl.
  - destruct (Nat.ltb_spec 0 lo) as [Hlt | Hge].
    + split; [intros [x Hx]; discriminate |].
      intros (j & Hj & _). lia.
    + destruct (k (skipn 0 s)) as [g |] eqn:E.
      * split; [| eauto]. intros _. exists 0%nat. rewrite E. split; [lia | eauto].
      * split; [intros [x Hx]; discriminate |].
        intros (j & Hj & Hs). assert (j = 0)%nat as -> by lia.
        rewrite E in Hs. destruct Hs; discriminate.
  - destruct (Nat.ltb_spec (S n) lo) as [Hlt | Hge].
    + split; [intros [x Hx]; discriminate |].
      intros (j & Hj & _). lia.
    + destruct (k (skipn (S n) s)) as [g |] eqn:E.
      * split; [| eauto]. intros _. exists (S n). rewrite E. split; [lia | eauto].
      * rewrite IH. split.
        -- intros (j & Hj & Hs). exists j. split; [lia | exact Hs].
        -- intros (j & Hj & Hs). exists j. split; [| exact Hs].
           destruct (Nat.eq_dec j (S n)) as [-> | Hne]; [| lia].
           rewrite E in Hs. destruct Hs; discriminate.
Qed.

Lemma span_le_length f s : (span f s <= length s)%nat.
Proof.
  induction s as [| c s IH]; simpl; [lia |].
  destruct (f c); simpl; lia.
Qed.

Lemma span_firstn f s j :
  (j <= span f s)%nat -> forallb f (firstn j s) = true.
Proof.
  revert j. induction s as [| c s IH]; intros [| j] Hj; simpl in *; try reflexivity.
  destruct (f c) eqn:E; [| lia]. simpl. apply IH. lia.
Qed.

Lemma span_prefix f w rest :
  forallb f w = true -> (length w <= span f (w ++ rest))%nat.
Proof.
  induction w as [| c w IH]; simpl; intros Hw; [lia |].
  apply andb_true_iff in Hw as [Hc Hw]. rewrite Hc.
  specialize (IH Hw). lia.
Qed.

Lemma qmax_le q avail : (qmax q avail <= avail)%nat.
Proof. destruct q; unfold qmax; lia. Qed.

Lemma count_ok_bounds q j avail :
  (j <= avail)%nat ->
  count_ok q j <-> (qmin q <= j <= qmax q avail)%nat.
Proof.
  intros Hj. destruct q; unfold count_ok, qmin, qmax; split; intros Hq;
    try exact I; lia.
Qed.

Lemma match_here_is_Some re s :
  is_Some (match_here re s)
  <-> exists w rest, s = w ++ rest /\ in_lang re w.
Proof.
  revert s. induction re as [| it re IH]; intros s; simpl.
  - split; [| eauto]. intros _. exists [], s. split; reflexivity.
  - rewrite backtrack_is_Some. split.
    + intros (j & Hj & Hs). apply IH in Hs as (w' & rest' & Hsk & Hw').
      assert (j <= span (class_matches (icls it)) s)%nat as Hspan.
      { pose proof (qmax_le (iquant it) (span (class_matches (icls it)) s)). lia. }
      pose proof (span_le_length (class_matches (icls it)) s) as Hlen.
      exists (firstn j s ++ w'), rest'. split.
      * rewrite <- app_assoc, <- Hsk. symmetry. apply firstn_skipn.
      * exists (firstn j s), w'. split; [reflexivity |].
        split; [apply span_firstn; exact Hspan |].
        rewrite length_firstn, Nat.min_l by lia.
        split; [| exact Hw'].
        apply (count_ok_bounds _ _ (span (class_matches (icls it)) s)); assumption.
    + intros (w0 & rest & -> & w & rest0 & -> & Hcls & Hcnt & Hin).
      pose proof (span_prefix _ w (rest0 ++ rest) Hcls) as Hspan.
      rewrite <- app_assoc.
      exists (length w). split.
      * apply count_ok_bounds; assumption.
      * rewrite skipn_app, skipn_all, Nat.sub_diag. simpl.
        apply IH. eauto.
Qed.

Lemma search_is_Some re s : is_Some (search re s) <-> contains re s.
Proof.
  induction s as [| c s IH]; simpl.
  - destruct (match_here re []) as [g |] eqn:E.
    + split; [| eauto]. intros _.
      assert (is_Some (match_here re [])) as Hs by (rewrite E; eauto).
      apply match_here_is_Some in Hs as (w & rest & Heq & Hw).
      exists [], w, rest. split; [exact Heq | exact Hw].
    + split; [intros [x Hx]; discriminate |].
      intros (pre & w & post & Heq & Hw).
      destruct pre; [| discriminate]. simpl in Heq.
      assert (is_Some (match_here re [])) as Hs.
      { apply match_here_is_Some. eauto. }
      rewrite E in Hs. destruct Hs; discriminate.
  - destruct (match_here re (c :: s)) as [g |] eqn:E.
    + split; [| eauto]. intros _.
      assert (is_Some (match_here re (c :: s))) as Hs by (rewrite E; eauto).
      apply match_here_is_Some in Hs as (w & rest & Heq & Hw).
      exists [], w, rest. split; [exact Heq | exact Hw].
    + rewrite IH. split.
      * intros (pre & w & post & -> & Hw). exists (c :: pre), w, post.
        split; [reflexivity | exact Hw].
      * intros (pre & w & post & Heq & Hw). destruct pre as [| c' pre].
        -- simpl in Heq.
           assert (is_Some (match_here re (c :: s))) as Hs.
           { apply match_here_is_Some. eauto. }
           rewrite E in Hs. destruct Hs; discriminate.
        -- injection Heq as -> ->. exists pre, w, post. split; [reflexivity | exact Hw].
Qed.

Lemma search_None re s : search re s = None <-> ~ contains re s.
Proof.
  rewrite <- search_is_Some. destruct (search re s); split; intros Hs.
  - discriminate.
  - exfalso. apply Hs. eauto.
  - intros [x Hx]. discriminate.
  - reflexivity.
Qed.

(** A text that holds a match of a pattern holds one of each of its
    prefixes. *)
Lemma in_lang_app re1 re2 s :
  in_lang (re1 ++ re2) s -> exists w rest, s = w ++ rest /\ in_lang re1 w.
Proof.
  revert s. induction re1 as [| it re1 IH]; intros s; simpl.
  - intros _. exists [], s. split; reflexivity.
  - intros (w & rest & -> & Hcls & Hcnt & Hin).
    apply IH in Hin as (w1 & rest1 & -> & Hw1).
    exists (w ++ w1), rest1. split; [apply app_assoc |].
    exists w, w1. repeat split; assumption.
Qed.

Lemma contains_prefix re1 re2 s : contains (re1 ++ re2) s -> contains re1 s.
Proof.
  intros (pre & w & post & -> & Hw).
  apply in_lang_app in Hw as (w1 & rest & -> & Hw1).
  exists pre, w1, (rest ++ post). split; [| exact Hw1].
  now rewrite <- app_assoc.
Qed.

(** ** The rule compiler *)

Section Compiler.
Context `{Host}.

Lemma rule_text_early re codeStr :
  search re [] = None -> search re (u "return true;") = None ->
  contains re (rule_text codeStr) ->
  negb (truthy (VStr (rule_text codeStr)))
    || str_eqb (rule_text codeStr) (u "return true;") = false.
Proof.
  intros Hnil Hret Hc. apply search_is_Some in Hc.
  destruct (rule_text codeStr) as [| c code] eqn:E.
  - rewrite Hnil in Hc. destruct Hc; discriminate.
  - unfold str_eqb. case_bool_decide as Heq; [| reflexivity].
    rewrite Heq, Hret in Hc. destruct Hc; discriminate.
Qed.

Lemma compilePredicate_discover codeStr :
  contains discover_re (rule_text codeStr) ->
  exists m, search discover_re (rule_text codeStr) = Some m
    /\ compilePredicate codeStr
       = discover_pred (parseFloat (group 1 m)) (parseInt (group 2 m))
           (parseInt (group 3 m)) (group 4 m).
Proof.
  intros Hc. pose proof (rule_text_early discover_re codeStr eq_refl eq_refl Hc) as He.
  apply search_is_Some in Hc as [m Hm]. exists m. split; [exact Hm |].
  unfold compilePredicate. fold (rule_text codeStr). rewrite He, Hm. reflexivity.
Qed.

Lemma compilePredicate_mustGo codeStr :
  ~ contains discover_re (rule_text codeStr) ->
  contains mustGo_re (rule_text codeStr) ->
  exists m, search mustGo_re (rule_text codeStr) = Some m
    /\ compilePredicate codeStr
       = mustGo_pred (parseFloat (group 1 m)) (parseInt (group 2 m)) (group 3 m).
Proof.
  intros Hd Hc. pose proof (rule_text_early mustGo_re codeStr eq_refl eq_refl Hc) as He.
  apply search_None in Hd.
  apply search_is_Some in Hc as [m Hm]. exists m. split; [exact Hm |].
  unfold compilePredicate. fold (rule_text codeStr). rewrite He, Hd, Hm. reflexivity.
Qed.

Lemma compilePredicate_closed codeStr : closed_form (compilePredicate codeStr).
Proof.
  unfold compilePredicate.
  destruct (_ || _); [constructor |].
  destruct (search discover_re _); [constructor |].
  destruct (search mustGo_re _); [constructor |].
  destruct (search topRated_re _); [constructor |].
  destruct (search raqi_re _); constructor.
Qed.

(** C2. A rule text in which none of the four patterns finds a match
    compiles to the predicate that accepts every place. Whatever the
    input, [compilePredicate] returns one of its five closed forms: it has
    no failing outcome. *)
Theorem compilePredicate_fail_open :
  (forall codeStr,
     ~ contains discover_re (rule_text codeStr) ->
     ~ contains mustGo_re (rule_text codeStr) ->
     ~ contains topRated_re (rule_text codeStr) ->
     ~ contains raqi_re (rule_text codeStr) ->
     forall p, compilePredicate codeStr p = true)
  /\ (forall codeStr, closed_form (compilePredicate codeStr)).
Proof.
  split; [| apply compilePredicate_closed].
  intros codeStr H1 H2 H3 H4 p.
  apply search_None in H1, H2, H3, H4.
  unfold compilePredicate. fold (rule_text codeStr).
  rewrite H1, H2, H3, H4. destruct (_ || _); reflexivity.
Qed.

Lemma existsb_str_eqb (f : jsstring) (l : list jsstring) :
  existsb (str_eqb f) l = true <-> In f l.
Proof.
  rewrite existsb_exists. unfold str_eqb. split.
  - intros (x & Hx & Heq). apply bool_decide_eq_true in Heq. now subst.
  - intros Hin. exists f. split; [exact Hin |]. now apply bool_decide_eq_true.
Qed.

(** C3. A heat rule text in which the field-read pattern finds no match,
    or finds one whose field is outside the whitelist, compiles to the
    weight function that is 0 on every place; so does the text
    [return p.randomField]. *)
Theorem compileHeat_fail_closed :
  (forall codeStr,
     (~ contains field_re (rule_text codeStr)
      \/ exists m, search field_re (rule_text codeStr) = Some m
                   /\ ~ In (group 1 m) allowedFields) ->
     forall p, compileHeat codeStr p = Fin 0)
  /\ (forall p, compileHeat (VStr (u "return p.randomField")) p = Fin 0).
Proof.
  split.
  - intros codeStr Hshape p. unfold compileHeat. fold (rule_text codeStr).
    destruct (negb (truthy (VStr (rule_text codeStr)))); [reflexivity |].
    destruct Hshape as [Hno | (m & Hm & Hout)].
    + apply search_None in Hno. rewrite Hno. reflexivity.
    + rewrite Hm. cbv zeta.
      destruct (existsb (str_eqb (group 1 m)) allowedFields) eqn:E; [| reflexivity].
      apply existsb_str_eqb in E. contradiction.
  - intros p. reflexivity.
Qed.

(** C8, as the code has it. When the range-capped pattern (rating bound,
    lower and upper review-count bound, sentiment exclusion) finds a match
    in a rule text, the threshold pattern finds one too, and yet
    [compilePredicate] returns the range-capped predicate built from the
    captured bounds. The rule of Scenario 2 accepts a place with rating
    4.3, 100 reviews and another sentiment, and rejects it with 500
    reviews. *)
Theorem compilePredicate_range_capped_first :
  (forall codeStr,
     contains discover_re (rule_text codeStr) ->
     contains topRated_re (rule_text codeStr)
     /\ exists m, search discover_re (rule_text codeStr) = Some m
          /\ compilePredicate codeStr
             = discover_pred (parseFloat (group 1 m)) (parseInt (group 2 m))
                 (parseInt (group 3 m)) (group 4 m))
  /\ (let rule := VStr (u "return r >= 4.1 && v >= 30 && v <= 180 && s !== 'negative';") in
      compilePredicate rule (place_of 4.3 100 "positive") = true
      /\ compilePredicate rule (place_of 4.3 500 "positive") = false).
Proof.
  split.
  - intros codeStr Hc. split; [| apply compilePredicate_discover; exact Hc].
    apply (contains_prefix topRated_re
             (concat [ws; lits "&&"; ws; lits "v"; ws; lits "<="; ws; cap_digits;
                      ws; lits "&&"; ws; lits "s"; ws; lits "!=="; ws; quote;
                      cap_unquoted; quote])).
    exact Hc.
  - split; reflexivity.
Qed.

(** C10. The predicate compiled from the trust-threshold shape reads a
    missing or null [bayes2_score] as 0.50: its trust condition is then
    [0.50 >= B], which holds for every threshold [B <= 0.5]. The other
    shapes read a missing rating as 0. *)
Theorem mustGo_missing_score_is_half (codeStr : jsval) :
  ~ contains discover_re (rule_text codeStr) ->
  contains mustGo_re (rule_text codeStr) ->
  exists m, search mustGo_re (rule_text codeStr) = Some m
    /\ (forall p, nullish (bayes2_score p) = true ->
          compilePredicate codeStr p
          = js_ge (Fin 0.50) (parseFloat (group 1 m))
            && js_ge (Number (rating_count p ??? VNum (Fin 0))) (parseInt (group 2 m))
            && negb (strict_eq_str (sentiment_label_ar p ||| VStr []) (group 3 m)))
    /\ (forall b, parseFloat (group 1 m) = Fin b -> (b <= 0.5)%Q ->
          js_ge (Fin 0.50) (parseFloat (group 1 m)) = true)
    /\ (forall R V1 V2 S p, nullish (rating p) = true ->
          discover_pred R V1 V2 S p
          = js_ge (Fin 0) R
            && js_ge (Number (rating_count p ??? VNum (Fin 0))) V1
            && js_le (Number (rating_count p ??? VNum (Fin 0))) V2
            && negb (strict_eq_str (sentiment_label_ar p ||| VStr []) S))
    /\ (forall R V p, nullish (rating p) = true ->
          topRated_pred R V p
          = js_ge (Fin 0) R && js_ge (Number (rating_count p ??? VNum (Fin 0))) V).
Proof.
  intros Hd Hc. destruct (compilePredicate_mustGo codeStr Hd Hc) as (m & Hm & Heq).
  exists m. split; [exact Hm |]. repeat split.
  - intros p Hp. rewrite Heq. unfold mustGo_pred, js_coalesce at 1. rewrite Hp.
    reflexivity.
  - intros b Hb Hle. rewrite Hb. apply js_ge_Fin. lra.
  - intros R V1 V2 S p Hp. unfold discover_pred, js_coalesce at 1. rewrite Hp.
    reflexivity.
  - intros R V p Hp. unfold topRated_pred, js_coalesce at 1. rewrite Hp.
    reflexivity.
Qed.

End Compiler.

(** *** The compiler on concrete rule texts *)

Lemma compilePredicate_fail_open_witness :
  ~ contains topRated_re (@rule_text sample_host (VStr (u "return p.rating >= 4.5;")))
  /\ @compilePredicate sample_host (VStr (u "return p.rating >= 4.5;"))
       (place_of 1 0 "negative") = true.
Proof.
  split; [apply search_None; vm_compute; reflexivity |].
  apply (proj1 (@compilePredicate_fail_open sample_host)
           (VStr (u "return p.rating >= 4.5;")));
    apply search_None; vm_compute; reflexivity.
Defined.

Lemma compileHeat_fail_closed_witness :
  (exists m, search field_re (@rule_text sample_host (VStr (u "return (p.secret ?? 1);"))) = Some m
             /\ ~ In (group 1 m) allowedFields)
  /\ @compileHeat sample_host (VStr (u "return (p.secret ?? 1);"))
       (place_of 4.5 120 "positive") = Fin 0.
Proof.
  assert (exists m, search field_re (@rule_text sample_host (VStr (u "return (p.secret ?? 1);"))) = Some m
                    /\ ~ In (group 1 m) allowedFields) as Hout.
  { eexists. split; [vm_compute; reflexivity |].
    intros Hin. apply existsb_str_eqb in Hin. vm_compute in Hin. discriminate. }
  split; [exact Hout |].
  apply (proj1 (@compileHeat_fail_closed sample_host)). right. exact Hout.
Defined.

Lemma compilePredicate_range_capped_first_witness :
  contains discover_re
    (@rule_text sample_host
       (VStr (u "return r >= 4.1 && v >= 30 && v <= 180 && s !== 'negative';")))
  /\ contains topRated_re
       (@rule_text sample_host
          (VStr (u "return r >= 4.1 && v >= 30 && v <= 180 && s !== 'negative';"))).
Proof.
  assert (contains discover_re
            (@rule_text sample_host
               (VStr (u "return r >= 4.1 && v >= 30 && v <= 180 && s !== 'negative';"))))
    as Hc.
  { apply search_is_Some. vm_compute. eexists. reflexivity. }
  split; [exact Hc |].
  apply (proj1 (@compilePredicate_range_capped_first sample_host) _ Hc).
Defined.

(** C8, as stated, fails: this rule text carries a lower and an upper bound
    on the review count, but no sentiment clause; it compiles to the
    threshold predicate, which accepts a place with 500 reviews. *)
Lemma bounds_without_sentiment_compile_to_threshold :
  let rule := VStr (u "return r >= 4.1 && v >= 30 && v <= 180;") in
  contains lower_bound_re (@rule_text sample_host rule)
  /\ contains upper_bound_re (@rule_text sample_host rule)
  /\ @compilePredicate sample_host rule = @topRated_pred sample_host (Fin 4.1) (Fin 30)
  /\ @compilePredicate sample_host rule (place_of 4.3 500 "positive") = true.
Proof.
  cbv zeta. split; [| split; [| split]].
  - apply search_is_Some. vm_compute. eexists. reflexivity.
  - apply search_is_Some. vm_compute. eexists. reflexivity.
  - reflexivity.
  - reflexivity.
Qed.

Lemma mustGo_missing_score_is_half_witness :
  exists m,
    search mustGo_re
      (@rule_text sample_host (VStr (u "return b2 >= 0.84 && v >= 350 && s !== 'negative';")))
    = Some m.
Proof.
  destruct (@mustGo_missing_score_is_half sample_host
              (VStr (u "return b2 >= 0.84 && v >= 350 && s !== 'negative';")))
    as (m & Hm & _).
  - apply search_None. vm_compute. reflexivity.
  - apply search_is_Some. vm_compute. eexists. reflexivity.
  - exists m. exact Hm.
Defined.

(** ** Validation of the places response *)

Section Loading.
Context `{Host}.

Lemma truthy_js_or (a b : jsval) : truthy (a ||| b) = truthy a || truthy b.
Proof. unfold js_or. destruct (truthy a) eqn:E; [rewrite E |]; reflexivity. Qed.

Lemma place_valid_iff (r : jsval) :
  place_valid r = true
  <-> truthy r = true /\ typeof_object r = true /\ has_identity r
      /\ coords_in_range r.
Proof.
  unfold place_valid, validatePlaceData, has_identity, coords_in_range.
  destruct (truthy r) eqn:Et; simpl; [| intuition discriminate].
  destruct (typeof_object r) eqn:Eo; simpl; [| intuition discriminate].
  destruct (truthy (get r "place_id")) eqn:E1; simpl.
  2: destruct (truthy (get r "id")) eqn:E2; simpl.
  3: destruct (truthy (get r "gid")) eqn:E3; simpl.
  4: { split; [discriminate |]. intros (_ & _ & [Hi | [Hi | Hi]] & _); discriminate. }
  all: destruct (Number (get r "lat" ??? get r "latitude")) as [| | | la] eqn:Ela; simpl;
    try (split; [discriminate | intros (_ & _ & _ & la' & lo' & Hla & _); discriminate]).
  all: destruct (Number (get r "lng" ??? get r "longitude")) as [| | | lo] eqn:Elo; simpl;
    try (split; [discriminate | intros (_ & _ & _ & la' & lo' & _ & Hlo & _); discriminate]).
  all: unfold js_gt; simpl;
    destruct (Qltb la (-90)) eqn:L1; simpl;
    [ apply Qltb_lt in L1
    | apply Qltb_ge in L1; destruct (Qltb 90 la) eqn:L2; simpl;
      [ apply Qltb_lt in L2
      | apply Qltb_ge in L2; destruct (Qltb lo (-180)) eqn:L3; simpl;
        [ apply Qltb_lt in L3
        | apply Qltb_ge in L3; destruct (Qltb 180 lo) eqn:L4; simpl;
          [ apply Qltb_lt in L4 | apply Qltb_ge in L4 ] ] ] ].
  all: split;
    [ try discriminate; intros _; repeat split; auto; exists la, lo; repeat split; auto
    | try reflexivity;
      intros (_ & _ & _ & la' & lo' & Hla & Hlo & Hr1 & Hr2);
      injection Hla as <-; injection Hlo as <-; lra ].
Qed.

Lemma In_imap {A B} (f : nat -> A -> B) (l : list A) (y : B) :
  In y (imap f l) -> exists i x, y = f i x /\ In x l.
Proof.
  intros Hin. apply list_elem_of_In, elem_of_lookup_imap in Hin as (i & x & -> & Hl).
  exists i, x. split; [reflexivity |].
  apply list_elem_of_In. eapply list_elem_of_lookup_2. exact Hl.
Qed.

Lemma validateAPIResponse_results payload results filtered :
  validateAPIResponse payload = ApiOk results filtered ->
  exists raw, get payload "results" = VArr raw
    /\ results = List.filter place_valid raw.
Proof.
  unfold validateAPIResponse.
  destruct (negb (truthy payload) || negb (typeof_object payload)); [discriminate |].
  destruct (get payload "results") as [| | | | | raw |]; try discriminate.
  destruct raw as [| r raw].
  - intros [= <- _]. exists []. split; reflexivity.
  - intros [= <- _]. exists (r :: raw). split; reflexivity.
Qed.

Lemma mapPlace_valid rnd r :
  place_valid r = true ->
  truthy (id (mapPlace rnd r)) = true /\ place_in_range (mapPlace rnd r).
Proof.
  intros Hv. apply place_valid_iff in Hv as (_ & _ & Hid & la & lo & Hla & Hlo & Hr1 & Hr2).
  split.
  - cbn [mapPlace id]. rewrite !truthy_js_or.
    destruct Hid as [-> | [-> | ->]]; rewrite ?orb_true_r; reflexivity.
  - exists la, lo. cbn [mapPlace lat lng]. rewrite Hla, Hlo. repeat split; tauto.
Qed.

(** C1. After a places load every record of [DATA] has a truthy (for a
    string: non-empty) [id] and finite coordinates with
    [-90 <= lat <= 90] and [-180 <= lng <= 180]. [DATA] is built from
    exactly the rows of the response that pass the validator, and a row
    passes it if and only if it is an object with an identity property and
    finite, in-range coordinates; so a row with non-finite or out-of-range
    coordinates, or without any identity property, is dropped. The row with
    lat 90.0 and lng 180.0 passes and the row with lat 90.0001 does not. *)
Theorem loaded_places_are_valid (rnd : nat -> jsstring) (payload : jsval) :
  (forall p, In p (loadRealPlacesAndBootstrapUI rnd payload) ->
     truthy (id p) = true /\ id p <> VStr [] /\ place_in_range p)
  /\ (forall raw, truthy payload = true -> typeof_object payload = true ->
        get payload "results" = VArr raw ->
        loadRealPlacesAndBootstrapUI rnd payload
        = imap (fun i r => mapPlace (rnd i) r) (List.filter place_valid raw))
  /\ (forall r, place_valid r = true
        <-> truthy r = true /\ typeof_object r = true /\ has_identity r
            /\ coords_in_range r)
  /\ place_valid (raw_row "a" 90.0 180.0) = true
  /\ place_valid (raw_row "a" 90.0001 180.0) = false.
Proof.
  split; [| split; [| split; [| split]]].
  - intros p Hin. unfold loadRealPlacesAndBootstrapUI in Hin.
    destruct (validateAPIResponse payload) as [e | results filtered] eqn:Ev;
      [contradiction |].
    apply validateAPIResponse_results in Ev as (raw & _ & ->).
    apply In_imap in Hin as (i & r & -> & Hr).
    apply filter_In in Hr as [_ Hv].
    destruct (mapPlace_valid (rnd i) r Hv) as [Hid Hrange].
    split; [exact Hid |]. split; [| exact Hrange].
    intros Heq. rewrite Heq in Hid. discriminate.
  - intros raw Ht Ho Hres. unfold loadRealPlacesAndBootstrapUI, validateAPIResponse.
    rewrite Ht, Ho, Hres. simpl. destruct raw; reflexivity.
  - apply place_valid_iff.
  - reflexivity.
  - reflexivity.
Qed.

End Loading.

Lemma loaded_places_are_valid_witness :
  let payload :=
    VObj [(u "results",
           VArr [raw_row "a" 24.7 46.6; raw_row "b" 95 46.6; raw_row "" 24.7 46.6;
                 VObj [(u "gid", VNum (Fin 7)); (u "latitude", VNum (Fin (-90)));
                       (u "longitude", VNum (Fin (-180)))]])] in
  map id (@loadRealPlacesAndBootstrapUI sample_host (fun _ => u "0.5") payload)
  = [VStr (u "a"); VNum (Fin 7)]
  /\ Forall place_in_range
       (@loadRealPlacesAndBootstrapUI sample_host (fun _ => u "0.5") payload).
Proof.
  cbv zeta. split; [reflexivity |].
  apply Forall_forall. intros p Hin. apply list_elem_of_In in Hin.
  eapply (proj1 (@loaded_places_are_valid sample_host _ _)) in Hin.
  apply Hin.
Defined.

(** ** Similar results *)

Section Similar.
Context `{Host}.

(** C9, as the code has it. Every entry of the normalized similarity
    result comes from an item of the response whose [place_id || id] is
    truthy; its [id] is the text of that value and differs from the text of
    the anchor's identifier; its coordinates are [Number(x.lat)] and
    [Number(x.lng)] and are finite. No range is checked. *)
Theorem normalizeSimilarResults_entries (arr : list jsval) (anchorId : jsval)
    (p : Place) :
  In p (normalizeSimilarResults arr anchorId) ->
  exists x,
    In x arr
    /\ truthy (get x "place_id" ||| get x "id") = true
    /\ id p = VStr (ToString (get x "place_id" ||| get x "id"))
    /\ ToString (get x "place_id" ||| get x "id") <> ToString anchorId
    /\ exists la lo,
         Number (get x "lat") = Fin la /\ Number (get x "lng") = Fin lo
         /\ lat p = VNum (Fin la) /\ lng p = VNum (Fin lo).
Proof.
  unfold normalizeSimilarResults. intros Hin.
  apply filter_In in Hin as [Hin Hfin].
  apply in_map_iff in Hin as (x & <- & Hx).
  apply filter_In in Hx as [Hx Hkeep].
  apply andb_true_iff in Hkeep as [Hkeep Hne].
  apply andb_true_iff in Hkeep as [_ Hid].
  exists x. split; [exact Hx |]. split; [exact Hid |]. split; [reflexivity |].
  split.
  - intros Heq. unfold str_eqb in Hne. rewrite Heq in Hne.
    rewrite bool_decide_eq_true_2 in Hne by reflexivity. discriminate.
  - cbn [lat lng Number] in Hfin. apply andb_true_iff in Hfin as [Hla Hlo].
    apply isFinite_Fin in Hla as [la Hla]. apply isFinite_Fin in Hlo as [lo Hlo].
    exists la, lo. cbn [lat lng]. rewrite Hla, Hlo. repeat split; reflexivity.
Qed.

End Similar.

Lemma normalizeSimilarResults_entries_witness :
  In (hd (scored_place 0 0)
        (@normalizeSimilarResults sample_host
           [raw_row "a" 24.7 46.6; raw_row "b" 24.8 46.7] (VStr (u "a"))))
     (@normalizeSimilarResults sample_host
        [raw_row "a" 24.7 46.6; raw_row "b" 24.8 46.7] (VStr (u "a")))
  /\ exists x,
       In x [raw_row "a" 24.7 46.6; raw_row "b" 24.8 46.7]
       /\ id (hd (scored_place 0 0)
                (@normalizeSimilarResults sample_host
                   [raw_row "a" 24.7 46.6; raw_row "b" 24.8 46.7] (VStr (u "a"))))
          = VStr (@ToString sample_host (get x "place_id" ||| get x "id")).
Proof.
  assert (In (hd (scored_place 0 0)
                (@normalizeSimilarResults sample_host
                   [raw_row "a" 24.7 46.6; raw_row "b" 24.8 46.7] (VStr (u "a"))))
             (@normalizeSimilarResults sample_host
                [raw_row "a" 24.7 46.6; raw_row "b" 24.8 46.7] (VStr (u "a")))) as Hin.
  { left. reflexivity. }
  split; [exact Hin |].
  destruct (@normalizeSimilarResults_entries sample_host _ _ _ Hin)
    as (x & Hx & _ & Hid & _).
  exists x. split; [exact Hx | exact Hid].
Defined.

(** C9, as stated, fails: an item with latitude 200 is kept by
    [normalizeSimilarResults], while the places validator rejects the same
    row as out of range. *)
Lemma similar_result_out_of_range_is_kept :
  map lat (@normalizeSimilarResults sample_host [raw_row "b" 200 46.6] (VStr (u "a")))
  = [VNum (Fin 200)]
  /\ @validatePlaceData sample_host (raw_row "b" 200 46.6)
     = PlaceBad "coordinates_out_of_range"
  /\ ~ (-90 <= 200 <= 90)%Q.
Proof.
  split; [reflexivity |]. split; [reflexivity |]. lra.
Qed.

(** ** Heat weights *)




Section Heat.
Context `{Host}.











End Heat.



(** ** The comparator *)

Lemma num_truthy_cases (x : Q) :
  ((x == 0)%Q /\ num_truthy (Fin x) = false)
  \/ ((x < 0 \/ 0 < x)%Q /\ num_truthy (Fin x) = true).
Proof.
  simpl. destruct (Qeq_bool x 0) eqn:E.
  - left. split; [now apply Qeq_bool_iff | reflexivity].
  - right. split; [| reflexivity]. apply Qeq_bool_neq in E.
    destruct (Q_dec x 0) as [[Hlt | Hgt] | Heq]; [left | right | contradiction];
      assumption.
Qed.

Lemma js_sub_Fin (x y : Q) : js_sub (Fin x) (Fin y) = Fin (x + - y).
Proof. reflexivity. Qed.

Lemma Qeq_bool_cases (x : Q) :
  ((x == 0)%Q /\ Qeq_bool x 0 = true)
  \/ ((x < 0 \/ 0 < x)%Q /\ Qeq_bool x 0 = false).
Proof.
  destruct (Qeq_bool x 0) eqn:E.
  - left. split; [now apply Qeq_bool_iff | reflexivity].
  - right. split; [| reflexivity]. apply Qeq_bool_neq in E.
    destruct (Q_dec x 0) as [[Hlt | Hgt] | Heq]; [left | right | contradiction];
      assumption.
Qed.

Ltac qcase x :=
  let E := fresh "E" in
  let B := fresh "B" in
  destruct (Qeq_bool_cases x) as [[E B] | [[E | E] B]];
  rewrite ?B in *; cbv iota in *.

Lemma first_nonzero_trans (x1 y1 z1 x2 y2 z2 x y z : Q) :
  (first_nonzero x1 y1 z1 <= 0 -> first_nonzero x2 y2 z2 <= 0 ->
   x == x1 + x2 -> y == y1 + y2 -> z == z1 + z2 ->
   first_nonzero x y z <= 0)%Q.
Proof.
  unfold first_nonzero. intros H1 H2 Hx Hy Hz.
  qcase x1; qcase x2; qcase x; try lra;
  qcase y1; qcase y2; qcase y; lra.
Qed.

Lemma first_nonzero_ties (x1 y1 z1 x2 y2 z2 x y z : Q) :
  (first_nonzero x1 y1 z1 == 0 -> first_nonzero x2 y2 z2 == 0 ->
   x == x2 - x1 -> y == y2 - y1 -> z == z2 - z1 ->
   first_nonzero x y z == 0)%Q.
Proof.
  unfold first_nonzero. intros H1 H2 Hx Hy Hz.
  qcase x1; qcase x2; qcase x; try lra;
  qcase y1; qcase y2; qcase y; lra.
Qed.

Section Comparator.
Context `{Host}.

Lemma num_Fin (v : jsval) : num v = Fin (numQ v).
Proof.
  unfold numQ. destruct (num v) as [| | | q] eqn:E; try reflexivity;
    unfold num in E; destruct (Number (v ??? VNum (Fin 0))); simpl in E; discriminate.
Qed.

Lemma num_coerces (v : jsval) :
  (nullish v = true -> num v = Fin 0)
  /\ (isFinite (Number v) = false -> num v = Fin 0)
  /\ (nullish v = false -> isFinite (Number v) = true -> num v = Number v).
Proof.
  unfold num, js_coalesce. destruct (nullish v) eqn:En.
  - split; [reflexivity |]. split; [reflexivity | discriminate].
  - split; [discriminate |]. split.
    + intros Hf. rewrite Hf. reflexivity.
    + intros _ Hf. rewrite Hf. reflexivity.
Qed.

Lemma sortBySpec_mustgo (a b : Place) :
  sortBySpec a b (u "special:mustgo")
  = let d1 := js_sub (num (bayes2_score b)) (num (bayes2_score a)) in
    if num_truthy d1 then d1
    else
      let d2 := js_sub (num (rating_count b)) (num (rating_count a)) in
      if num_truthy d2 then d2
      else js_sub (num (rating b)) (num (rating a)).
Proof. reflexivity. Qed.

Lemma sortBySpec_default (a b : Place) (spec : jsstring) :
  startsWith spec (u "desc:") = false ->
  startsWith spec (u "asc:") = false ->
  spec <> u "special:mustgo" ->
  sortBySpec a b spec
  = let d := js_sub (num (trust b)) (num (trust a)) in
    if num_truthy d then d
    else js_sub (num (rating_count b)) (num (rating_count a)).
Proof.
  intros Hd Ha Hm. unfold sortBySpec. rewrite Hd, Ha.
  unfold str_eqb. rewrite bool_decide_eq_false_2 by exact Hm. reflexivity.
Qed.

(** Swapping the operands negates the comparator's result. *)
Lemma sortBySpec_opp (a b : Place) (spec : jsstring) :
  exists d d', sortBySpec a b spec = Fin d /\ sortBySpec b a spec = Fin d'
               /\ (d' == - d)%Q.
Proof.
  unfold sortBySpec.
  destruct (startsWith spec (u "desc:")).
  { rewrite !num_Fin, !js_sub_Fin. do 2 eexists. split; [reflexivity | split; [reflexivity | lra]]. }
  destruct (startsWith spec (u "asc:")).
  { rewrite !num_Fin, !js_sub_Fin. do 2 eexists. split; [reflexivity | split; [reflexivity | lra]]. }
  destruct (str_eqb spec (u "special:mustgo")).
  - rewrite !num_Fin, !js_sub_Fin.
    destruct (num_truthy_cases (numQ (bayes2_score b) + - numQ (bayes2_score a)))
      as [[E1 ->] | [E1 ->]];
    destruct (num_truthy_cases (numQ (bayes2_score a) + - numQ (bayes2_score b)))
      as [[E1' ->] | [E1' ->]]; try (exfalso; lra).
    + destruct (num_truthy_cases (numQ (rating_count b) + - numQ (rating_count a)))
        as [[E2 ->] | [E2 ->]];
      destruct (num_truthy_cases (numQ (rating_count a) + - numQ (rating_count b)))
        as [[E2' ->] | [E2' ->]]; try (exfalso; lra);
      do 2 eexists; (split; [reflexivity | split; [reflexivity | lra]]).
    + do 2 eexists; (split; [reflexivity | split; [reflexivity | lra]]).
  - rewrite !num_Fin, !js_sub_Fin.
    destruct (num_truthy_cases (numQ (trust b) + - numQ (trust a)))
      as [[E1 ->] | [E1 ->]];
    destruct (num_truthy_cases (numQ (trust a) + - numQ (trust b)))
      as [[E1' ->] | [E1' ->]]; try (exfalso; lra);
    do 2 eexists; (split; [reflexivity | split; [reflexivity | lra]]).
Qed.

Lemma sortBySpec_finite (a b : Place) (spec : jsstring) :
  exists d, sortBySpec a b spec = Fin d.
Proof. destruct (sortBySpec_opp a b spec) as (d & _ & Hd & _). eauto. Qed.

(** The comparator returns the first non-zero difference of the keys. *)
Lemma sortBySpec_keys (a b : Place) (spec : jsstring) :
  exists d, sortBySpec a b spec = Fin d
            /\ (d == key_diff (sort_keys spec a) (sort_keys spec b))%Q.
Proof.
  unfold sortBySpec, sort_keys, key_diff, first_nonzero.
  destruct (startsWith spec (u "desc:")).
  { rewrite !num_Fin, !js_sub_Fin. eexists. split; [reflexivity |]. cbn [fst snd].
    change (Qeq_bool (0 - 0) 0) with true. cbv iota.
    qcase (numQ (get_field b (slice 5 spec)) - numQ (get_field a (slice 5 spec)))%Q;
      lra. }
  destruct (startsWith spec (u "asc:")).
  { rewrite !num_Fin, !js_sub_Fin. eexists. split; [reflexivity |]. cbn [fst snd].
    change (Qeq_bool (0 - 0) 0) with true. cbv iota.
    qcase (- numQ (get_field b (slice 4 spec)) - - numQ (get_field a (slice 4 spec)))%Q;
      lra. }
  destruct (str_eqb spec (u "special:mustgo")).
  - rewrite !num_Fin, !js_sub_Fin. cbn [fst snd].
    destruct (num_truthy_cases (numQ (bayes2_score b) + - numQ (bayes2_score a)))
      as [[E1 ->] | [E1 ->]].
    + qcase (numQ (bayes2_score b) - numQ (bayes2_score a))%Q; try lra.
      destruct (num_truthy_cases (numQ (rating_count b) + - numQ (rating_count a)))
        as [[E2 ->] | [E2 ->]];
        qcase (numQ (rating_count b) - numQ (rating_count a))%Q; try lra;
        (eexists; split; [reflexivity | lra]).
    + qcase (numQ (bayes2_score b) - numQ (bayes2_score a))%Q; try lra;
        (eexists; split; [reflexivity | lra]).
  - rewrite !num_Fin, !js_sub_Fin. cbn [fst snd].
    destruct (num_truthy_cases (numQ (trust b) + - numQ (trust a)))
      as [[E1 ->] | [E1 ->]].
    + qcase (numQ (trust b) - numQ (trust a))%Q; try lra.
      eexists. split; [reflexivity |].
      qcase (numQ (rating_count b) - numQ (rating_count a))%Q; lra.
    + qcase (numQ (trust b) - numQ (trust a))%Q; try lra;
        (eexists; split; [reflexivity | lra]).
Qed.

(** C6. The must-go comparator puts [a] before [b] (negative result)
    exactly when [a] has the larger trust score, or an equal one and more
    reviews, or both equal and the larger rating, and [b] before [a]
    (positive result) in the mirrored cases. The comparator of an
    unrecognized spec does so with the trust score and, on equal scores,
    the review count. Every field is read through [num], which gives 0
    for a missing or non-finite value, so the result of [sortBySpec] is a
    finite number for every spec. *)
Theorem sortBySpec_orders (a b : Place) :
  (let ta := numQ (bayes2_score a) in let tb := numQ (bayes2_score b) in
   let ca := numQ (rating_count a) in let cb := numQ (rating_count b) in
   let ra := numQ (rating a) in let rb := numQ (rating b) in
   exists d, sortBySpec a b (u "special:mustgo") = Fin d
     /\ (d < 0 <-> ta > tb \/ (ta == tb /\ (ca > cb \/ (ca == cb /\ ra > rb))))
     /\ (0 < d <-> ta < tb \/ (ta == tb /\ (ca < cb \/ (ca == cb /\ ra < rb)))))%Q
  /\ (forall spec,
        startsWith spec (u "desc:") = false ->
        startsWith spec (u "asc:") = false ->
        spec <> u "special:mustgo" ->
        let ta := numQ (trust a) in let tb := numQ (trust b) in
        let ca := numQ (rating_count a) in let cb := numQ (rating_count b) in
        exists d, sortBySpec a b spec = Fin d
          /\ (d < 0 <-> ta > tb \/ (ta == tb /\ ca > cb))
          /\ (0 < d <-> ta < tb \/ (ta == tb /\ ca < cb)))%Q
  /\ (forall spec, exists d, sortBySpec a b spec = Fin d)
  /\ (forall v, num v = Fin (numQ v)
        /\ (nullish v = true -> num v = Fin 0)
        /\ (isFinite (Number v) = false -> num v = Fin 0)
        /\ (nullish v = false -> isFinite (Number v) = true -> num v = Number v)).
Proof.
  split; [| split; [| split]].
  - cbv zeta. rewrite sortBySpec_mustgo. cbv zeta. rewrite !num_Fin, !js_sub_Fin.
    destruct (num_truthy_cases (numQ (bayes2_score b) + - numQ (bayes2_score a)))
      as [[E1 ->] | [E1 ->]].
    + destruct (num_truthy_cases (numQ (rating_count b) + - numQ (rating_count a)))
        as [[E2 ->] | [E2 ->]];
        (eexists; split; [reflexivity |]; split; split; intros Hs;
         [ right; split; [lra |]; first [left; lra | right; split; lra]
         | destruct Hs as [Hs | [Hs1 [Hs | [Hs2 Hs]]]]; lra
         | right; split; [lra |]; first [left; lra | right; split; lra]
         | destruct Hs as [Hs | [Hs1 [Hs | [Hs2 Hs]]]]; lra ]).
    + eexists; split; [reflexivity |]; split; split; intros Hs;
        [ left; lra
        | destruct Hs as [Hs | [Hs1 [Hs | [Hs2 Hs]]]]; lra
        | left; lra
        | destruct Hs as [Hs | [Hs1 [Hs | [Hs2 Hs]]]]; lra ].
  - intros spec Hd Ha Hm. cbv zeta. rewrite (sortBySpec_default a b spec Hd Ha Hm).
    cbv zeta. rewrite !num_Fin, !js_sub_Fin.
    destruct (num_truthy_cases (numQ (trust b) + - numQ (trust a)))
      as [[E1 ->] | [E1 ->]];
      (eexists; split; [reflexivity |]; split; split; intros Hs;
       [ first [left; lra | right; split; lra]
       | destruct Hs as [Hs | [Hs1 Hs]]; lra
       | first [left; lra | right; split; lra]
       | destruct Hs as [Hs | [Hs1 Hs]]; lra ]).
  - intros spec. apply sortBySpec_finite.
  - intros v. split; [apply num_Fin | apply num_coerces].
Qed.

End Comparator.

(** ** Sorting *)

Section Sorting.
Context {A : Type} (cmp : A -> A -> jsnum).

#[local] Arguments js_gt : simpl never.

Lemma In_sort_insert (x y : A) (l : list A) :
  In y (sort_insert cmp x l) <-> y = x \/ In y l.
Proof.
  induction l as [| z l IH]; simpl.
  - intuition.
  - destruct (js_gt (cmp x z) (Fin 0)); simpl; [rewrite IH |]; intuition.
Qed.

Lemma In_array_sort (y : A) (l : list A) : In y (array_sort cmp l) <-> In y l.
Proof.
  induction l as [| x l IH]; simpl; [reflexivity |].
  rewrite In_sort_insert, IH. intuition.
Qed.

Lemma sort_insert_perm (x : A) (l : list A) : sort_insert cmp x l ≡ₚ x :: l.
Proof.
  induction l as [| z l IH]; simpl; [reflexivity |].
  destruct (js_gt (cmp x z) (Fin 0)); [| reflexivity].
  rewrite IH. apply Permutation_swap.
Qed.

Lemma array_sort_perm (l : list A) : array_sort cmp l ≡ₚ l.
Proof.
  induction l as [| x l IH]; simpl; [reflexivity |].
  rewrite sort_insert_perm, IH. reflexivity.
Qed.

Lemma sorted_tail (x : A) (l : list A) : sorted cmp (x :: l) -> sorted cmp l.
Proof. destruct l; simpl; tauto. Qed.

(** A list in which nothing has to move is left as it is. *)
Lemma array_sort_sorted_id (l : list A) : sorted cmp l -> array_sort cmp l = l.
Proof.
  induction l as [| x l IH]; intros Hs; [reflexivity |].
  simpl. rewrite IH by (eapply sorted_tail; exact Hs).
  destruct l as [| y l]; [reflexivity |].
  destruct Hs as [Hxy _]. simpl. rewrite Hxy. reflexivity.
Qed.

(** Stability: the members of a class whose elements never have to pass
    one another keep their order. *)
Lemma sort_insert_filter (P : A -> bool) (x : A) (l : list A) :
  (forall a b, P a = true -> P b = true -> js_gt (cmp a b) (Fin 0) = false) ->
  List.filter P (sort_insert cmp x l) = List.filter P (x :: l).
Proof.
  intros Hclass. induction l as [| y l IH]; [reflexivity |].
  simpl. destruct (js_gt (cmp x y) (Fin 0)) eqn:Exy; [| reflexivity].
  simpl. rewrite IH. simpl.
  destruct (P x) eqn:Px; [| reflexivity].
  destruct (P y) eqn:Py; [| reflexivity].
  rewrite (Hclass x y Px Py) in Exy. discriminate.
Qed.

Lemma array_sort_stable (P : A -> bool) (l : list A) :
  (forall a b, P a = true -> P b = true -> js_gt (cmp a b) (Fin 0) = false) ->
  List.filter P (array_sort cmp l) = List.filter P l.
Proof.
  intros Hclass. induction l as [| x l IH]; [reflexivity |].
  simpl array_sort. rewrite (sort_insert_filter P x _ Hclass).
  simpl. rewrite IH. reflexivity.
Qed.

Hypothesis cmp_asym :
  forall x y, js_gt (cmp x y) (Fin 0) = true -> js_gt (cmp y x) (Fin 0) = false.

Lemma sort_insert_sorted (x : A) (l : list A) :
  sorted cmp l -> sorted cmp (sort_insert cmp x l).
Proof.
  induction l as [| y l IH]; intros Hs; [exact I |].
  simpl. destruct (js_gt (cmp x y) (Fin 0)) eqn:Exy.
  - specialize (IH (sorted_tail _ _ Hs)).
    destruct l as [| z l]; simpl in *.
    + split; [apply cmp_asym; exact Exy | exact I].
    + destruct (js_gt (cmp x z) (Fin 0)) eqn:Exz.
      * split; [apply Hs | exact IH].
      * split; [apply cmp_asym; exact Exy | exact IH].
  - split; [exact Exy | exact Hs].
Qed.

Lemma array_sort_sorted (l : list A) : sorted cmp (array_sort cmp l).
Proof.
  induction l as [| x l IH]; [exact I |].
  simpl. apply sort_insert_sorted. exact IH.
Qed.

Lemma array_sort_idempotent (l : list A) :
  array_sort cmp (array_sort cmp l) = array_sort cmp l.
Proof. apply array_sort_sorted_id, array_sort_sorted. Qed.

End Sorting.

Lemma filter_all {A} (f : A -> bool) (l : list A) :
  (forall x, In x l -> f x = true) -> List.filter f l = l.
Proof.
  induction l as [| x l IH]; intros Hall; [reflexivity |].
  simpl. rewrite (Hall x) by (left; reflexivity).
  f_equal. apply IH. intros y Hy. apply Hall. right. exact Hy.
Qed.

(** ** The filter pipeline *)

Section Pipeline.
Context `{Host}.

Lemma sortBySpec_asym (spec : jsstring) (x y : Place) :
  js_gt (sortBySpec x y spec) (Fin 0) = true ->
  js_gt (sortBySpec y x spec) (Fin 0) = false.
Proof.
  destruct (sortBySpec_opp x y spec) as (d & d' & -> & -> & Hd).
  intros Hgt. apply js_gt_Fin in Hgt.
  destruct (js_gt (Fin d') (Fin 0)) eqn:E; [| reflexivity].
  apply js_gt_Fin in E. lra.
Qed.

(** The comparator is consistent: "does not have to move behind" is
    transitive, and places that tie with a third one tie with each other. *)
Lemma sortBySpec_trans (spec : jsstring) (x y z : Place) :
  js_gt (sortBySpec x y spec) (Fin 0) = false ->
  js_gt (sortBySpec y z spec) (Fin 0) = false ->
  js_gt (sortBySpec x z spec) (Fin 0) = false.
Proof.
  destruct (sortBySpec_keys x y spec) as (d1 & -> & H1).
  destruct (sortBySpec_keys y z spec) as (d2 & -> & H2).
  destruct (sortBySpec_keys x z spec) as (d3 & -> & H3).
  unfold js_gt, js_lt. intros Hxy Hyz.
  apply Qltb_ge in Hxy, Hyz. apply Qltb_ge.
  unfold key_diff in *. rewrite H3.
  eapply first_nonzero_trans; [rewrite <- H1; exact Hxy | rewrite <- H2; exact Hyz | | |];
    lra.
Qed.

Lemma sortBySpec_ties (spec : jsstring) (z x y : Place) :
  ties spec z x = true -> ties spec z y = true ->
  js_gt (sortBySpec x y spec) (Fin 0) = false.
Proof.
  unfold ties.
  destruct (sortBySpec_keys z x spec) as (d1 & -> & H1).
  destruct (sortBySpec_keys z y spec) as (d2 & -> & H2).
  destruct (sortBySpec_keys x y spec) as (d3 & -> & H3).
  intros Hx Hy. apply negb_true_iff, num_truthy_Fin in Hx, Hy.
  unfold js_gt, js_lt. apply Qltb_ge.
  unfold key_diff in *. rewrite H3.
  assert (first_nonzero
            (fst (fst (sort_keys spec y)) - fst (fst (sort_keys spec x)))
            (snd (fst (sort_keys spec y)) - snd (fst (sort_keys spec x)))
            (snd (sort_keys spec y) - snd (sort_keys spec x)) == 0)%Q as Hz.
  { eapply first_nonzero_ties;
      [rewrite <- H1; exact Hx | rewrite <- H2; exact Hy | | |]; lra. }
  lra.
Qed.







Lemma filterData_In mapped st rows p :
  In p (filterData mapped st rows)
  <-> In p rows
      /\ stage_district st p = true
      /\ stage_category st p = true
      /\ stage_insight st (predicate (activeInsight mapped st)) p = true
      /\ stage_text st p = true
      /\ stage_sentiment st p = true
      /\ stage_price st p = true
      /\ stage_tags st p = true.
Proof.
  unfold filterData. rewrite In_array_sort, !filter_In. tauto.
Qed.


Lemma filterData_passes mapped st rows p :
  In p (filterData mapped st rows) ->
  stage_district st p = true
  /\ stage_category st p = true
  /\ stage_insight st (predicate (activeInsight mapped st)) p = true
  /\ stage_text st p = true
  /\ stage_sentiment st p = true
  /\ stage_price st p = true
  /\ stage_tags st p = true.
Proof. rewrite filterData_In. tauto. Qed.

Lemma filterData_idempotent mapped st rows :
  filterData mapped st (filterData mapped st rows) = filterData mapped st rows.
Proof.
  unfold filterData at 1.
  rewrite (filter_all (stage_district st))
    by (intros p Hp; apply (filterData_passes mapped st rows p Hp)).
  rewrite (filter_all (stage_category st))
    by (intros p Hp; apply (filterData_passes mapped st rows p Hp)).
  rewrite (filter_all (stage_insight st _))
    by (intros p Hp; apply (filterData_passes mapped st rows p Hp)).
  rewrite (filter_all (stage_text st))
    by (intros p Hp; apply (filterData_passes mapped st rows p Hp)).
  rewrite (filter_all (stage_sentiment st))
    by (intros p Hp; apply (filterData_passes mapped st rows p Hp)).
  rewrite (filter_all (stage_price st))
    by (intros p Hp; apply (filterData_passes mapped st rows p Hp)).
  rewrite (filter_all (stage_tags st))
    by (intros p Hp; apply (filterData_passes mapped st rows p Hp)).
  unfold filterData. apply array_sort_idempotent.
  intros x y. apply sortBySpec_asym.
Qed.

End Pipeline.

(** ** The pipeline on arrays in a store *)

Lemma content_old (h : store) (x : list (list Place)) (a : nat) :
  (a < length h)%nat -> content (h ++ x) a = content h a.
Proof. intros Ha. unfold content. now rewrite lookup_app_l. Qed.

Lemma content_new (h : store) (x : list (list Place)) (l : list Place) :
  content (h ++ l :: x) (length h) = l.
Proof. unfold content. now rewrite list_lookup_middle. Qed.

Lemma insert_last (h : store) (x y : list Place) :
  <[length h := x]> (h ++ [y]) = h ++ [x].
Proof.
  rewrite insert_app_r_alt by lia. now rewrite Nat.sub_diag.
Qed.

Section PipelineInStore.
Context `{Host}.

(** One run allocates six intermediate arrays and the result array, and
    writes to none of the arrays that existed before. *)
Lemma filterData_in_store_run mapped st rows h :
  exists tmp,
    length tmp = 6%nat
    /\ filterData_in_store mapped st rows h
       = ((length h + 6)%nat, h ++ tmp ++ [filterData mapped st (content h rows)]).
Proof.
  unfold filterData_in_store, mbind, M_bind, array_filter, array_sort_in_place.
  rewrite !content_new.
  set (l1 := List.filter (stage_district st) (content h rows)).
  set (l2 := List.filter (stage_category st) l1).
  set (l3 := List.filter (stage_insight st (predicate (activeInsight mapped st))) l2).
  set (l4 := List.filter (stage_text st) l3).
  set (l5 := List.filter (stage_sentiment st) l4).
  set (l6 := List.filter (stage_price st) l5).
  exists [l1; l2; l3; l4; l5; l6]. split; [reflexivity |].
  rewrite insert_last. f_equal.
  - rewrite !length_app. simpl. lia.
  - rewrite <- !app_assoc. reflexivity.
Qed.

(** C7. Filtering the result of [filterData] again, with the same state,
    gives the same ordered list. On arrays in a store: a run leaves the
    array [rows] and every other existing array as they were and returns a
    new array holding [filterData] of the content of [rows]; a second run
    on the same [rows] returns a further array with the same ordered
    content, and leaves the result of the first run in place. The result
    is a sorted rearrangement of the rows that pass the filters, and the
    sort is stable: places that compare equal keep their input order. *)
Theorem filterData_repeatable (mapped : list Insight) (st : state.t) :
  (forall rows,
     filterData mapped st (filterData mapped st rows) = filterData mapped st rows)
  /\ (forall (h : store) (rows : nat),
        (rows < length h)%nat ->
        let (out1, h1) := filterData_in_store mapped st rows h in
        let (out2, h2) := filterData_in_store mapped st rows h1 in
        (forall a, (a < length h)%nat -> content h1 a = content h a)
        /\ (length h <= out1)%nat
        /\ content h1 out1 = filterData mapped st (content h rows)
        /\ content h2 rows = content h rows
        /\ out2 <> out1
        /\ content h2 out2 = content h1 out1
        /\ content h2 out1 = content h1 out1)
  /\ (forall rows,
        let spec := sort (activeInsight mapped st) in
        sorted (fun a b => sortBySpec a b spec) (filterData mapped st rows)
        /\ filterData mapped st rows ≡ₚ filter_stages mapped st rows
        /\ forall z,
             List.filter (ties spec z) (filterData mapped st rows)
             = List.filter (ties spec z) (filter_stages mapped st rows)).
Proof.
  split; [intros rows; apply filterData_idempotent |].
  split.
  2: { intros rows. cbv zeta. split; [| split].
       - apply array_sort_sorted. intros x y. apply sortBySpec_asym.
       - apply array_sort_perm.
       - intros z. unfold filterData. fold (filter_stages mapped st rows).
         apply array_sort_stable. intros a b Ha Hb.
         apply (sortBySpec_ties _ z); assumption. }
  intros h rows Hrows.
  destruct (filterData_in_store_run mapped st rows h) as (tmp & Htmp & ->).
  set (h1 := h ++ tmp ++ [filterData mapped st (content h rows)]).
  destruct (filterData_in_store_run mapped st rows h1) as (tmp' & Htmp' & ->).
  assert (length h1 = length h + 7)%nat as Hlen1.
  { unfold h1. rewrite !length_app, Htmp. simpl. lia. }
  assert (content h1 (length h + 6) = filterData mapped st (content h rows)) as Hout1.
  { unfold h1. rewrite app_assoc.
    replace (length h + 6)%nat with (length (h ++ tmp))
      by (rewrite length_app; lia).
    apply content_new. }
  assert (content h1 rows = content h rows) as Hrows1.
  { unfold h1. apply content_old. exact Hrows. }
  split; [intros a Ha; unfold h1; apply content_old; exact Ha |].
  split; [lia |].
  split; [exact Hout1 |].
  split; [rewrite content_old by lia; exact Hrows1 |].
  split; [lia |].
  split.
  - rewrite Hrows1, Hout1. rewrite app_assoc.
    replace (length h1 + 6)%nat with (length (h1 ++ tmp'))
      by (rewrite length_app; lia).
    apply content_new.
  - apply content_old. lia.
Qed.

End PipelineInStore.

(** ** The pipeline on concrete inputs *)


Lemma sortBySpec_orders_witness :
  exists d,
    @sortBySpec sample_host (scored_place 0.9 100) (scored_place 0.9 250)
      (u "special:mustgo") = Fin d
    /\ (0 < d)%Q.
Proof.
  destruct (proj1 (@sortBySpec_orders sample_host (scored_place 0.9 100)
                     (scored_place 0.9 250))) as (d & Hd & _ & Hpos).
  exists d. split; [exact Hd |].
  apply Hpos. right. split; [reflexivity |]. left. vm_compute. reflexivity.
Defined.

Lemma filterData_repeatable_witness :
  (0 < length [[scored_place 0.5 10; scored_place 0.9 250]])%nat
  /\ content
       (snd (@filterData_in_store sample_host [] scenario3_state 0
               [[scored_place 0.5 10; scored_place 0.9 250]])) 0
     = [scored_place 0.5 10; scored_place 0.9 250].
Proof.
  split; [simpl; lia |].
  pose proof (proj1 (proj2 (@filterData_repeatable sample_host [] scenario3_state))
                [[scored_place 0.5 10; scored_place 0.9 250]] 0%nat) as Hrun.
  destruct (@filterData_in_store sample_host [] scenario3_state 0
              [[scored_place 0.5 10; scored_place 0.9 250]]) as [out1 h1].
  destruct (@filterData_in_store sample_host [] scenario3_state 0 h1) as [out2 h2].
  simpl. apply Hrun; simpl; lia.
Defined.

(** * Properties of further parts of the application *)

(** ** Retry logic *)

Lemma fetches_cons_fetch k tr : fetches (Fetch k :: tr) = k :: fetches tr.
Proof. reflexivity. Qed.

Lemma fetches_cons_wait w tr : fetches (Wait w :: tr) = fetches tr.
Proof. reflexivity. Qed.

Lemma waits_cons_fetch k tr : waits (Fetch k :: tr) = waits tr.
Proof. reflexivity. Qed.

Lemma waits_cons_wait w tr : waits (Wait w :: tr) = w :: waits tr.
Proof. reflexivity. Qed.

Lemma fetch_attempts_shape net maxRetries remaining lastError :
  (remaining <= maxRetries)%nat ->
  exists n,
    (n <= remaining)%nat
    /\ fetches (snd (fetch_attempts net maxRetries remaining lastError))
       = seq (maxRetries - remaining) n
    /\ forall resp,
         fst (fetch_attempts net maxRetries remaining lastError) = Normal resp ->
         (1 <= n)%nat
         /\ net (maxRetries - remaining + n - 1)%nat = Fulfilled resp
         /\ (ok resp = true
             \/ (status resp <> 429%Z
                 /\ ((500 <= status resp < 600)%Z ->
                     (maxRetries - remaining + n)%nat = maxRetries))).
Proof.
  revert lastError. induction remaining as [| rem IH]; intros lastError Hle.
  - exists 0%nat. simpl. split; [lia |]. split; [reflexivity |].
    intros resp Hr. discriminate.
  - assert (rem <= maxRetries)%nat as Hle' by lia.
    assert (maxRetries - rem = S (maxRetries - S rem))%nat as Hnext by lia.
    cbn [fetch_attempts].
    destruct (net (maxRetries - S rem)%nat) as [response | error] eqn:Enet.
    + destruct (ok response) eqn:Eok.
      { exists 1%nat. simpl. split; [lia |]. split; [reflexivity |].
        intros resp [= <-]. split; [lia |].
        replace (maxRetries - S rem + 1 - 1)%nat with (maxRetries - S rem)%nat by lia.
        split; [exact Enet | left; exact Eok]. }
      destruct (status response =? 429)%Z eqn:E429.
      { destruct (IH lastError Hle') as (n & Hn & Hf & Hr).
        destruct (fetch_attempts net maxRetries rem lastError) as [r tr] eqn:Erec.
        exists (S n). simpl in *. split; [lia |].
        split; [rewrite Hf, Hnext; reflexivity |].
        intros resp Hresp. destruct (Hr resp Hresp) as (H1 & H2 & H3).
        split; [lia |]. split.
        - replace (maxRetries - S rem + S n - 1)%nat
            with (maxRetries - rem + n - 1)%nat by lia. exact H2.
        - destruct H3 as [H3 | [H3 H4]]; [left; exact H3 | right].
          split; [exact H3 |]. intros H5. specialize (H4 H5). lia. }
      destruct ((500 <=? status response)%Z && (status response <? 600)%Z
                && (maxRetries - S rem <? maxRetries - 1)%nat) eqn:E5.
      { destruct (IH lastError Hle') as (n & Hn & Hf & Hr).
        destruct (fetch_attempts net maxRetries rem lastError) as [r tr] eqn:Erec.
        exists (S n). simpl in *. split; [lia |].
        split; [rewrite Hf, Hnext; reflexivity |].
        intros resp Hresp. destruct (Hr resp Hresp) as (H1 & H2 & H3).
        split; [lia |]. split.
        - replace (maxRetries - S rem + S n - 1)%nat
            with (maxRetries - rem + n - 1)%nat by lia. exact H2.
        - destruct H3 as [H3 | [H3 H4]]; [left; exact H3 | right].
          split; [exact H3 |]. intros H5. specialize (H4 H5). lia. }
      exists 1%nat. simpl. split; [lia |]. split; [reflexivity |].
      intros resp [= <-]. split; [lia |].
      replace (maxRetries - S rem + 1 - 1)%nat with (maxRetries - S rem)%nat by lia.
      split; [exact Enet | right]. split; [apply Z.eqb_neq; exact E429 |].
      intros [H5 H6].
      apply andb_false_iff in E5 as [E5 | E5].
      * apply andb_false_iff in E5 as [E5 | E5];
          [apply Z.leb_gt in E5 | apply Z.ltb_ge in E5]; lia.
      * apply Nat.ltb_ge in E5. lia.
    + destruct (IH (Some error) Hle') as (n & Hn & Hf & Hr).
      destruct (fetch_attempts net maxRetries rem (Some error)) as [r tr] eqn:Erec.
      exists (S n).
      destruct (maxRetries - S rem <? maxRetries - 1)%nat; simpl in *.
      all: split; [lia |].
      all: split; [rewrite Hf, Hnext; reflexivity |].
      all: intros resp Hresp; destruct (Hr resp Hresp) as (H1 & H2 & H3).
      all: split; [lia |]; split;
        [ replace (maxRetries - S rem + S n - 1)%nat
            with (maxRetries - rem + n - 1)%nat by lia; exact H2
        | destruct H3 as [H3 | [H3 H4]]; [left; exact H3 | right];
          split; [exact H3 |]; intros H5; specialize (H4 H5); lia ].
Qed.

(** X1. [fetchWithRetry] calls [fetch] at most [maxRetries] times, for
    the attempts 0, 1, 2, ... in order; a response it returns is the
    outcome of its last call. *)
Theorem fetchWithRetry_attempts_bounded (net : nat -> fetched) (maxRetries : nat) :
  exists n,
    (n <= maxRetries)%nat
    /\ fetches (snd (fetchWithRetry net maxRetries)) = seq 0 n
    /\ forall resp,
         fst (fetchWithRetry net maxRetries) = Normal resp ->
         (1 <= n)%nat /\ net (n - 1)%nat = Fulfilled resp.
Proof.
  unfold fetchWithRetry.
  destruct (fetch_attempts_shape net maxRetries maxRetries None (le_n _))
    as (n & Hn & Hf & Hr).
  exists n. split; [exact Hn |]. rewrite Nat.sub_diag in *. split; [exact Hf |].
  intros resp Hresp. destruct (Hr resp Hresp) as (H1 & H2 & _).
  split; [exact H1 |]. simpl in H2. exact H2.
Qed.

(** X2. A response that [fetchWithRetry] returns is either successful, or
    a failure other than 429; a server error (5xx) is returned only from
    the last of the [maxRetries] attempts. A 429 response is never
    returned. *)
Theorem fetchWithRetry_returned_response (net : nat -> fetched) (maxRetries : nat)
    (resp : Response) :
  fst (fetchWithRetry net maxRetries) = Normal resp ->
  ok resp = true
  \/ (status resp <> 429%Z
      /\ ((500 <= status resp < 600)%Z ->
          length (fetches (snd (fetchWithRetry net maxRetries))) = maxRetries)).
Proof.
  unfold fetchWithRetry. intros Hresp.
  destruct (fetch_attempts_shape net maxRetries maxRetries None (le_n _))
    as (n & Hn & Hf & Hr).
  destruct (Hr resp Hresp) as (_ & _ & [H3 | [H3 H4]]); [left; exact H3 | right].
  split; [exact H3 |]. intros H5. specialize (H4 H5).
  rewrite Hf, length_seq. lia.
Qed.

Lemma fetch_attempts_rate_limited net maxRetries remaining lastError :
  (remaining <= maxRetries)%nat ->
  (forall k, (maxRetries - remaining <= k < maxRetries)%nat -> rate_limited (net k)) ->
  fst (fetch_attempts net maxRetries remaining lastError)
  = Throw (final_throw lastError)
  /\ length (waits (snd (fetch_attempts net maxRetries remaining lastError)))
     = remaining
  /\ fetches (snd (fetch_attempts net maxRetries remaining lastError))
     = seq (maxRetries - remaining) remaining.
Proof.
  induction remaining as [| rem IH]; intros Hle Hall.
  - simpl. repeat split.
  - cbn [fetch_attempts].
    destruct (Hall (maxRetries - S rem)%nat ltac:(lia)) as (r & -> & -> & ->).
    cbn [Z.eqb Pos.eqb].
    destruct IH as (H1 & H2 & H3); [lia | intros k Hk; apply Hall; lia |].
    destruct (fetch_attempts net maxRetries rem lastError) as [res tr].
    simpl in *. split; [exact H1 |]. split; [now rewrite H2 |].
    rewrite H3. f_equal. f_equal. lia.
Qed.

(** X3. When every one of the [maxRetries] attempts is answered with
    429, [fetchWithRetry] sleeps after each of them, the last one
    included, and then throws the error "Failed to fetch after maximum
    retries". *)
Theorem fetchWithRetry_rate_limit_exhausted (net : nat -> fetched)
    (maxRetries : nat) :
  (forall k, (k < maxRetries)%nat -> rate_limited (net k)) ->
  fst (fetchWithRetry net maxRetries) = Throw FailedAfterMaximumRetries
  /\ length (waits (snd (fetchWithRetry net maxRetries))) = maxRetries
  /\ fetches (snd (fetchWithRetry net maxRetries)) = seq 0 maxRetries.
Proof.
  intros Hall. unfold fetchWithRetry.
  destruct (fetch_attempts_rate_limited net maxRetries maxRetries None (le_n _))
    as (H1 & H2 & H3).
  { intros k Hk. apply Hall. lia. }
  rewrite Nat.sub_diag in H3. auto.
Qed.

Lemma fetch_attempts_backoff net maxRetries remaining lastError :
  (remaining <= maxRetries)%nat ->
  (forall k, (k < maxRetries)%nat -> no_retry_after (net k)) ->
  exists m,
    (m <= remaining)%nat
    /\ waits (snd (fetch_attempts net maxRetries remaining lastError))
       = map backoff (seq (maxRetries - remaining) m).
Proof.
  revert lastError. induction remaining as [| rem IH]; intros lastError Hle Hall.
  - exists 0%nat. simpl. split; [lia | reflexivity].
  - assert (maxRetries - rem = S (maxRetries - S rem))%nat as Hnext by lia.
    cbn [fetch_attempts].
    pose proof (Hall (maxRetries - S rem)%nat ltac:(lia)) as Hno.
    destruct (net (maxRetries - S rem)%nat) as [response | error].
    + destruct (ok response); [exists 0%nat; simpl; split; [lia | reflexivity] |].
      destruct (status response =? 429)%Z.
      { destruct (IH lastError ltac:(lia) Hall) as (m & Hm & Hw).
        destruct (fetch_attempts net maxRetries rem lastError) as [r tr].
        exists (S m). split; [lia |]. simpl in *.
        rewrite Hw, Hnext. destruct Hno as [-> | ->]; reflexivity. }
      destruct (_ && _).
      { destruct (IH lastError ltac:(lia) Hall) as (m & Hm & Hw).
        destruct (fetch_attempts net maxRetries rem lastError) as [r tr].
        exists (S m). split; [lia |]. simpl in *. rewrite Hw, Hnext. reflexivity. }
      exists 0%nat. simpl. split; [lia | reflexivity].
    + destruct (maxRetries - S rem <? maxRetries - 1)%nat eqn:Elast.
      * destruct (IH (Some error) ltac:(lia) Hall) as (m & Hm & Hw).
        destruct (fetch_attempts net maxRetries rem (Some error)) as [r tr].
        exists (S m). split; [lia |]. simpl in *. rewrite Hw, Hnext. reflexivity.
      * apply Nat.ltb_ge in Elast. assert (rem = 0)%nat as -> by lia.
        exists 0%nat. simpl. split; [lia | reflexivity].
Qed.

(** X4. When no response carries a [Retry-After] header, the delays that
    [fetchWithRetry] sleeps are 1000 ms, 2000 ms, 4000 ms, ...: the i-th
    delay is [2^i * 1000], and there are at most [maxRetries] of them. *)
Theorem fetchWithRetry_backoff_schedule (net : nat -> fetched) (maxRetries : nat) :
  (forall k, (k < maxRetries)%nat -> no_retry_after (net k)) ->
  exists m,
    (m <= maxRetries)%nat
    /\ waits (snd (fetchWithRetry net maxRetries)) = map backoff (seq 0 m).
Proof.
  intros Hall. unfold fetchWithRetry.
  destruct (fetch_attempts_backoff net maxRetries maxRetries None (le_n _) Hall)
    as (m & Hm & Hw).
  exists m. rewrite Nat.sub_diag in Hw. auto.
Qed.

Lemma fetch_attempts_rejected net maxRetries remaining lastError errs :
  (1 <= remaining <= maxRetries)%nat ->
  (forall k, (k < maxRetries)%nat -> net k = Rejected (errs k)) ->
  fst (fetch_attempts net maxRetries remaining lastError)
  = Throw (final_throw (Some (errs (maxRetries - 1)%nat)))
  /\ waits (snd (fetch_attempts net maxRetries remaining lastError))
     = map backoff (seq (maxRetries - remaining) (remaining - 1))
  /\ fetches (snd (fetch_attempts net maxRetries remaining lastError))
     = seq (maxRetries - remaining) remaining.
Proof.
  revert lastError. induction remaining as [| rem IH]; intros lastError Hle Hall;
    [lia |].
  assert (maxRetries - rem = S (maxRetries - S rem))%nat as Hnext by lia.
  cbn [fetch_attempts]. rewrite (Hall (maxRetries - S rem)%nat) by lia.
  destruct rem as [| rem].
  - replace (maxRetries - 1 <? maxRetries - 1)%nat with false
      by (symmetry; apply Nat.ltb_irrefl).
    simpl. repeat split.
  - replace (maxRetries - S (S rem) <? maxRetries - 1)%nat with true
      by (symmetry; apply Nat.ltb_lt; lia).
    destruct (IH (Some (errs (maxRetries - S (S rem))%nat)) ltac:(lia) Hall)
      as (H1 & H2 & H3).
    destruct (fetch_attempts net maxRetries (S rem) _) as [r tr].
    simpl in *. split; [exact H1 |]. split.
    + rewrite H2, Hnext. replace (rem - 0)%nat with rem by lia. reflexivity.
    + rewrite H3, Hnext. reflexivity.
Qed.

(** X5. When every attempt fails with a network error, [fetchWithRetry]
    makes all [maxRetries] calls, sleeps [2^i * 1000] ms between them (not
    after the last) and throws the error of the last call (the error
    "Failed to fetch after maximum retries" if that error value is
    falsy). With [maxRetries = 0] it calls nothing and throws "Failed to
    fetch after maximum retries". *)
Theorem fetchWithRetry_network_errors (net : nat -> fetched) (maxRetries : nat)
    (errs : nat -> jsval) :
  (forall k, (k < maxRetries)%nat -> net k = Rejected (errs k)) ->
  fetches (snd (fetchWithRetry net maxRetries)) = seq 0 maxRetries
  /\ waits (snd (fetchWithRetry net maxRetries))
     = map backoff (seq 0 (maxRetries - 1))
  /\ fst (fetchWithRetry net maxRetries)
     = match maxRetries with
       | O => Throw FailedAfterMaximumRetries
       | S k =>
           if truthy (errs k) then Throw (LastError (errs k))
           else Throw FailedAfterMaximumRetries
       end.
Proof.
  intros Hall. unfold fetchWithRetry. destruct maxRetries as [| k].
  - simpl. repeat split.
  - destruct (fetch_attempts_rejected net (S k) (S k) None errs ltac:(lia) Hall)
      as (H1 & H2 & H3).
    rewrite Nat.sub_diag in *. rewrite H1, H2, H3.
    replace (S k - 1)%nat with k by lia. unfold final_throw.
    destruct (truthy (errs k)); repeat split.
Qed.

(** X6. An error caught on an early attempt is what [fetchWithRetry]
    throws in the end even when every later attempt got an answer: after a
    network error on the first call and 429 on all the others, it throws
    that first error (an error object, so a truthy value). *)
Theorem fetchWithRetry_rethrows_earlier_error (net : nat -> fetched)
    (maxRetries : nat) (e : jsval) :
  (2 <= maxRetries)%nat ->
  net 0%nat = Rejected e ->
  truthy e = true ->
  (forall k, (1 <= k < maxRetries)%nat -> rate_limited (net k)) ->
  fst (fetchWithRetry net maxRetries) = Throw (LastError e).
Proof.
  intros Hmax H0 He Hall. unfold fetchWithRetry.
  destruct maxRetries as [| k]; [lia |].
  cbn [fetch_attempts]. rewrite Nat.sub_diag, H0.
  replace (0 <? S k - 1)%nat with true by (symmetry; apply Nat.ltb_lt; lia).
  destruct (fetch_attempts_rate_limited net (S k) k (Some e) ltac:(lia))
    as (H1 & _).
  { intros j Hj. apply Hall. lia. }
  destruct (fetch_attempts net (S k) k (Some e)) as [r tr].
  simpl in *. rewrite H1. unfold final_throw. now rewrite He.
Qed.

Lemma fetchWithRetry_returned_response_witness :
  fst (fetchWithRetry net_404 3) = Normal (mkResponse false 404 None None)
  /\ (ok (mkResponse false 404 None None) = true
      \/ (status (mkResponse false 404 None None) <> 429%Z
          /\ ((500 <= status (mkResponse false 404 None None) < 600)%Z ->
              length (fetches (snd (fetchWithRetry net_404 3))) = 3%nat))).
Proof.
  split; [reflexivity |].
  apply (fetchWithRetry_returned_response net_404 3). reflexivity.
Defined.

Lemma fetchWithRetry_rate_limit_exhausted_witness :
  (forall k, (k < 3)%nat -> rate_limited (net_429 k))
  /\ fst (fetchWithRetry net_429 3) = Throw FailedAfterMaximumRetries
  /\ length (waits (snd (fetchWithRetry net_429 3))) = 3%nat
  /\ fetches (snd (fetchWithRetry net_429 3)) = seq 0 3.
Proof.
  assert (Hnet : forall k, (k < 3)%nat -> rate_limited (net_429 k)).
  { intros k _. eexists. split; [reflexivity |]. split; reflexivity. }
  split; [exact Hnet |].
  apply (fetchWithRetry_rate_limit_exhausted net_429 3 Hnet).
Defined.

Lemma fetchWithRetry_backoff_schedule_witness :
  (forall k, (k < 3)%nat -> no_retry_after (net_429 k))
  /\ exists m,
       (m <= 3)%nat
       /\ waits (snd (fetchWithRetry net_429 3)) = map backoff (seq 0 m).
Proof.
  assert (Hnet : forall k, (k < 3)%nat -> no_retry_after (net_429 k)).
  { intros k _. left. reflexivity. }
  split; [exact Hnet |].
  apply (fetchWithRetry_backoff_schedule net_429 3 Hnet).
Defined.

Lemma fetchWithRetry_network_errors_witness :
  (forall k, (k < 3)%nat -> net_down k = Rejected (VStr (u "offline")))
  /\ fetches (snd (fetchWithRetry net_down 3)) = seq 0 3
  /\ waits (snd (fetchWithRetry net_down 3)) = map backoff (seq 0 (3 - 1))
  /\ fst (fetchWithRetry net_down 3)
     = (if truthy (VStr (u "offline")) then Throw (LastError (VStr (u "offline")))
        else Throw FailedAfterMaximumRetries).
Proof.
  assert (Hnet : forall k, (k < 3)%nat ->
            net_down k = Rejected ((fun _ => VStr (u "offline")) k)).
  { intros k _. reflexivity. }
  split; [exact Hnet |].
  apply (fetchWithRetry_network_errors net_down 3 (fun _ => VStr (u "offline")) Hnet).
Defined.

Lemma fetchWithRetry_rethrows_earlier_error_witness :
  (2 <= 3)%nat
  /\ net_error_then_429 0%nat = Rejected (VStr (u "offline"))
  /\ truthy (VStr (u "offline")) = true
  /\ (forall k, (1 <= k < 3)%nat -> rate_limited (net_error_then_429 k))
  /\ fst (fetchWithRetry net_error_then_429 3)
     = Throw (LastError (VStr (u "offline"))).
Proof.
  assert (Hnet : forall k, (1 <= k < 3)%nat -> rate_limited (net_error_then_429 k)).
  { intros [| k] Hk; [lia |]. eexists. split; [reflexivity |].
    split; reflexivity. }
  split; [lia |]. split; [reflexivity |]. split; [reflexivity |].
  split; [exact Hnet |].
  apply (fetchWithRetry_rethrows_earlier_error net_error_then_429 3
           (VStr (u "offline")) ltac:(lia) eq_refl eq_refl Hnet).
Defined.

(** ** The similar-places session *)

Section SessionProperties.
Context `{Host}.

Lemma find_place_Some place_id a anchor :
  find_place place_id a = Some anchor ->
  In anchor (DATA a) /\ ToString (id anchor) = ToString place_id.
Proof.
  unfold find_place. intros Hf. apply find_some in Hf as [Hin Heq].
  split; [exact Hin |]. unfold str_eqb in Heq.
  now apply bool_decide_eq_true in Heq.
Qed.

Lemma similar_result_not_anchor arr place_id r :
  In r (normalizeSimilarResults arr place_id) ->
  exists s la lo,
    id r = VStr s /\ s <> ToString place_id
    /\ lat r = VNum (Fin la) /\ lng r = VNum (Fin lo).
Proof.
  unfold normalizeSimilarResults. intros Hin.
  apply filter_In in Hin as [Hin Hfin].
  apply in_map_iff in Hin as (x & <- & Hx).
  apply filter_In in Hx as [_ Hkeep].
  apply andb_true_iff in Hkeep as [_ Hne].
  cbn [lat lng Number] in Hfin. apply andb_true_iff in Hfin as [Hla Hlo].
  apply isFinite_Fin in Hla as [la Hla]. apply isFinite_Fin in Hlo as [lo Hlo].
  exists (ToString (get x "place_id" ||| get x "id")), la, lo.
  cbn [id lat lng]. rewrite Hla, Hlo. split; [reflexivity |].
  split; [| split; reflexivity].
  intros Heq. unfold str_eqb in Hne. rewrite Heq in Hne.
  rewrite bool_decide_eq_true_2 in Hne by reflexivity. discriminate.
Qed.

Lemma same_filters_set_similar mode anchor results st :
  same_filters (set_similar mode anchor results st) st.
Proof. repeat split. Qed.

(** X7. [findSimilar] never changes [DATA] nor the user's filters. It
    ends in one of three ways: nothing changed (no place of [DATA] has the
    requested id); similar mode left, with no results and no selection;
    or similar mode entered with, as anchor, the first place of [DATA]
    whose id text is the requested one and with results that all have
    finite coordinates and an id text different from the anchor's. *)
Theorem findSimilar_outcomes (place_id : jsval) (net : nat -> fetched) (a : App) :
  DATA (findSimilar place_id net a) = DATA a
  /\ same_filters (app_state (findSimilar place_id net a)) (app_state a)
  /\ ((find_place place_id a = None /\ findSimilar place_id net a = a)
      \/ ((exists anchor, find_place place_id a = Some anchor)
          /\ findSimilar place_id net a = exitSimilarMode a)
      \/ exists anchor results,
           find_place place_id a = Some anchor
           /\ findSimilar place_id net a = enterSimilarMode (Some anchor) results a
           /\ In anchor (DATA a)
           /\ forall r, In r results ->
                exists s la lo,
                  id r = VStr s /\ s <> ToString (id anchor)
                  /\ lat r = VNum (Fin la) /\ lng r = VNum (Fin lo)).
Proof.
  unfold findSimilar.
  destruct (find_place place_id a) as [anchor |] eqn:Ef.
  2: { split; [reflexivity |]. split; [repeat split |]. left. split; reflexivity. }
  destruct (find_place_Some _ _ _ Ef) as [Hin Hid].
  destruct (fst (fetchWithRetry net 3)) as [resp | e].
  2: { split; [reflexivity |]. split; [repeat split |].
       right. left. split; [eauto | reflexivity]. }
  destruct (ok resp); cbn [negb].
  2: { split; [reflexivity |]. split; [repeat split |].
       right. left. split; [eauto | reflexivity]. }
  destruct (json resp) as [payload |].
  2: { split; [reflexivity |]. split; [repeat split |].
       right. left. split; [eauto | reflexivity]. }
  destruct (similar_items payload) as [| | | | | arr |];
    try (split; [reflexivity |]; split; [repeat split |];
         right; left; split; [eauto | reflexivity]).
  split; [reflexivity |]. split; [repeat split |].
  right. right. exists anchor, (normalizeSimilarResults arr place_id).
  split; [reflexivity |]. split; [reflexivity |]. split; [exact Hin |].
  intros r Hr. rewrite Hid. apply (similar_result_not_anchor arr). exact Hr.
Qed.


Lemma filterData_same_filters mapped st st' rows :
  same_filters st st' -> state.similarMode st = state.similarMode st' ->
  filterData mapped st rows = filterData mapped st' rows.
Proof.
  intros (Hq & Hd & Hi & Hc & Hs & Hp & Ht & _) Hm.
  unfold filterData, activeInsight, stage_district, stage_category, stage_insight,
    stage_text, stage_sentiment, stage_price, stage_tags.
  rewrite Hq, Hd, Hi, Hc, Hs, Hp, Ht, Hm. reflexivity.
Qed.

(** X9. Entering similar mode and leaving it again restores the list
    that was shown before, whatever the anchor and the results: for
    globals not in similar mode, the list shown after [enterSimilarMode]
    followed by [exitSimilarMode] is the list shown at the start. While
    similar mode is on, the list shown is computed from the similar
    results and not from [DATA]. *)
Theorem similar_mode_round_trip (mapped : list Insight) (a : App)
    (anchor : option Place) (results : list Place) :
  state.similarMode (app_state a) = false ->
  shown mapped (exitSimilarMode (enterSimilarMode anchor results a)) = shown mapped a
  /\ shown mapped (enterSimilarMode anchor results a)
     = filterData mapped (app_state (enterSimilarMode anchor results a)) results.
Proof.
  intros Hoff. unfold shown, render_list. split; [| reflexivity].
  cbn [exitSimilarMode enterSimilarMode app_state DATA set_similar
       state.similarMode state.similarResults].
  rewrite Hoff. apply filterData_same_filters; [repeat split | symmetry; exact Hoff].
Qed.

(** X10. The selection is always empty or the id text of a place of
    [DATA]: [selectPlaceById], [enterSimilarMode], [exitSimilarMode] and
    [findSimilar] keep it so. In particular selecting an id that no place
    of [DATA] carries (a similar result that is not in [DATA]) changes
    nothing. *)
Theorem selection_stays_in_data (a : App) :
  selection_in_data a ->
  (forall ident, selection_in_data (selectPlaceById ident a))
  /\ (forall ident, find_place ident a = None -> selectPlaceById ident a = a)
  /\ (forall anchor results, selection_in_data (enterSimilarMode anchor results a))
  /\ selection_in_data (exitSimilarMode a)
  /\ (forall place_id net, selection_in_data (findSimilar place_id net a)).
Proof.
  intros Hsel. split; [| split; [| split; [| split]]].
  - intros ident. unfold selectPlaceById.
    destruct (find_place ident a) as [p |] eqn:Ef; [| exact Hsel].
    destruct (find_place_Some _ _ _ Ef) as [Hin Hid].
    exists p. split; [exact Hin | exact Hid].
  - intros ident Ef. unfold selectPlaceById. rewrite Ef. reflexivity.
  - intros anchor results. exact I.
  - exact I.
  - intros place_id net. unfold findSimilar.
    destruct (find_place place_id a); [| exact Hsel].
    destruct (fst (fetchWithRetry net 3)) as [resp |]; [| exact I].
    destruct (negb (ok resp)); [exact I |].
    destruct (json resp) as [payload |]; [| exact I].
    destruct (similar_items payload); exact I.
Qed.

End SessionProperties.


Lemma similar_mode_round_trip_witness :
  state.similarMode (app_state sample_app) = false
  /\ @shown sample_host []
       (exitSimilarMode
          (enterSimilarMode None [similar_place "c" "downtown"] sample_app))
     = @shown sample_host [] sample_app
  /\ @shown sample_host []
       (enterSimilarMode None [similar_place "c" "downtown"] sample_app)
     = @filterData sample_host []
         (app_state (enterSimilarMode None [similar_place "c" "downtown"] sample_app))
         [similar_place "c" "downtown"].
Proof.
  split; [reflexivity |].
  apply (@similar_mode_round_trip sample_host [] sample_app None
           [similar_place "c" "downtown"]).
  reflexivity.
Defined.

Lemma selection_stays_in_data_witness :
  @selection_in_data sample_host sample_app
  /\ (forall ident,
        @selection_in_data sample_host (@selectPlaceById sample_host ident sample_app))
  /\ (forall ident, @find_place sample_host ident sample_app = None ->
        @selectPlaceById sample_host ident sample_app = sample_app)
  /\ (forall anchor results,
        @selection_in_data sample_host (enterSimilarMode anchor results sample_app))
  /\ @selection_in_data sample_host (exitSimilarMode sample_app)
  /\ (forall place_id net,
        @selection_in_data sample_host
          (@findSimilar sample_host place_id net sample_app)).
Proof.
  split; [exact I |].
  apply (@selection_stays_in_data sample_host sample_app). exact I.
Defined.

(** ** The tag statistics and the district labels *)

Lemma str_eqb_eq (s t : jsstring) : str_eqb s t = true <-> s = t.
Proof. unfold str_eqb. apply bool_decide_eq_true. Qed.

Lemma str_eqb_neq (s t : jsstring) : str_eqb s t = false <-> s <> t.
Proof. unfold str_eqb. apply bool_decide_eq_false. Qed.

Lemma str_eqb_sym (s t : jsstring) : str_eqb s t = str_eqb t s.
Proof.
  unfold str_eqb. apply bool_decide_ext. split; congruence.
Qed.

Lemma tag_count_bump (t s : jsstring) (freq : list (jsstring * nat)) :
  tag_count (bump t freq) s
  = if str_eqb t s then S (tag_count freq s) else tag_count freq s.
Proof.
  induction freq as [| [k n] freq IH]; simpl.
  - reflexivity.
  - destruct (str_eqb k t) eqn:Ekt; simpl.
    + apply str_eqb_eq in Ekt. subst k. destruct (str_eqb t s); reflexivity.
    + destruct (str_eqb k s) eqn:Eks; [| exact IH].
      apply str_eqb_eq in Eks. subst k. now rewrite (str_eqb_sym t s), Ekt.
Qed.

Lemma keys_bump (t : jsstring) (freq : list (jsstring * nat)) :
  map fst (bump t freq)
  = if existsb (str_eqb t) (map fst freq) then map fst freq
    else map fst freq ++ [t].
Proof.
  induction freq as [| [k n] freq IH]; simpl; [reflexivity |].
  destruct (str_eqb k t) eqn:Ekt; simpl.
  - apply str_eqb_eq in Ekt. subst k.
    replace (str_eqb t t) with true by (symmetry; now apply str_eqb_eq).
    reflexivity.
  - replace (str_eqb t k) with false.
    + simpl. rewrite IH. now destruct (existsb _ _).
    + symmetry. apply str_eqb_neq. apply str_eqb_neq in Ekt. congruence.
Qed.

Lemma NoDup_snoc {A} (l : list A) (x : A) :
  List.NoDup l -> ~ In x l -> List.NoDup (l ++ [x]).
Proof.
  intros Hl Hx. apply NoDup_ListNoDup, NoDup_app. repeat split.
  - now apply NoDup_ListNoDup.
  - intros y Hy Hy'. apply list_elem_of_In in Hy, Hy'.
    destruct Hy' as [<- | []]. contradiction.
  - apply NoDup_ListNoDup. constructor; [simpl; tauto | constructor].
Qed.

Lemma Forall_bump (P : jsstring * nat -> Prop) (t : jsstring)
    (freq : list (jsstring * nat)) :
  (forall k n, P (k, n) -> P (k, S n)) -> P (t, 1) ->
  Forall P freq -> Forall P (bump t freq).
Proof.
  intros Hs Ht. induction 1 as [| [k n] freq Hx Hf IH]; simpl.
  - repeat constructor. exact Ht.
  - destruct (str_eqb k t); constructor; auto.
Qed.

Lemma well_formed_bump (t : jsstring) (freq : list (jsstring * nat)) :
  t <> [] -> well_formed freq -> well_formed (bump t freq).
Proof.
  intros Ht [Hnd Hall]. split.
  - rewrite keys_bump. destruct (existsb _ _) eqn:E; [exact Hnd |].
    apply NoDup_snoc; [exact Hnd |]. intros Hin.
    apply existsb_str_eqb in Hin. congruence.
  - apply Forall_bump; [| | exact Hall]; simpl.
    + intros k n [? ?]. split; [assumption | lia].
    + split; [exact Ht | lia].
Qed.

Lemma TAG_COUNTS_unfold (places : list Place) :
  TAG_COUNTS places
  = fold_left count_step (all_tags places) [].
Proof.
  unfold TAG_COUNTS, all_tags. generalize (@nil (jsstring * nat)) as freq.
  induction places as [| p places IH]; intros freq; simpl; [reflexivity |].
  rewrite fold_left_app. apply IH.
Qed.

Lemma well_formed_steps (l : list jsstring) (freq : list (jsstring * nat)) :
  well_formed freq -> well_formed (fold_left count_step l freq).
Proof.
  revert freq. induction l as [| t l IH]; intros freq Hf; simpl; [exact Hf |].
  apply IH. destruct t as [| c t]; [exact Hf |].
  apply well_formed_bump; [discriminate | exact Hf].
Qed.

Lemma tag_count_steps (l : list jsstring) (freq : list (jsstring * nat))
    (s : jsstring) :
  s <> [] ->
  tag_count (fold_left count_step l freq) s = tag_count freq s + occurrences s l.
Proof.
  intros Hs. revert freq.
  induction l as [| t l IH]; intros freq; simpl.
  - unfold occurrences. simpl. lia.
  - rewrite IH. unfold occurrences. simpl.
    destruct t as [| c t].
    + replace (str_eqb [] s) with false
        by (symmetry; apply str_eqb_neq; congruence).
      simpl. reflexivity.
    + simpl count_step. rewrite tag_count_bump.
      destruct (str_eqb (c :: t) s); simpl; lia.
Qed.

Lemma tag_count_In (freq : list (jsstring * nat)) (k : jsstring) (n : nat) :
  List.NoDup (map fst freq) -> In (k, n) freq -> tag_count freq k = n.
Proof.
  induction freq as [| [k' n'] freq IH]; simpl; [tauto |].
  intros Hnd [Heq | Hin].
  - injection Heq as -> ->.
    now replace (str_eqb k k) with true by (symmetry; now apply str_eqb_eq).
  - inversion Hnd as [| ? ? Hk Hnd']; subst.
    destruct (str_eqb k' k) eqn:E.
    + apply str_eqb_eq in E. subst k'. exfalso. apply Hk.
      apply in_map_iff. now exists (k, n).
    + now apply IH.
Qed.

Lemma tag_count_absent (freq : list (jsstring * nat)) (k : jsstring) :
  ~ In k (map fst freq) -> tag_count freq k = 0.
Proof.
  induction freq as [| [k' n'] freq IH]; simpl; [reflexivity |].
  intros Hk. destruct (str_eqb k' k) eqn:E.
  - apply str_eqb_eq in E. tauto.
  - apply IH. tauto.
Qed.

Lemma by_count_le (a b : jsstring * nat) :
  js_gt (by_count a b) (Fin 0) = false <-> snd b <= snd a.
Proof.
  unfold by_count. rewrite js_sub_Fin.
  rewrite <- inject_Z_opp, <- inject_Z_plus.
  change (Fin 0) with (Fin (inject_Z 0)).
  destruct (js_gt _ _) eqn:E.
  - apply js_gt_Fin in E. rewrite <- Zlt_Qlt in E. split; [discriminate | lia].
  - split; [intros _ | reflexivity].
    destruct (Nat.le_gt_cases (snd b) (snd a)) as [Hle | Hgt]; [exact Hle |].
    assert (Hq : js_gt (Fin (inject_Z (Z.of_nat (snd b) + - Z.of_nat (snd a))))
                   (Fin (inject_Z 0)) = true).
    { apply js_gt_Fin. rewrite <- Zlt_Qlt. lia. }
    congruence.
Qed.

Lemma by_count_asym (a b : jsstring * nat) :
  js_gt (by_count a b) (Fin 0) = true -> js_gt (by_count b a) (Fin 0) = false.
Proof.
  intros Hab. apply by_count_le.
  destruct (Nat.le_gt_cases (snd b) (snd a)) as [Hle | Hgt]; [| lia].
  apply by_count_le in Hle. congruence.
Qed.

(** In a list sorted by count every entry is at least as frequent as the
    ones behind it. *)
Lemma sorted_by_count_head (x : jsstring * nat) (l : list (jsstring * nat)) :
  sorted by_count (x :: l) -> Forall (fun y => snd y <= snd x) l.
Proof.
  revert x. induction l as [| y l IH]; intros x Hs; [constructor |].
  destruct Hs as [Hxy Hs]. apply by_count_le in Hxy.
  constructor; [exact Hxy |].
  eapply Forall_impl; [apply IH, Hs |]. simpl. intros z Hz. lia.
Qed.

Lemma sorted_by_count_split (l1 l2 : list (jsstring * nat)) :
  sorted by_count (l1 ++ l2) ->
  forall x y, In x l1 -> In y l2 -> snd y <= snd x.
Proof.
  induction l1 as [| z l1 IH]; intros Hs x y Hx Hy; [destruct Hx |].
  destruct Hx as [-> | Hx].
  - pose proof (sorted_by_count_head _ _ Hs) as Hall.
    rewrite List.Forall_forall in Hall. apply Hall, in_or_app. now right.
  - apply IH; try assumption. eapply sorted_tail. exact Hs.
Qed.

Lemma sorted_by_count_lookup (l : list (jsstring * nat)) (i j : nat)
    (x y : jsstring * nat) :
  sorted by_count l -> i <= j -> l !! i = Some x -> l !! j = Some y ->
  snd y <= snd x.
Proof.
  revert i j. induction l as [| z l IH]; intros i j Hs Hij Hi Hj.
  - discriminate.
  - destruct i as [| i], j as [| j]; simpl in *.
    + injection Hi as <-. injection Hj as <-. lia.
    + injection Hi as <-.
      pose proof (sorted_by_count_head _ _ Hs) as Hall.
      rewrite List.Forall_forall in Hall. apply Hall.
      apply list_elem_of_In. eapply list_elem_of_lookup_2. exact Hj.
    + lia.
    + apply (IH i j); try assumption; [eapply sorted_tail; exact Hs | lia].
Qed.

Lemma TAG_COUNTS_well_formed (places : list Place) :
  well_formed (TAG_COUNTS places).
Proof.
  rewrite TAG_COUNTS_unfold. apply well_formed_steps.
  split; constructor.
Qed.

Lemma occurrences_pos (t : jsstring) (l : list jsstring) :
  1 <= occurrences t l <-> In t l.
Proof.
  unfold occurrences. induction l as [| s l IH]; simpl; [lia |].
  destruct (str_eqb s t) eqn:E; simpl.
  - apply str_eqb_eq in E. split; [auto | lia].
  - apply str_eqb_neq in E. rewrite IH. intuition.
Qed.

Lemma In_str_dec (t : jsstring) (l : list jsstring) : In t l \/ ~ In t l.
Proof.
  destruct (existsb (str_eqb t) l) eqn:E.
  - left. now apply existsb_str_eqb.
  - right. intros Hin. apply existsb_str_eqb in Hin. congruence.
Qed.

Lemma tag_count_key (freq : list (jsstring * nat)) (t : jsstring) :
  well_formed freq -> (In t (map fst freq) <-> 1 <= tag_count freq t).
Proof.
  intros [Hnd Hall]. split.
  - intros Hin. apply in_map_iff in Hin. destruct Hin as ([k n] & Hk & Hin).
    simpl in Hk. subst k. rewrite (tag_count_In _ _ _ Hnd Hin).
    rewrite List.Forall_forall in Hall. apply (Hall _ Hin).
  - intros Hpos. destruct (In_str_dec t (map fst freq)) as [Hin | Hout]; [exact Hin |].
    rewrite (tag_count_absent _ _ Hout) in Hpos. lia.
Qed.

Lemma ranked_perm (places : list Place) : ranked places ≡ₚ TAG_COUNTS places.
Proof. apply array_sort_perm. Qed.

Lemma ranked_count (places : list Place) (t : jsstring) (n : nat) :
  In (t, n) (ranked places) ->
  tag_count (TAG_COUNTS places) t = n /\ 1 <= n.
Proof.
  intros Hin. apply In_array_sort in Hin.
  destruct (TAG_COUNTS_well_formed places) as [Hnd Hall]. split.
  - now apply tag_count_In.
  - rewrite List.Forall_forall in Hall. apply (Hall _ Hin).
Qed.

Lemma ranked_sorted (places : list Place) : sorted by_count (ranked places).
Proof. apply array_sort_sorted. exact by_count_asym. Qed.

Lemma ranked_split (places : list Place) :
  ranked places = firstn 200 (ranked places) ++ skipn 200 (ranked places).
Proof. symmetry. apply firstn_skipn. Qed.

Lemma lookup_List_map {A B} (f : A -> B) (l : list A) (i : nat) :
  map f l !! i = f <$> l !! i.
Proof.
  revert i. induction l as [| x l IH]; intros [| i]; simpl; auto.
Qed.

Lemma In_firstn {A} (n : nat) (l : list A) (x : A) :
  In x (firstn n l) -> In x l.
Proof.
  intros Hin. rewrite <- (firstn_skipn n l). apply in_or_app. now left.
Qed.

(** X11. After the loader's counting loops, the count kept for a tag
    that is not the empty string is the number of times the tag occurs
    in the tag lists of the places; the empty string is never counted;
    and the keys of the map are distinct and are exactly the non-empty
    tags that occur. *)
Theorem TAG_COUNTS_counts_occurrences (places : list Place) (t : jsstring) :
  tag_count (TAG_COUNTS places) t
  = match t with [] => 0 | _ => occurrences t (all_tags places) end
  /\ List.NoDup (map fst (TAG_COUNTS places))
  /\ (In t (map fst (TAG_COUNTS places))
      <-> t <> [] /\ In t (all_tags places)).
Proof.
  pose proof (TAG_COUNTS_well_formed places) as Hwf.
  assert (Hempty : ~ In [] (map fst (TAG_COUNTS places))).
  { intros Hin. apply in_map_iff in Hin. destruct Hin as ([k n] & Hk & Hin).
    destruct Hwf as [_ Hall]. rewrite List.Forall_forall in Hall.
    apply (Hall _ Hin). exact Hk. }
  assert (Hcount : t <> [] ->
            tag_count (TAG_COUNTS places) t = occurrences t (all_tags places)).
  { intros Ht. rewrite TAG_COUNTS_unfold, tag_count_steps by exact Ht.
    reflexivity. }
  split; [| split].
  - destruct t as [| c t].
    + now apply tag_count_absent.
    + apply Hcount. discriminate.
  - apply Hwf.
  - split.
    + intros Hin. assert (Ht : t <> []) by (intros ->; contradiction).
      split; [exact Ht |].
      apply occurrences_pos. rewrite <- (Hcount Ht).
      now apply tag_count_key.
    + intros [Ht Hin]. apply tag_count_key; [exact Hwf |].
      rewrite (Hcount Ht). now apply occurrences_pos.
Qed.

(** X12. [TAGS] holds at most 200 tags, each once and each with a count
    of at least one; it lists them from the most frequent to the least
    frequent; no tag left out is more frequent than a listed one; and
    when at most 200 distinct tags occur, all of them are listed. *)
Theorem TAGS_most_frequent (places : list Place) :
  let count := tag_count (TAG_COUNTS places) in
  length (TAGS places) <= 200
  /\ List.NoDup (TAGS places)
  /\ (forall t, In t (TAGS places) -> 1 <= count t)
  /\ (forall i j a b, i <= j ->
        TAGS places !! i = Some a -> TAGS places !! j = Some b ->
        count b <= count a)
  /\ (forall a b, In a (TAGS places) -> ~ In b (TAGS places) ->
        count b <= count a)
  /\ (length (TAG_COUNTS places) <= 200 ->
      forall t, In t (TAGS places) <-> 1 <= count t).
Proof.
  intros count. unfold TAGS. fold (ranked places).
  assert (Hlisted : forall t, In t (map fst (firstn 200 (ranked places))) ->
            exists n, In (t, n) (firstn 200 (ranked places))
                      /\ count t = n /\ 1 <= n).
  { intros t Hin. apply in_map_iff in Hin. destruct Hin as ([k n] & Hk & Hin).
    simpl in Hk. subst k. exists n. split; [exact Hin |].
    apply ranked_count. eapply In_firstn. exact Hin. }
  split; [| split; [| split; [| split; [| split]]]].
  - rewrite length_map, length_firstn. lia.
  - rewrite <- firstn_map. apply NoDup_ListNoDup.
    eapply sublist_NoDup; [| apply sublist_take].
    apply NoDup_ListNoDup.
    eapply Permutation_NoDup.
    + apply Permutation_map. symmetry. apply ranked_perm.
    + apply TAG_COUNTS_well_formed.
  - intros t Hin. destruct (Hlisted t Hin) as (n & _ & Hc & Hn). lia.
  - intros i j a b Hij Ha Hb.
    rewrite lookup_List_map in Ha, Hb.
    destruct (firstn 200 (ranked places) !! i) as [[a' n] |] eqn:Ei;
      [| discriminate].
    destruct (firstn 200 (ranked places) !! j) as [[b' m] |] eqn:Ej;
      [| discriminate].
    simpl in Ha, Hb. injection Ha as ->. injection Hb as ->.
    assert (Hi : ranked places !! i = Some (a, n)).
    { apply lookup_take_Some in Ei. apply Ei. }
    assert (Hj : ranked places !! j = Some (b, m)).
    { apply lookup_take_Some in Ej. apply Ej. }
    assert (Ha : In (a, n) (ranked places)).
    { apply list_elem_of_In. eapply list_elem_of_lookup_2. exact Hi. }
    assert (Hb : In (b, m) (ranked places)).
    { apply list_elem_of_In. eapply list_elem_of_lookup_2. exact Hj. }
    apply ranked_count in Ha, Hb. destruct Ha as [Ha _], Hb as [Hb _].
    unfold count. rewrite Ha, Hb.
    apply (sorted_by_count_lookup (ranked places) i j (a, n) (b, m));
      auto using ranked_sorted.
  - intros a b Ha Hb.
    destruct (Hlisted a Ha) as (n & Hin & Hc & Hn). rewrite Hc.
    destruct (In_str_dec b (map fst (TAG_COUNTS places))) as [Hkey | Hout].
    + apply in_map_iff in Hkey. destruct Hkey as ([k m] & Hk & Hkey).
      simpl in Hk. subst k.
      assert (Hr : In (b, m) (ranked places)) by now apply In_array_sort.
      destruct (ranked_count _ _ _ Hr) as [Hm _]. unfold count. rewrite Hm.
      rewrite ranked_split in Hr. apply in_app_or in Hr.
      destruct Hr as [Hr | Hr].
      * exfalso. apply Hb. apply in_map_iff. now exists (b, m).
      * apply (sorted_by_count_split (firstn 200 (ranked places))
                 (skipn 200 (ranked places)) ltac:(rewrite <- ranked_split;
                   apply ranked_sorted) (a, n) (b, m) Hin Hr).
    + unfold count. rewrite (tag_count_absent _ _ Hout). lia.
  - intros Hlen t.
    assert (Hall : firstn 200 (ranked places) = ranked places).
    { apply firstn_all2. rewrite (Permutation_length (ranked_perm places)).
      exact Hlen. }
    rewrite Hall. unfold count.
    rewrite <- tag_count_key by apply TAG_COUNTS_well_formed.
    split; intros Hin.
    + eapply Permutation_in; [| exact Hin].
      apply Permutation_map, ranked_perm.
    + eapply Permutation_in; [| exact Hin].
      apply Permutation_map. symmetry. apply ranked_perm.
Qed.

Lemma fallback_label_empty (s : jsstring) : fallback_label s = [] <-> s = [].
Proof.
  unfold fallback_label.
  repeat match goal with
  | |- context [str_eqb s ?k] =>
      let E := fresh "E" in
      destruct (str_eqb s k) eqn:E;
        [apply str_eqb_eq in E; subst s; split; intros Hs; vm_compute in Hs;
         discriminate |]
  end.
  reflexivity.
Qed.

Lemma fallback_label_other (s : jsstring) :
  ~ In s (map u ["Olaya"; "Malqa"; "Nakheel"; "Yasmin"; "Sulaymaniyah";
                 "Rabwah"; "Wurod"]) ->
  fallback_label s = s.
Proof.
  intros Hout. unfold fallback_label.
  repeat match goal with
  | |- context [str_eqb s ?k] =>
      let E := fresh "E" in
      destruct (str_eqb s k) eqn:E;
        [apply str_eqb_eq in E; exfalso; apply Hout; rewrite E; simpl; tauto |]
  end.
  reflexivity.
Qed.

Section TableProperties.
Context `{Host}.

#[local] Arguments truthy : simpl never.

Lemma truthy_VStr (s : jsstring) : truthy (VStr s) = true <-> s <> [].
Proof. destruct s; unfold truthy; split; congruence. Qed.

(** The label loop, started from any map [m]: keys that [m] has keep
    their label, every other key takes the label of the first place
    that offers one. *)
Lemma label_loop (places : list Place) (m : gmap jsstring jsstring)
    (sl : jsstring) :
  fold_left
    (fun m p =>
       let sl := district_key p in
       let ar := district_label p in
       if truthy (VStr sl) && truthy (VStr ar)
          && negb (bool_decide (is_Some (m !! sl)))
       then <[sl := ar]> m
       else m)
    places m !! sl
  = match m !! sl with
    | Some v => Some v
    | None => match sl with [] => None | _ => first_label places sl end
    end.
Proof.
  revert m. induction places as [| p places IH]; intros m; simpl.
  - destruct (m !! sl); [reflexivity |]. now destruct sl.
  - rewrite IH. unfold first_label. simpl.
    destruct (truthy (VStr (district_key p))) eqn:Ek; simpl.
    + destruct (truthy (VStr (district_label p))) eqn:Ea; simpl.
      * case_bool_decide as Hm; simpl.
        -- destruct (str_eqb (district_key p) sl) eqn:E.
           ++ apply str_eqb_eq in E. subst sl.
              destruct Hm as [v Hv]. now rewrite Hv.
           ++ reflexivity.
        -- destruct (str_eqb (district_key p) sl) eqn:E.
           ++ apply str_eqb_eq in E. subst sl.
              rewrite lookup_insert_eq.
              apply eq_None_not_Some in Hm. rewrite Hm.
              apply truthy_VStr in Ek.
              destruct (district_key p); [congruence | reflexivity].
           ++ apply str_eqb_neq in E.
              rewrite lookup_insert_ne by exact E. reflexivity.
      * rewrite andb_false_r. reflexivity.
    + destruct (str_eqb (district_key p) sl) eqn:E; [| reflexivity].
      apply str_eqb_eq in E. subst sl.
      destruct (district_key p); [| discriminate].
      now destruct (m !! []).
Qed.

Lemma label_map_lookup (places : list Place) (sl : jsstring) :
  DISTRICT_LABEL_AR_BY_SLUG places !! sl
  = match sl with [] => None | _ => first_label places sl end.
Proof.
  unfold DISTRICT_LABEL_AR_BY_SLUG. rewrite label_loop.
  rewrite lookup_empty. reflexivity.
Qed.

Lemma label_map_nonempty (places : list Place) (sl : jsstring) :
  DISTRICT_LABEL_AR_BY_SLUG places !! sl <> Some [].
Proof.
  rewrite label_map_lookup. destruct sl as [| c sl]; [discriminate |].
  unfold first_label.
  induction places as [| p places IH]; simpl; [discriminate |].
  destruct (str_eqb (district_key p) (c :: sl)); simpl; [| exact IH].
  destruct (truthy (VStr (district_label p))) eqn:Ea; simpl; [| exact IH].
  apply truthy_VStr in Ea. congruence.
Qed.

(** X13. The label map built by the loader gives each non-empty district
    key the trimmed label of the first place of [DATA] that has this key
    and a label that is not blank; later places never replace it; the
    empty key has no entry; and no stored label is empty. *)
Theorem DISTRICT_LABEL_AR_BY_SLUG_first_wins (places : list Place)
    (sl : jsstring) :
  DISTRICT_LABEL_AR_BY_SLUG places !! sl
  = match sl with [] => None | _ => first_label places sl end
  /\ DISTRICT_LABEL_AR_BY_SLUG places !! sl <> Some []
  /\ (forall more, is_Some (DISTRICT_LABEL_AR_BY_SLUG places !! sl) ->
        DISTRICT_LABEL_AR_BY_SLUG (places ++ more) !! sl
        = DISTRICT_LABEL_AR_BY_SLUG places !! sl).
Proof.
  split; [apply label_map_lookup | split; [apply label_map_nonempty |]].
  intros more. rewrite !label_map_lookup.
  destruct sl as [| c sl]; [reflexivity |].
  unfold first_label. rewrite omap_app. intros [v Hv].
  destruct (omap _ places) as [| x l]; [discriminate |]. reflexivity.
Qed.

(** X14. The label shown for a district is the stored label whenever the
    loader stored one for its key, and the fallback label of the key
    otherwise; it is empty only when the key itself is the empty
    string; and a key outside the fallback table that has no stored label
    is shown as it is. *)
Theorem districtLabelArFromSlug_label (places : list Place) (slug : jsval) :
  let s := ToString (slug ||| VStr []) in
  let label := districtLabelArFromSlug (DISTRICT_LABEL_AR_BY_SLUG places) slug in
  (forall ar, DISTRICT_LABEL_AR_BY_SLUG places !! s = Some ar -> label = ar)
  /\ (DISTRICT_LABEL_AR_BY_SLUG places !! s = None -> label = fallback_label s)
  /\ (label = [] <-> s = [])
  /\ (DISTRICT_LABEL_AR_BY_SLUG places !! s = None ->
      ~ In s (map u ["Olaya"; "Malqa"; "Nakheel"; "Yasmin"; "Sulaymaniyah";
                     "Rabwah"; "Wurod"]) ->
      label = s).
Proof.
  intros s label. subst label. unfold districtLabelArFromSlug. fold s.
  pose proof (label_map_nonempty places s) as Hne.
  pose proof (fallback_label_empty s) as Hfb.
  split; [| split; [| split]].
  - intros ar Har. rewrite Har. destruct ar; [contradiction | reflexivity].
  - intros Hnone. rewrite Hnone. reflexivity.
  - destruct (DISTRICT_LABEL_AR_BY_SLUG places !! s) as [[| c l] |] eqn:E;
      try exact Hfb.
    split; [discriminate |]. intros Hs.
    rewrite Hs, label_map_lookup in E. discriminate.
  - intros Hnone Hout. rewrite Hnone. now apply fallback_label_other.
Qed.

End TableProperties.

(** ** Escaping *)

Lemma escape_char_cases (c : N) :
  (special c = false /\ escape_char c = [c])
  \/ (special c = true /\ In (escape_char c) entities
      /\ exists e, escape_char c = 38%N :: e
                   /\ Forall (fun d => special d = false) e).
Proof.
  unfold special, escape_char, entities.
  destruct (c =? 38)%N eqn:E1; [right | ].
  { split; [reflexivity |]. split; [simpl; tauto |].
    eexists. split; [reflexivity |]. repeat constructor. }
  destruct (c =? 60)%N eqn:E2; [right | ].
  { split; [reflexivity |]. split; [simpl; tauto |].
    eexists. split; [reflexivity |]. repeat constructor. }
  destruct (c =? 62)%N eqn:E3; [right | ].
  { split; [reflexivity |]. split; [simpl; tauto |].
    eexists. split; [reflexivity |]. repeat constructor. }
  destruct (c =? 34)%N eqn:E4; [right | ].
  { split; [reflexivity |]. split; [simpl; tauto |].
    eexists. split; [reflexivity |]. repeat constructor. }
  destruct (c =? 39)%N eqn:E5; [right | ].
  { split; [reflexivity |]. split; [simpl; tauto |].
    eexists. split; [reflexivity |]. repeat constructor. }
  left. split; reflexivity.
Qed.

(** In escaped text the only special character is the ampersand. *)
Lemma escaped_no_markup (s : jsstring) :
  Forall (fun c => special c = true -> c = 38%N) (flat_map escape_char s).
Proof.
  induction s as [| c s IH]; simpl; [constructor |].
  apply Forall_app. split; [| exact IH].
  destruct (escape_char_cases c) as [[Hc ->] | (Hc & _ & e & -> & He)].
  - repeat constructor. congruence.
  - constructor; [reflexivity |].
    eapply Forall_impl; [exact He |]. simpl. congruence.
Qed.

(** Every ampersand of escaped text starts an entity. *)
Lemma escaped_ampersand (s : jsstring) (i : nat) :
  flat_map escape_char s !! i = Some 38%N ->
  exists e rest, In e entities /\ drop i (flat_map escape_char s) = e ++ rest.
Proof.
  revert i. induction s as [| c s IH]; intros i Hi; simpl in *.
  - destruct i; discriminate.
  - destruct (escape_char_cases c) as [[Hc Hx] | (Hc & Hin & e & Hx & He)].
    + rewrite Hx in *. destruct i as [| i]; simpl in *.
      * injection Hi as ->. discriminate.
      * apply IH. exact Hi.
    + destruct (decide (i < length (escape_char c))) as [Hlt | Hge].
      * rewrite lookup_app_l in Hi by exact Hlt.
        destruct i as [| i].
        -- exists (escape_char c), (flat_map escape_char s).
           split; [exact Hin | reflexivity].
        -- exfalso. rewrite Hx in Hi. simpl in Hi.
           rewrite Forall_lookup in He. specialize (He i _ Hi). discriminate.
      * rewrite lookup_app_r in Hi by lia.
        destruct (IH _ Hi) as (e' & rest & He' & Hd).
        exists e', rest. split; [exact He' |].
        rewrite drop_app_ge by lia. exact Hd.
Qed.

Lemma escaped_safe (s : jsstring) :
  Forall (fun c => special c = false) s -> flat_map escape_char s = s.
Proof.
  induction 1 as [| c s Hc Hs IH]; simpl; [reflexivity |].
  destruct (escape_char_cases c) as [[_ ->] | (Hc' & _)]; [| congruence].
  simpl. now rewrite IH.
Qed.

Lemma escape_char_inj (c d : N) (s t : jsstring) :
  escape_char c ++ s = escape_char d ++ t -> c = d /\ s = t.
Proof.
  unfold escape_char.
  destruct (c =? 38)%N eqn:C1; [apply N.eqb_eq in C1 |];
  [| destruct (c =? 60)%N eqn:C2; [apply N.eqb_eq in C2 |];
  [| destruct (c =? 62)%N eqn:C3; [apply N.eqb_eq in C3 |];
  [| destruct (c =? 34)%N eqn:C4; [apply N.eqb_eq in C4 |];
  [| destruct (c =? 39)%N eqn:C5; [apply N.eqb_eq in C5 |]]]]];
  (destruct (d =? 38)%N eqn:D1; [apply N.eqb_eq in D1 |];
  [| destruct (d =? 60)%N eqn:D2; [apply N.eqb_eq in D2 |];
  [| destruct (d =? 62)%N eqn:D3; [apply N.eqb_eq in D3 |];
  [| destruct (d =? 34)%N eqn:D4; [apply N.eqb_eq in D4 |];
  [| destruct (d =? 39)%N eqn:D5; [apply N.eqb_eq in D5 |]]]]]);
  simpl; intros Heq; subst;
  try discriminate;
  try (injection Heq as ?; subst; split; reflexivity);
  try (injection Heq as ? ?; subst; discriminate).
Qed.

Lemma escaped_inj (s t : jsstring) :
  flat_map escape_char s = flat_map escape_char t -> s = t.
Proof.
  revert t. induction s as [| c s IH]; intros [| d t]; simpl; intros Heq.
  - reflexivity.
  - exfalso. destruct (escape_char_cases d) as [[_ Hx] | (_ & _ & e & Hx & _)];
      rewrite Hx in Heq; discriminate.
  - exfalso. destruct (escape_char_cases c) as [[_ Hx] | (_ & _ & e & Hx & _)];
      rewrite Hx in Heq; discriminate.
  - apply escape_char_inj in Heq. destruct Heq as [-> Heq].
    f_equal. now apply IH.
Qed.

Section EscapingProperties.
Context `{Host}.

(** X15. The text produced by [escHtml] contains no [<], no [>], no
    double quote and no apostrophe, and every ampersand in it is the
    first character of one of the five entities; so text put between
    tags or inside a quoted attribute can neither open a tag nor end the
    attribute. A missing value gives the empty text. *)
Theorem escHtml_no_markup (s : jsval) :
  Forall (fun c => c <> ch "<" /\ c <> ch ">" /\ c <> 34%N /\ c <> ch "'")
    (escHtml s)
  /\ (forall i, escHtml s !! i = Some (ch "&") ->
        exists e rest, In e entities /\ drop i (escHtml s) = e ++ rest)
  /\ (nullish s = true -> escHtml s = []).
Proof.
  unfold escHtml. split; [| split].
  - eapply Forall_impl; [apply escaped_no_markup |]. simpl.
    intros c Hc. repeat split; intros ->; now specialize (Hc eq_refl).
  - intros i. apply escaped_ampersand.
  - intros Hs. unfold js_coalesce. rewrite Hs. reflexivity.
Qed.

(** X16. [escHtml] loses nothing: two values are escaped to the same
    text only if they have the same text, and a text without any of the
    five special characters is returned unchanged. *)
Theorem escHtml_injective (a b : jsval) :
  (escHtml a = escHtml b
   <-> ToString (a ??? VStr []) = ToString (b ??? VStr []))
  /\ (Forall (fun c => special c = false) (ToString (a ??? VStr [])) ->
      escHtml a = ToString (a ??? VStr [])).
Proof.
  unfold escHtml. split; [split |].
  - apply escaped_inj.
  - intros ->. reflexivity.
  - apply escaped_safe.
Qed.

Lemma css_quote_preceded (s : jsstring) (i : nat) :
  flat_map (fun c => if (c =? 34)%N then [92; 34]%N else [c]) s !! i
    = Some 34%N ->
  exists j, i = S j
    /\ flat_map (fun c => if (c =? 34)%N then [92; 34]%N else [c]) s !! j
       = Some 92%N.
Proof.
  revert i. induction s as [| c s IH]; intros i Hi; simpl in *.
  - destruct i; discriminate.
  - destruct (c =? 34)%N eqn:E; simpl in *.
    + destruct i as [| [| i]]; simpl in *.
      * discriminate.
      * exists 0. split; reflexivity.
      * destruct (IH _ Hi) as (j & -> & Hj). exists (S (S j)).
        split; [reflexivity | exact Hj].
    + destruct i as [| i]; simpl in *.
      * injection Hi as ->. discriminate.
      * destruct (IH _ Hi) as (j & -> & Hj). exists (S j).
        split; [reflexivity | exact Hj].
Qed.

Lemma css_inj (s t : jsstring) :
  flat_map (fun c => if (c =? 34)%N then [92; 34]%N else [c]) s
  = flat_map (fun c => if (c =? 34)%N then [92; 34]%N else [c]) t ->
  s = t.
Proof.
  revert t. induction s as [| c s IH]; intros [| d t]; simpl; intros Heq.
  - reflexivity.
  - destruct (d =? 34)%N; discriminate.
  - destruct (c =? 34)%N; discriminate.
  - destruct (c =? 34)%N eqn:C; destruct (d =? 34)%N eqn:D; simpl in Heq.
    + apply N.eqb_eq in C, D. subst. injection Heq as Heq. f_equal. now apply IH.
    + injection Heq as <- Heq. apply N.eqb_eq in C. subst c.
      destruct t as [| d' t]; simpl in Heq; [discriminate |].
      destruct (d' =? 34)%N eqn:D'; simpl in Heq.
      * injection Heq as ? ?. discriminate.
      * injection Heq as <- Heq'. discriminate.
    + injection Heq as -> Heq. apply N.eqb_eq in D. subst d.
      destruct s as [| c' s]; simpl in Heq; [discriminate |].
      destruct (c' =? 34)%N eqn:C'; simpl in Heq.
      * injection Heq as ? ?. discriminate.
      * injection Heq as -> Heq'. discriminate.
    + injection Heq as -> Heq. f_equal. now apply IH.
Qed.

(** X17. In the text produced by [cssEscape] every double quote has a
    backslash directly in front of it; the escaping is one-to-one on
    texts; and a text without double quotes is returned unchanged. *)
Theorem cssEscape_quotes (v w : jsval) :
  (forall i, cssEscape v !! i = Some 34%N ->
     exists j, i = S j /\ cssEscape v !! j = Some 92%N)
  /\ (cssEscape v = cssEscape w <-> ToString v = ToString w)
  /\ (Forall (fun c => c <> 34%N) (ToString v) -> cssEscape v = ToString v).
Proof.
  unfold cssEscape. split; [| split; [split |]].
  - intros i. apply css_quote_preceded.
  - apply css_inj.
  - intros ->. reflexivity.
  - induction 1 as [| c s Hc Hs IH]; simpl; [reflexivity |].
    apply N.eqb_neq in Hc. rewrite Hc. simpl. now rewrite IH.
Qed.

End EscapingProperties.

(** ** The loader's normalisation and its use by the filters *)

Section LoaderProperties.
Context `{Host}.

Lemma loaded_place_is_mapped (rnd : nat -> jsstring) (payload : jsval)
    (p : Place) :
  In p (loadRealPlacesAndBootstrapUI rnd payload) ->
  exists i row, p = mapPlace (rnd i) row /\ place_valid row = true.
Proof.
  unfold loadRealPlacesAndBootstrapUI.
  destruct (validateAPIResponse payload) as [msg | results filtered] eqn:E;
    [intros [] |].
  intros Hin. apply In_imap in Hin. destruct Hin as (i & row & -> & Hrow).
  apply validateAPIResponse_results in E. destruct E as (raw & _ & ->).
  apply filter_In in Hrow. exists i, row. split; [reflexivity | apply Hrow].
Qed.

Lemma tag_strings_of_strings (l : list jsval) :
  omap (fun t => match t with VStr s => Some s | _ => None end)
    (map (fun t => VStr (ToString t)) l)
  = map ToString l.
Proof.
  induction l as [| t l IH]; simpl; [reflexivity |]. f_equal. exact IH.
Qed.

(** X18. Every place that the loader puts into [DATA] is normalised: each
    of its tags is a string; rating, review count, trust score and the
    coordinates are numbers; the alias properties carry the same value
    ([rating_count] and [reviews], [bayes2_score] and [trust],
    [sentiment_label_ar] and [sentiment], [price_level] and [price]);
    district, category, sentiment and price are never empty; and
    [pros_ar] is an array. *)
Theorem loaded_places_normalised (rnd : nat -> jsstring) (payload : jsval)
    (p : Place) :
  In p (loadRealPlacesAndBootstrapUI rnd payload) ->
  (Forall is_string (tags p) /\ tags p = map VStr (tag_strings p))
  /\ (is_number (rating p) /\ is_number (reviews p) /\ is_number (trust p)
      /\ is_number (lat p) /\ is_number (lng p))
  /\ (rating_count p = reviews p /\ bayes2_score p = trust p
      /\ sentiment_label_ar p = sentiment p /\ price_level p = price p)
  /\ (truthy (district p) = true /\ truthy (category p) = true
      /\ truthy (sentiment p) = true /\ truthy (price p) = true)
  /\ isArray (pros_ar p) = true.
Proof.
  intros Hin. apply loaded_place_is_mapped in Hin.
  destruct Hin as (i & row & -> & _).
  split; [split | split; [| split; [| split]]].
  - cbn [mapPlace tags]. apply List.Forall_forall. intros t Ht.
    apply in_map_iff in Ht. destruct Ht as (t' & <- & _). now eexists.
  - unfold tag_strings. cbn [mapPlace tags].
    rewrite tag_strings_of_strings, map_map. reflexivity.
  - cbn [mapPlace rating reviews trust lat lng]. repeat split; now eexists.
  - cbn [mapPlace]. repeat split; reflexivity.
  - cbn [mapPlace district category sentiment price].
    rewrite !truthy_js_or. repeat split; apply orb_true_r.
  - cbn [mapPlace pros_ar]. destruct (isArray (get row "pros_ar")) eqn:E;
      [exact E | reflexivity].
Qed.

(** X19. A raw row that has neither [bayes2_score] nor [trust] is loaded
    with the score 0, not with a missing score: the default 0.50 of the
    must-go predicate does not apply to it, and the place fails every
    must-go rule whose trust threshold is positive. *)
Theorem mapPlace_missing_score_is_zero (rnd : jsstring) (row : jsval)
    (minBayes : Q) (minReviews : jsnum) (excludeSentiment : jsstring) :
  nullish (get row "bayes2_score") = true ->
  nullish (get row "trust") = true ->
  (0 < minBayes)%Q ->
  bayes2_score (mapPlace rnd row) = VNum (Fin 0)
  /\ trust (mapPlace rnd row) = VNum (Fin 0)
  /\ mustGo_pred (Fin minBayes) minReviews excludeSentiment (mapPlace rnd row)
     = false.
Proof.
  intros Hb Ht Hmin.
  assert (Hscore : bayes2_score (mapPlace rnd row) = VNum (Fin 0)).
  { cbn [mapPlace bayes2_score]. unfold js_coalesce. rewrite Hb, Ht.
    reflexivity. }
  split; [exact Hscore | split].
  - cbn [mapPlace trust]. unfold js_coalesce. rewrite Hb, Ht. reflexivity.
  - unfold mustGo_pred. rewrite Hscore.
    change (Number (VNum (Fin 0) ??? VNum (Fin 0.50))) with (Fin 0).
    assert (Hge : js_ge (Fin 0) (Fin minBayes) = false).
    { destruct (js_ge (Fin 0) (Fin minBayes)) eqn:E; [| reflexivity].
      apply js_ge_Fin in E. lra. }
    rewrite Hge. reflexivity.
Qed.

End LoaderProperties.

Section SortProperties.
Context `{Host}.






End SortProperties.

Lemma loaded_places_normalised_witness :
  let payload := VObj [(u "results", VArr [raw_row "a" 24.7 46.6])] in
  let p := @mapPlace sample_host (u "0.5") (raw_row "a" 24.7 46.6) in
  In p (@loadRealPlacesAndBootstrapUI sample_host (fun _ => u "0.5") payload)
  /\ (Forall is_string (tags p) /\ tags p = map VStr (tag_strings p))
  /\ (is_number (rating p) /\ is_number (reviews p) /\ is_number (trust p)
      /\ is_number (lat p) /\ is_number (lng p))
  /\ (rating_count p = reviews p /\ bayes2_score p = trust p
      /\ sentiment_label_ar p = sentiment p /\ price_level p = price p)
  /\ (truthy (district p) = true /\ truthy (category p) = true
      /\ truthy (sentiment p) = true /\ truthy (price p) = true)
  /\ isArray (pros_ar p) = true.
Proof.
  cbv zeta.
  assert (Hin : In (@mapPlace sample_host (u "0.5") (raw_row "a" 24.7 46.6))
                  (@loadRealPlacesAndBootstrapUI sample_host (fun _ => u "0.5")
                     (VObj [(u "results", VArr [raw_row "a" 24.7 46.6])]))).
  { left. reflexivity. }
  split; [exact Hin |].
  apply (@loaded_places_normalised sample_host (fun _ => u "0.5") _ _ Hin).
Defined.

Lemma mapPlace_missing_score_is_zero_witness :
  nullish (get (raw_row "a" 24.7 46.6) "bayes2_score") = true
  /\ nullish (get (raw_row "a" 24.7 46.6) "trust") = true
  /\ (0 < 0.5)%Q
  /\ bayes2_score (@mapPlace sample_host (u "0.5") (raw_row "a" 24.7 46.6))
     = VNum (Fin 0)
  /\ trust (@mapPlace sample_host (u "0.5") (raw_row "a" 24.7 46.6)) = VNum (Fin 0)
  /\ @mustGo_pred sample_host (Fin 0.5) (Fin 0) []
       (@mapPlace sample_host (u "0.5") (raw_row "a" 24.7 46.6))
     = false.
Proof.
  split; [reflexivity |]. split; [reflexivity |]. split; [reflexivity |].
  apply (@mapPlace_missing_score_is_zero sample_host (u "0.5")
           (raw_row "a" 24.7 46.6) 0.5 (Fin 0) []); reflexivity.
Defined.


(** ** The category menu *)

#[local] Set Warnings "-clear-no-such-hyp".

Lemma gset_size_zero (s : gset jsstring) : size s = 0 -> s = ∅.
Proof. intros Hs. apply leibniz_equiv, size_empty_inv. exact Hs. Qed.

Ltac split_click :=
  match goal with
  | |- context [bool_decide (?k ∈ ?s ∖ {[u "all"]})] =>
      let Hin := fresh "Hin" in
      destruct (bool_decide (k ∈ s ∖ {[u "all"]})) eqn:Hin;
        [apply bool_decide_eq_true in Hin | apply bool_decide_eq_false in Hin]
  end;
  match goal with
  | |- context [bool_decide (size ?t = 0)] =>
      let Hsize := fresh "Hsize" in
      destruct (bool_decide (size t = 0)) eqn:Hsize;
        [apply bool_decide_eq_true, gset_size_zero in Hsize
        | apply bool_decide_eq_false in Hsize]
  end.

Lemma click_category_ok (key : jsstring) (staging : gset jsstring) :
  selection_ok (click_category key staging).
Proof.
  unfold selection_ok, click_category.
  destruct (str_eqb key (u "all")) eqn:Ek.
  - split; [set_solver | reflexivity].
  - apply str_eqb_neq in Ek. cbv zeta. split_click.
    + rewrite Hsize. split; set_solver.
    + split; [| set_solver].
      intros Hempty. apply Hsize. rewrite Hempty. apply size_empty.
    + exfalso. set_solver.
    + split; set_solver.
Qed.

(** X21. After every click in the category menu, and after its clear
    button, the selected categories are either [all] alone or a
    non-empty set without [all], whatever was selected before. A click
    on a category other than [all] switches the membership of that
    category and keeps the other categories as they were. *)
Theorem category_selection_invariant (key : jsstring) (staging : gset jsstring) :
  selection_ok (click_category key staging)
  /\ selection_ok (clear_categories staging)
  /\ click_category (u "all") staging = {[ u "all" ]}
  /\ (key <> u "all" ->
      (key ∈ click_category key staging <-> key ∉ staging)
      /\ forall k, k <> key -> k <> u "all" ->
           (k ∈ click_category key staging <-> k ∈ staging)).
Proof.
  split; [apply click_category_ok | split; [| split]].
  - split; [unfold clear_categories; set_solver | reflexivity].
  - reflexivity.
  - intros Hkey. unfold click_category.
    replace (str_eqb key (u "all")) with false
      by (symmetry; now apply str_eqb_neq).
    cbv zeta. split.
    + split_click; set_solver.
    + intros k Hk Hall. split_click; set_solver.
Qed.

(** X22. Clicking the same category twice restores the selection: for a
    selection that is [all] alone or a non-empty set without [all], and a
    category other than [all], the second click undoes the first. *)
Theorem category_click_twice (key : jsstring) (staging : gset jsstring) :
  selection_ok staging ->
  key <> u "all" ->
  click_category key (click_category key staging) = staging.
Proof.
  intros [Hne Hall] Hkey.
  assert (Hk : str_eqb key (u "all") = false) by now apply str_eqb_neq.
  destruct (decide (u "all" ∈ staging)) as [Hin | Hout].
  - rewrite (Hall Hin). unfold click_category. rewrite Hk. cbv zeta.
    assert (E1 : ({[u "all"]} : gset jsstring) ∖ {[u "all"]} = ∅) by set_solver.
    rewrite E1.
    rewrite (bool_decide_eq_false_2 (key ∈ (∅ : gset jsstring))) by set_solver.
    assert (E2 : (∅ : gset jsstring) ∪ {[key]} = {[key]}) by set_solver.
    rewrite E2.
    rewrite (bool_decide_eq_false_2 (size ({[key]} : gset jsstring) = 0))
      by (rewrite size_singleton; lia).
    assert (E3 : ({[key]} : gset jsstring) ∖ {[u "all"]} = {[key]}) by set_solver.
    rewrite E3.
    rewrite (bool_decide_eq_true_2 (key ∈ ({[key]} : gset jsstring)))
      by set_solver.
    assert (E4 : ({[key]} : gset jsstring) ∖ {[key]} = ∅) by set_solver.
    rewrite E4.
    rewrite (bool_decide_eq_true_2 (size (∅ : gset jsstring) = 0))
      by apply size_empty.
    set_solver.
  - assert (E1 : staging ∖ {[u "all"]} = staging) by set_solver.
    unfold click_category at 2. rewrite Hk. cbv zeta. rewrite E1.
    destruct (decide (key ∈ staging)) as [Hk_in | Hk_out].
    + rewrite (bool_decide_eq_true_2 _ Hk_in).
      destruct (bool_decide (size (staging ∖ {[key]}) = 0)) eqn:Hsize;
        [apply bool_decide_eq_true, gset_size_zero in Hsize
        | apply bool_decide_eq_false in Hsize].
      * assert (Hs : staging = {[key]}).
        { apply set_eq. intros x. split; intros Hx.
          - destruct (decide (x = key)) as [-> | Hxk]; [set_solver |].
            exfalso. assert (x ∈ staging ∖ {[key]}) by set_solver.
            rewrite Hsize in *. set_solver.
          - set_solver. }
        rewrite Hsize. unfold click_category. rewrite Hk. cbv zeta.
        assert (E2 : ((∅ : gset jsstring) ∪ {[u "all"]}) ∖ {[u "all"]} = ∅)
          by set_solver.
        rewrite E2.
        rewrite (bool_decide_eq_false_2 (key ∈ (∅ : gset jsstring)))
          by set_solver.
        assert (E3 : (∅ : gset jsstring) ∪ {[key]} = {[key]}) by set_solver.
        rewrite E3.
        rewrite (bool_decide_eq_false_2 (size ({[key]} : gset jsstring) = 0))
          by (rewrite size_singleton; lia).
        now rewrite Hs.
      * unfold click_category. rewrite Hk. cbv zeta.
        assert (E2 : (staging ∖ {[key]}) ∖ {[u "all"]} = staging ∖ {[key]})
          by set_solver.
        rewrite E2.
        rewrite (bool_decide_eq_false_2 (key ∈ staging ∖ {[key]}))
          by set_solver.
        assert (E3 : staging ∖ {[key]} ∪ {[key]} = staging).
        { apply set_eq. intros x.
          destruct (decide (x = key)) as [-> | Hxk]; set_solver. }
        rewrite E3.
        rewrite (bool_decide_eq_false_2 (size staging = 0)); [reflexivity |].
        intros Hz. apply gset_size_zero in Hz.
        contradiction.
    + rewrite (bool_decide_eq_false_2 _ Hk_out).
      rewrite (bool_decide_eq_false_2 (size (staging ∪ {[key]}) = 0)).
      2:{ intros Hz. apply gset_size_zero in Hz. set_solver. }
      unfold click_category. rewrite Hk. cbv zeta.
      assert (E2 : (staging ∪ {[key]}) ∖ {[u "all"]} = staging ∪ {[key]})
        by set_solver.
      rewrite E2.
      rewrite (bool_decide_eq_true_2 (key ∈ staging ∪ {[key]})) by set_solver.
      assert (E3 : (staging ∪ {[key]}) ∖ {[key]} = staging) by set_solver.
      rewrite E3.
      rewrite (bool_decide_eq_false_2 (size staging = 0)); [reflexivity |].
      intros Hz. apply gset_size_zero in Hz.
      contradiction.
Qed.

Lemma category_click_twice_witness :
  selection_ok ({[ u "cafe" ]} : gset jsstring)
  /\ u "park" <> u "all"
  /\ click_category (u "park") (click_category (u "park") {[ u "cafe" ]})
     = {[ u "cafe" ]}.
Proof.
  assert (Hok : selection_ok ({[ u "cafe" ]} : gset jsstring)).
  { split; [set_solver |]. intros Hin. apply elem_of_singleton in Hin.
    discriminate. }
  assert (Hkey : u "park" <> u "all") by discriminate.
  split; [exact Hok |]. split; [exact Hkey |].
  apply (category_click_twice (u "park") {[ u "cafe" ]} Hok Hkey).
Defined.

(** ** The cached load of the places *)

Lemma fetchWithRetry_fetches (net : nat -> fetched) (maxRetries : nat) :
  (length (fetches (snd (fetchWithRetry net maxRetries))) <= maxRetries)%nat.
Proof.
  destruct (fetch_attempts_shape net maxRetries maxRetries None (le_n _))
    as (n & Hn & Hf & _).
  unfold fetchWithRetry. rewrite Hf, length_seq. exact Hn.
Qed.

Lemma fetchWithRetry_response (net : nat -> fetched) (maxRetries : nat)
    (resp : Response) :
  fst (fetchWithRetry net maxRetries) = Normal resp ->
  (exists k, (k < maxRetries)%nat /\ net k = Fulfilled resp)
  /\ (ok resp = true \/ status resp <> 429%Z).
Proof.
  intros Hr.
  destruct (fetch_attempts_shape net maxRetries maxRetries None (le_n _))
    as (n & Hn & _ & Hresp).
  destruct (Hresp resp Hr) as (Hn1 & Hnet & Hok).
  split.
  - exists (n - 1)%nat. split; [lia |].
    replace (maxRetries - maxRetries + n - 1)%nat with (n - 1)%nat in Hnet by lia.
    exact Hnet.
  - destruct Hok as [Hok | [Hst _]]; [now left | now right].
Qed.

Lemma fetches_app (t1 t2 : list event) :
  fetches (t1 ++ t2) = fetches t1 ++ fetches t2.
Proof. unfold fetches. apply omap_app. Qed.

Lemma direct_fetch_trace (net : nat -> fetched) (before : list event)
    (stored : option Response) (refresh : bool)
    (refreshed : list event * option Response) :
  load_trace (direct_fetch net before stored refresh refreshed)
  = before ++ snd (fetchWithRetry net 3)
  /\ load_stored (direct_fetch net before stored refresh refreshed) = stored
  /\ load_refresh (direct_fetch net before stored refresh refreshed) = refresh
  /\ load_result (direct_fetch net before stored refresh refreshed)
     = match fst (fetchWithRetry net 3) with
       | Throw e => Failed e
       | Normal resp =>
           match json resp with
           | Some payload => Loaded payload network_nocache
           | None => BodyRejected
           end
       end
  /\ refresh_trace (direct_fetch net before stored refresh refreshed)
     = fst refreshed
  /\ refresh_stored (direct_fetch net before stored refresh refreshed)
     = snd refreshed.
Proof.
  unfold direct_fetch. destruct (fetchWithRetry net 3) as [r trace].
  repeat split.
Qed.

Lemma fetchWithRetry_first_call (net : nat -> fetched) (n : nat) :
  (1 <= length (fetches (snd (fetchWithRetry net (S n)))))%nat.
Proof.
  unfold fetchWithRetry. cbn [fetch_attempts].
  destruct (net (S n - S n)%nat) as [response | error].
  - destruct (ok response); [simpl; lia |].
    destruct (status response =? 429)%Z.
    { destruct (fetch_attempts net (S n) n None). simpl. lia. }
    destruct (_ && _).
    { destruct (fetch_attempts net (S n) n None). simpl. lia. }
    simpl. lia.
  - destruct (S n - S n <? S n - 1)%nat;
      destruct (fetch_attempts net (S n) n (Some error)); simpl; lia.
Qed.

Lemma background_refresh_spec (bg : nat -> fetched) (put_ok : bool) :
  fst (background_refresh bg put_ok) = snd (fetchWithRetry bg 3)
  /\ forall resp, snd (background_refresh bg put_ok) = Some resp ->
       ok resp = true /\ put_ok = true
       /\ exists k, (k < 3)%nat /\ bg k = Fulfilled resp.
Proof.
  unfold background_refresh.
  pose proof (fetchWithRetry_response bg 3) as Hresp.
  destruct (fetchWithRetry bg 3) as [r trace]. simpl in *.
  split; [reflexivity |]. intros resp.
  destruct r as [resp' | e]; [| discriminate].
  destruct (ok resp') eqn:Eok; destruct put_ok; simpl; try discriminate.
  intros Heq. injection Heq as <-. split; [exact Eok |].
  split; [reflexivity |]. apply (Hresp resp' eq_refl).
Qed.

Lemma refresh_if_spec (start : bool) (bg : nat -> fetched) (put_ok : bool) :
  (start = true ->
   fst (refresh_if start bg put_ok) = snd (fetchWithRetry bg 3))
  /\ (start = false -> refresh_if start bg put_ok = ([], None))
  /\ (length (fetches (fst (refresh_if start bg put_ok))) <= 3)%nat
  /\ forall resp, snd (refresh_if start bg put_ok) = Some resp ->
       start = true /\ ok resp = true /\ put_ok = true
       /\ exists k, (k < 3)%nat /\ bg k = Fulfilled resp.
Proof.
  unfold refresh_if.
  destruct (background_refresh_spec bg put_ok) as [Htrace Hstored].
  destruct start.
  - split; [intros _; exact Htrace |]. split; [discriminate |].
    split; [rewrite Htrace; apply fetchWithRetry_fetches |].
    intros resp Hresp. split; [reflexivity |]. now apply Hstored.
  - split; [discriminate |]. split; [reflexivity |].
    split; [simpl; lia | discriminate].
Qed.

Section PlacesCacheProperties.
Context `{Host}.

(** X23. An entry written by [writePlacesCacheMeta] at time [ts] counts
    as fresh exactly when it was written for the same URL, [ts] is not 0
    and less than 604800000 ms (seven days) have passed: an entry that is
    exactly seven days old is stale, and one with a time stamp in the
    future is fresh. Without readable meta data nothing is fresh. *)
Theorem isFresh_boundary (url requestUrl : jsstring) (ts now : Q) :
  (isFresh (readPlacesCacheMeta (Some (stored_meta url ts))) requestUrl now = true
   <-> url = requestUrl /\ ~ (ts == 0)%Q /\ (now - ts < 604800000)%Q)
  /\ isFresh (readPlacesCacheMeta (Some (stored_meta url ts))) url
       (ts + 604800000) = false
  /\ isFresh (readPlacesCacheMeta None) requestUrl now = false
  /\ (forall j, typeof_object j = false ->
        isFresh (readPlacesCacheMeta (Some j)) requestUrl now = false).
Proof.
  assert (Hiff : forall t n r,
            isFresh (readPlacesCacheMeta (Some (stored_meta url t))) r n = true
            <-> url = r /\ ~ (t == 0)%Q /\ (n - t < 604800000)%Q).
  { intros t n r. unfold isFresh, readPlacesCacheMeta, stored_meta.
    cbn [truthy typeof_object negb orb andb get assoc strict_eq_str Number].
    change (str_eqb (u "url") (u "url")) with true.
    change (str_eqb (u "ts") (u "url")) with false.
    change (str_eqb (u "ts") (u "ts")) with true.
    cbn [andb truthy strict_eq_str Number].
    rewrite js_sub_Fin. unfold PLACES_CACHE_MAX_AGE_MS.
    rewrite !andb_true_iff, str_eqb_eq, js_lt_Fin.
    destruct (num_truthy_cases t) as [[Hz Ht] | [Hnz Ht]]; rewrite Ht.
    - split; [intros [[_ Hf] _]; discriminate | intros (_ & Hne & _); tauto].
    - split.
      + intros [[Hu _] Hlt]. repeat split; [exact Hu | lra | lra].
      + intros (Hu & _ & Hlt). repeat split; [exact Hu | lra]. }
  split; [apply Hiff | split; [| split]].
  - destruct (isFresh _ _ _) eqn:E; [| reflexivity].
    apply Hiff in E. destruct E as (_ & _ & Hlt). lra.
  - reflexivity.
  - intros j Hj. unfold isFresh, readPlacesCacheMeta. rewrite Hj.
    rewrite orb_true_r. reflexivity.
Qed.

(** X24. A call of [fetchPlacesCached] leads to at most six calls of
    [fetch], those of the background refresh included: at most three in
    the cache path when there is no entry and up to three more in the
    direct fetch that follows a failure; at most three by the refresh
    and at most three by the direct fetch when there is an entry. The
    refresh is started exactly when the cache holds an entry that is not
    fresh, and then makes at least one call. A readable entry is returned
    whatever the network would answer, marked fresh or stale; the only
    calls of [fetch] are then those of the refresh, and when the entry
    is fresh there is no call at all. *)
Theorem fetchPlacesCached_attempts (parsed : option jsval) (now : Q)
    (requestUrl : jsstring) (cache : cache_lookup) (net bg : nat -> fetched) :
  let load := fetchPlacesCached parsed now requestUrl cache net bg in
  let fresh := isFresh (readPlacesCacheMeta parsed) requestUrl now in
  (length (fetches (load_trace load)) + length (fetches (refresh_trace load))
   <= 6)%nat
  /\ (length (fetches (refresh_trace load)) <= 3)%nat
  /\ ((forall put_ok, cache <> CacheMiss put_ok) ->
      (length (fetches (load_trace load)) <= 3)%nat)
  /\ (forall payload put_ok, cache = CacheHit (Some payload) put_ok ->
        load_trace load = []
        /\ load_result load
           = Loaded payload (if fresh then cache_fresh else cache_stale)
        /\ (fresh = true -> refresh_trace load = [])
        /\ (fresh = false -> refresh_trace load = snd (fetchWithRetry bg 3)))
  /\ (load_refresh load = true
      <-> fresh = false /\ exists body put_ok, cache = CacheHit body put_ok)
  /\ (load_refresh load = true ->
      refresh_trace load = snd (fetchWithRetry bg 3)
      /\ (1 <= length (fetches (refresh_trace load)))%nat)
  /\ (load_refresh load = false ->
      refresh_trace load = [] /\ refresh_stored load = None).
Proof.
  intros load fresh. subst load fresh.
  set (fresh := isFresh (readPlacesCacheMeta parsed) requestUrl now).
  assert (Hdirect : forall n before stored refresh refreshed,
            (length (fetches (load_trace
               (direct_fetch n before stored refresh refreshed)))
             <= length (fetches before) + 3)%nat).
  { intros n before stored refresh refreshed.
    destruct (direct_fetch_trace n before stored refresh refreshed) as (-> & _).
    rewrite fetches_app, length_app.
    pose proof (fetchWithRetry_fetches n 3). lia. }
  assert (Hmiss : forall put_ok,
            let load := fetchPlacesCached parsed now requestUrl
                          (CacheMiss put_ok) net bg in
            (length (fetches (load_trace load)) <= 6)%nat
            /\ load_refresh load = false
            /\ refresh_trace load = [] /\ refresh_stored load = None).
  { intros put_ok. cbv zeta. unfold fetchPlacesCached.
    pose proof (fetchWithRetry_fetches net 3) as Hfirst.
    destruct (fetchWithRetry net 3) as [r trace]. simpl in Hfirst.
    assert (Hd : forall stored,
              (length (fetches (load_trace
                 (direct_fetch (after trace net) trace stored false ([], None))))
               <= 6)%nat
              /\ load_refresh
                   (direct_fetch (after trace net) trace stored false ([], None))
                 = false
              /\ refresh_trace
                   (direct_fetch (after trace net) trace stored false ([], None))
                 = []
              /\ refresh_stored
                   (direct_fetch (after trace net) trace stored false ([], None))
                 = None).
    { intros stored.
      pose proof (Hdirect (after trace net) trace stored false ([], None)).
      destruct (direct_fetch_trace (after trace net) trace stored false
                  ([], None)) as (_ & _ & -> & _ & -> & ->).
      repeat split. lia. }
    destruct r as [resp | e]; [| apply Hd].
    destruct (ok resp && negb put_ok); [apply Hd |].
    destruct (json resp); [| apply Hd].
    simpl. repeat split. lia. }
  assert (Hplain : forall c, c = NoCacheAPI \/ c = CacheFails ->
            let load := fetchPlacesCached parsed now requestUrl c net bg in
            (length (fetches (load_trace load)) <= 3)%nat
            /\ load_refresh load = false
            /\ refresh_trace load = [] /\ refresh_stored load = None).
  { intros c Hc. cbv zeta.
    pose proof (Hdirect net [] None false ([], None)) as Hlen.
    destruct (direct_fetch_trace net [] None false ([], None))
      as (_ & _ & Hr & _ & Ht & Hs).
    destruct Hc as [-> | ->]; unfold fetchPlacesCached;
      rewrite Hr, Ht, Hs; repeat split; simpl in Hlen; lia. }
  assert (Hhit : forall body put_ok,
            let load := fetchPlacesCached parsed now requestUrl
                          (CacheHit body put_ok) net bg in
            (length (fetches (load_trace load)) <= 3)%nat
            /\ load_refresh load = negb fresh
            /\ refresh_trace load = fst (refresh_if (negb fresh) bg put_ok)
            /\ refresh_stored load = snd (refresh_if (negb fresh) bg put_ok)).
  { intros body put_ok. cbv zeta. unfold fetchPlacesCached. fold fresh.
    destruct body as [payload |].
    - simpl. repeat split. lia.
    - pose proof (Hdirect net [] None (negb fresh)
                    (refresh_if (negb fresh) bg put_ok)) as Hlen.
      destruct (direct_fetch_trace net [] None (negb fresh)
                  (refresh_if (negb fresh) bg put_ok))
        as (_ & _ & -> & _ & -> & ->).
      repeat split. simpl in Hlen. lia. }
  assert (Hquiet : forall load0 bound,
            (length (fetches (load_trace load0)) <= bound)%nat ->
            (bound <= 6)%nat ->
            load_refresh load0 = false ->
            refresh_trace load0 = [] -> refresh_stored load0 = None ->
            (length (fetches (load_trace load0))
             + length (fetches (refresh_trace load0)) <= 6)%nat
            /\ (length (fetches (refresh_trace load0)) <= 3)%nat
            /\ (load_refresh load0 = true -> False)
            /\ (load_refresh load0 = true ->
                refresh_trace load0 = snd (fetchWithRetry bg 3)
                /\ (1 <= length (fetches (refresh_trace load0)))%nat)
            /\ (load_refresh load0 = false ->
                refresh_trace load0 = [] /\ refresh_stored load0 = None)).
  { intros load0 bound Hlen Hb Hr Ht Hs. rewrite Hr, Ht, Hs. simpl.
    split; [lia |]. split; [lia |]. split; [discriminate |].
    split; [discriminate |]. intros _. split; reflexivity. }
  destruct cache as [| | put_ok | body put_ok].
  - destruct (Hplain NoCacheAPI (or_introl eq_refl)) as (Hlen & Hr & Ht & Hs).
    destruct (Hquiet _ 3%nat Hlen ltac:(lia) Hr Ht Hs)
      as (H1 & H2 & H3 & H4 & H5).
    split; [exact H1 |]. split; [exact H2 |]. split; [intros _; exact Hlen |].
    split; [intros payload p' [=] |].
    split; [| split; [exact H4 | exact H5]].
    split; [intros Hf; destruct (H3 Hf) | intros (_ & b' & p' & [=])].
  - destruct (Hplain CacheFails (or_intror eq_refl)) as (Hlen & Hr & Ht & Hs).
    destruct (Hquiet _ 3%nat Hlen ltac:(lia) Hr Ht Hs)
      as (H1 & H2 & H3 & H4 & H5).
    split; [exact H1 |]. split; [exact H2 |]. split; [intros _; exact Hlen |].
    split; [intros payload p' [=] |].
    split; [| split; [exact H4 | exact H5]].
    split; [intros Hf; destruct (H3 Hf) | intros (_ & b' & p' & [=])].
  - destruct (Hmiss put_ok) as (Hlen & Hr & Ht & Hs).
    destruct (Hquiet _ 6%nat Hlen ltac:(lia) Hr Ht Hs)
      as (H1 & H2 & H3 & H4 & H5).
    split; [exact H1 |]. split; [exact H2 |].
    split; [intros Hno; now specialize (Hno put_ok) |].
    split; [intros payload p' [=] |].
    split; [| split; [exact H4 | exact H5]].
    split; [intros Hf; destruct (H3 Hf) | intros (_ & b' & p' & [=])].
  - destruct (Hhit body put_ok) as (Hlen & Hr & Ht & Hs).
    destruct (refresh_if_spec (negb fresh) bg put_ok)
      as (Hstart & Hnone & Hbound & _).
    rewrite Hr, Ht, Hs.
    split; [lia |]. split; [exact Hbound |]. split; [intros _; exact Hlen |].
    split; [| split; [| split]].
    + intros payload p' [= -> ->]. unfold fetchPlacesCached. fold fresh.
      split; [reflexivity |]. split; [reflexivity |]. cbn [refresh_trace].
      split; intros Hf.
      * rewrite Hnone by (rewrite Hf; reflexivity). reflexivity.
      * apply Hstart. rewrite Hf. reflexivity.
    + rewrite negb_true_iff. split.
      * intros Hf. split; [exact Hf |]. now exists body, put_ok.
      * intros [Hf _]. exact Hf.
    + intros Hf. rewrite (Hstart Hf). split; [reflexivity |].
      apply fetchWithRetry_first_call.
    + intros Hf. rewrite (Hnone Hf). split; reflexivity.
Qed.

(** X25. With the network down (every call of [fetch] fails) and no
    entry in the cache, [fetchPlacesCached] goes through the retries
    twice: three calls inside the cache path, whose error is swallowed,
    and three more in the direct fetch, with the sleeps 1000, 2000, 1000
    and 2000 ms; in the end it throws the error of the sixth call (an
    error object, so a truthy value), and nothing is stored. *)
Theorem fetchPlacesCached_network_down (parsed : option jsval) (now : Q)
    (requestUrl : jsstring) (put_ok : bool) (net bg : nat -> fetched)
    (errs : nat -> jsval) :
  (forall k, (k < 6)%nat -> net k = Rejected (errs k)) ->
  truthy (errs 5%nat) = true ->
  let load := fetchPlacesCached parsed now requestUrl (CacheMiss put_ok) net bg in
  load_result load = Failed (LastError (errs 5%nat))
  /\ fetches (load_trace load) = [0; 1; 2; 0; 1; 2]%nat
  /\ waits (load_trace load) = [backoff 0; backoff 1; backoff 0; backoff 1]
  /\ load_stored load = None.
Proof.
  intros Hnet Herr load. subst load. unfold fetchPlacesCached.
  destruct (fetch_attempts_rejected net 3 3 None errs ltac:(lia)
              ltac:(intros k Hk; apply Hnet; lia)) as (Hr1 & Hw1 & Hf1).
  fold (fetchWithRetry net 3) in Hr1, Hw1, Hf1.
  destruct (fetchWithRetry net 3) as [r trace] eqn:E1. simpl in Hr1, Hw1, Hf1.
  subst r.
  assert (Hlen : length (fetches trace) = 3%nat) by now rewrite Hf1.
  destruct (fetch_attempts_rejected (after trace net) 3 3 None
              (fun k => errs (3 + k)%nat) ltac:(lia)
              ltac:(intros k Hk; unfold after; rewrite Hlen; apply Hnet; lia))
    as (Hr2 & Hw2 & Hf2).
  fold (fetchWithRetry (after trace net) 3) in Hr2, Hw2, Hf2.
  destruct (direct_fetch_trace (after trace net) trace None false ([], None))
    as (-> & -> & _ & -> & _).
  rewrite Hr2. unfold final_throw. cbn [Nat.add Nat.sub]. rewrite Herr.
  unfold waits, fetches in *.
  rewrite !omap_app. rewrite Hf1, Hf2, Hw1, Hw2.
  repeat split.
Qed.

(** X26. Whatever is put into the cache is a successful response that
    has just been fetched: by the call itself only when the cache had no
    entry, by the background refresh only when the cache had an entry
    that is not fresh. A payload marked [network] or [network_nocache]
    is the body of a response that [fetch] returned to the call and that
    is successful or a failure other than 429 (the body of such a
    failure is passed on as payload, but is not stored); a payload marked
    [cache_fresh] or [cache_stale] is the body of the cached entry. *)
Theorem fetchPlacesCached_stores_only_success (parsed : option jsval) (now : Q)
    (requestUrl : jsstring) (cache : cache_lookup) (net bg : nat -> fetched) :
  let load := fetchPlacesCached parsed now requestUrl cache net bg in
  (forall resp, load_stored load = Some resp ->
     ok resp = true /\ cache = CacheMiss true
     /\ exists k, (k < 3)%nat /\ net k = Fulfilled resp)
  /\ (forall resp, refresh_stored load = Some resp ->
        ok resp = true /\ load_refresh load = true
        /\ isFresh (readPlacesCacheMeta parsed) requestUrl now = false
        /\ (exists body, cache = CacheHit body true)
        /\ exists k, (k < 3)%nat /\ bg k = Fulfilled resp)
  /\ (forall payload src, load_result load = Loaded payload src ->
        match src with
        | cache_fresh | cache_stale =>
            exists put_ok, cache = CacheHit (Some payload) put_ok
        | network | network_nocache =>
            exists resp k,
              (k < 6)%nat /\ net k = Fulfilled resp
              /\ json resp = Some payload
              /\ (ok resp = true \/ status resp <> 429%Z)
        end).
Proof.
  intros load. subst load.
  set (fresh := isFresh (readPlacesCacheMeta parsed) requestUrl now).
  assert (Hdirect : forall n before stored refresh refreshed payload src,
            load_result (direct_fetch n before stored refresh refreshed)
            = Loaded payload src ->
            src = network_nocache
            /\ exists resp k, (k < 3)%nat /\ n k = Fulfilled resp
                 /\ json resp = Some payload
                 /\ (ok resp = true \/ status resp <> 429%Z)).
  { intros n before stored refresh refreshed payload src.
    destruct (direct_fetch_trace n before stored refresh refreshed)
      as (_ & _ & _ & -> & _).
    destruct (fst (fetchWithRetry n 3)) as [resp | e] eqn:E; [| discriminate].
    destruct (json resp) as [body |] eqn:Ej; [| discriminate].
    intros Heq. injection Heq as -> <-. split; [reflexivity |].
    destruct (fetchWithRetry_response n 3 resp E) as ((k & Hk & Hn) & Hok).
    exists resp, k. auto. }
  assert (Hshift : forall trace payload src stored,
            (length (fetches trace) <= 3)%nat ->
            load_result (direct_fetch (after trace net) trace stored false
                           ([], None))
            = Loaded payload src ->
            src = network_nocache
            /\ exists resp k, (k < 6)%nat /\ net k = Fulfilled resp
                 /\ json resp = Some payload
                 /\ (ok resp = true \/ status resp <> 429%Z)).
  { intros trace payload src stored Hlen Hres.
    destruct (Hdirect _ _ _ _ _ _ _ Hres) as (-> & resp & k & Hk & Hn & Hj & Hok).
    split; [reflexivity |].
    exists resp, (length (fetches trace) + k)%nat.
    split; [lia |]. auto. }
  assert (Hplain : forall refresh refreshed payload src,
            load_result (direct_fetch net [] None refresh refreshed)
            = Loaded payload src ->
            match src with
            | cache_fresh | cache_stale =>
                exists put_ok, cache = CacheHit (Some payload) put_ok
            | network | network_nocache =>
                exists resp k,
                  (k < 6)%nat /\ net k = Fulfilled resp
                  /\ json resp = Some payload
                  /\ (ok resp = true \/ status resp <> 429%Z)
            end).
  { intros refresh refreshed payload src Hres.
    destruct (Hdirect _ _ _ _ _ _ _ Hres) as (-> & resp & k & Hk & Hrest).
    exists resp, k. split; [lia | exact Hrest]. }
  split; [| split].
  - intros resp. destruct cache as [| | put_ok | [payload |] put_ok];
      unfold fetchPlacesCached.
    + destruct (direct_fetch_trace net [] None false ([], None))
        as (_ & -> & _). discriminate.
    + destruct (direct_fetch_trace net [] None false ([], None))
        as (_ & -> & _). discriminate.
    + pose proof (fetchWithRetry_response net 3) as Hresp.
      destruct (fetchWithRetry net 3) as [r trace]. simpl in Hresp.
      destruct r as [resp' | e].
      * destruct (ok resp') eqn:Eok; destruct put_ok; simpl.
        -- destruct (json resp').
           ++ simpl. intros Heq. injection Heq as <-.
              split; [exact Eok |]. split; [reflexivity |].
              apply (Hresp resp' eq_refl).
           ++ destruct (direct_fetch_trace (after trace net) trace
                          (Some resp') false ([], None)) as (_ & -> & _).
              intros Heq. injection Heq as <-.
              split; [exact Eok |]. split; [reflexivity |].
              apply (Hresp resp' eq_refl).
        -- destruct (direct_fetch_trace (after trace net) trace None false
                       ([], None)) as (_ & -> & _). discriminate.
        -- destruct (json resp'); [discriminate |].
           destruct (direct_fetch_trace (after trace net) trace None false
                       ([], None)) as (_ & -> & _). discriminate.
        -- destruct (json resp'); [discriminate |].
           destruct (direct_fetch_trace (after trace net) trace None false
                       ([], None)) as (_ & -> & _). discriminate.
      * destruct (direct_fetch_trace (after trace net) trace None false
                    ([], None)) as (_ & -> & _). discriminate.
    + discriminate.
    + fold fresh.
      destruct (direct_fetch_trace net [] None (negb fresh)
                  (refresh_if (negb fresh) bg put_ok)) as (_ & -> & _).
      discriminate.
  - intros resp. destruct cache as [| | put_ok | body put_ok];
      unfold fetchPlacesCached.
    + destruct (direct_fetch_trace net [] None false ([], None))
        as (_ & _ & _ & _ & _ & ->). discriminate.
    + destruct (direct_fetch_trace net [] None false ([], None))
        as (_ & _ & _ & _ & _ & ->). discriminate.
    + destruct (fetchWithRetry net 3) as [r trace].
      assert (Hd : forall stored,
                refresh_stored
                  (direct_fetch (after trace net) trace stored false ([], None))
                = Some resp -> False).
      { intros stored.
        destruct (direct_fetch_trace (after trace net) trace stored false
                    ([], None)) as (_ & _ & _ & _ & _ & ->). discriminate. }
      destruct r as [resp' | e]; [| intros Hs; destruct (Hd _ Hs)].
      destruct (ok resp' && negb put_ok); [intros Hs; destruct (Hd _ Hs) |].
      destruct (json resp'); [discriminate | intros Hs; destruct (Hd _ Hs)].
    + fold fresh.
      destruct (refresh_if_spec (negb fresh) bg put_ok) as (_ & _ & _ & Hst).
      assert (Hboth : refresh_stored
                 (match body with
                  | Some payload =>
                      {| load_result :=
                           Loaded payload
                             (if fresh then cache_fresh else cache_stale);
                         load_trace := [];
                         load_stored := None;
                         load_refresh := negb fresh;
                         refresh_trace := fst (refresh_if (negb fresh) bg put_ok);
                         refresh_stored := snd (refresh_if (negb fresh) bg put_ok) |}
                  | None =>
                      direct_fetch net [] None (negb fresh)
                        (refresh_if (negb fresh) bg put_ok)
                  end) = snd (refresh_if (negb fresh) bg put_ok)
               /\ load_refresh
                 (match body with
                  | Some payload =>
                      {| load_result :=
                           Loaded payload
                             (if fresh then cache_fresh else cache_stale);
                         load_trace := [];
                         load_stored := None;
                         load_refresh := negb fresh;
                         refresh_trace := fst (refresh_if (negb fresh) bg put_ok);
                         refresh_stored := snd (refresh_if (negb fresh) bg put_ok) |}
                  | None =>
                      direct_fetch net [] None (negb fresh)
                        (refresh_if (negb fresh) bg put_ok)
                  end) = negb fresh).
      { destruct body as [payload |]; [split; reflexivity |].
        destruct (direct_fetch_trace net [] None (negb fresh)
                    (refresh_if (negb fresh) bg put_ok))
          as (_ & _ & -> & _ & _ & ->). split; reflexivity. }
      cbv zeta. destruct Hboth as [-> ->].
      intros Hs. destruct (Hst resp Hs) as (Hstart & Hok & -> & Hk).
      split; [exact Hok |]. split; [exact Hstart |].
      split; [now apply negb_true_iff |].
      split; [now exists body | exact Hk].
  - intros payload src.
    destruct cache as [| | put_ok | [body |] put_ok]; unfold fetchPlacesCached.
    + apply Hplain.
    + apply Hplain.
    + pose proof (fetchWithRetry_response net 3) as Hresp.
      pose proof (fetchWithRetry_fetches net 3) as Hlen.
      destruct (fetchWithRetry net 3) as [r trace]. simpl in Hresp, Hlen.
      destruct r as [resp | e].
      * destruct (ok resp && negb put_ok).
        -- intros Hres. destruct (Hshift _ _ _ _ Hlen Hres) as (-> & Hex).
           exact Hex.
        -- destruct (json resp) as [body |] eqn:Ej.
           ++ simpl. intros Heq. injection Heq as -> <-.
              destruct (Hresp resp eq_refl) as ((k & Hk & Hn) & Hok).
              exists resp, k. split; [lia |]. auto.
           ++ intros Hres. destruct (Hshift _ _ _ _ Hlen Hres) as (-> & Hex).
              exact Hex.
      * intros Hres. destruct (Hshift _ _ _ _ Hlen Hres) as (-> & Hex).
        exact Hex.
    + simpl. intros Heq. injection Heq as -> <-.
      destruct (isFresh _ _ _); now exists put_ok.
    + apply Hplain.
Qed.

End PlacesCacheProperties.

Lemma fetchPlacesCached_network_down_witness :
  let load :=
    @fetchPlacesCached sample_host None 0 (u "/places") (CacheMiss true) net_down
      net_down in
  (forall k, (k < 6)%nat -> net_down k = Rejected (VStr (u "offline")))
  /\ truthy (VStr (u "offline")) = true
  /\ load_result load = Failed (LastError (VStr (u "offline")))
  /\ fetches (load_trace load) = [0; 1; 2; 0; 1; 2]%nat
  /\ waits (load_trace load) = [backoff 0; backoff 1; backoff 0; backoff 1]
  /\ load_stored load = None.
Proof.
  cbv zeta.
  assert (Hnet : forall k, (k < 6)%nat ->
            net_down k = Rejected ((fun _ => VStr (u "offline")) k)).
  { intros k _. reflexivity. }
  split; [exact Hnet |]. split; [reflexivity |].
  apply (@fetchPlacesCached_network_down sample_host None 0 (u "/places") true
           net_down net_down (fun _ => VStr (u "offline")) Hnet eq_refl).
Defined.

(** ** Markers *)

Section MarkerProperties.
Context `{Host}.

Lemma add_markers_places (mobile : bool) (bounds : nat) (places : list Place) :
  map m_place (add_markers mobile bounds places) = List.filter has_coords places.
Proof.
  revert bounds. induction places as [| p places IH]; intros bounds;
    [reflexivity |].
  cbn [add_markers List.filter]. unfold has_coords at 1.
  destruct (isFinite (Number (lat p))); destruct (isFinite (Number (lng p)));
    cbn [negb orb andb map m_place]; rewrite IH; reflexivity.
Qed.

Lemma add_markers_ranks (mobile : bool) (bounds : nat) (places : list Place) :
  map m_rank (add_markers mobile bounds places)
  = seq (bounds + 1) (length (add_markers mobile bounds places)).
Proof.
  revert bounds. induction places as [| p places IH]; intros bounds;
    [reflexivity |].
  cbn [add_markers].
  destruct (negb (isFinite (Number (lat p))) || negb (isFinite (Number (lng p)))).
  - apply IH.
  - cbn [map m_rank length seq]. rewrite IH.
    replace (bounds + 1 + 1) with (S (bounds + 1)) by lia. reflexivity.
Qed.

Lemma add_markers_colors (mobile : bool) (bounds : nat) (places : list Place) :
  Forall (fun m => m_color m = if m_rank m <=? 3 then "#f59e0b" else "#3b82f6")
    (add_markers mobile bounds places).
Proof.
  revert bounds. induction places as [| p places IH]; intros bounds;
    [constructor |].
  cbn [add_markers].
  destruct (negb (isFinite (Number (lat p))) || negb (isFinite (Number (lng p)))).
  - apply IH.
  - constructor; [reflexivity | apply IH].
Qed.

Lemma add_markers_positions (mobile : bool) (bounds : nat) (places : list Place)
    (w : Place -> jsnum) :
  map m_latlng (add_markers mobile bounds places)
  = map (fun pt => (fst (fst pt), snd (fst pt)))
      (omap (fun p =>
               let lat := Number (lat p) in
               let lng := Number (lng p) in
               if negb (isFinite lat) || negb (isFinite lng) then None
               else Some (lat, lng, w p))
         places).
Proof.
  revert bounds. induction places as [| p places IH]; intros bounds;
    [reflexivity |].
  cbn [add_markers omap list_omap]. cbv zeta.
  destruct (negb (isFinite (Number (lat p))) || negb (isFinite (Number (lng p)))).
  - apply IH.
  - cbn [map m_latlng fst snd]. f_equal. apply IH.
Qed.


(** X27. [setMarkers] puts one marker on the map for every place with
    finite coordinates, in the order of the list, and none for the
    others; the ranks in the pins are 1, 2, 3, ... without gaps; the
    pins of the ranks 1 to 3, and only they, are amber; and when the heat
    map is on, [updateHeatLayer] gets its points for the same places at
    the same positions. *)
Theorem setMarkers_ranks (mobile did_fit : bool) (mapped : list Insight)
    (st : state.t) (places : list Place) :
  let markers := fst (setMarkers mobile did_fit places) in
  map m_place markers = List.filter has_coords places
  /\ map m_rank markers = seq 1 (length markers)
  /\ Forall (fun m => m_color m = "#f59e0b" <-> m_rank m <= 3) markers
  /\ (forall pts, updateHeatLayer mapped st places = Some pts ->
        map (fun pt => (fst (fst pt), snd (fst pt))) pts = map m_latlng markers).
Proof.
  cbv zeta. unfold setMarkers. cbn [fst].
  split; [apply add_markers_places | split; [apply add_markers_ranks | split]].
  - eapply Forall_impl; [apply add_markers_colors |]. simpl.
    intros m ->. destruct (m_rank m <=? 3) eqn:E.
    + apply Nat.leb_le in E. tauto.
    + apply Nat.leb_gt in E. split; [discriminate | lia].
  - intros pts. unfold updateHeatLayer.
    destruct (str_eqb (state.heatmap st) (u "Off")); [discriminate |].
    intros Heq. injection Heq as <-. symmetry.
    apply add_markers_positions.
Qed.



End MarkerProperties.

